(** * Receiver of libcw (libcw_rec.c): a shallow embedding and its properties

    The development follows [src/libcw/libcw_rec.c].  A C [int] is a [Z]
    kept in the 32-bit two's complement range by [wrap]; the fixed-size
    arrays of the receiver are lists accessed through [array_get] and
    [array_set]; the receiver structure is threaded explicitly through
    every function.  A computation whose C counterpart has no defined
    result (division by zero, access outside an array, a failed
    [cw_assert]) yields [None]. *)

From Stdlib Require Import ZArith Lia Bool Ascii List.
From Stdlib Require Uint63 PrimFloat.
From stdpp Require Import base tactics option list numbers relations.

Open Scope Z_scope.

(** ** Machine integers *)

Definition INT_MAX : Z := 2147483647.
Definition INT_MIN : Z := -2147483648.

(** Reduction of a mathematical integer to the range of a 32-bit [int]. *)
Definition wrap (z : Z) : Z := (z - INT_MIN) mod 4294967296 + INT_MIN.

Definition int_add (a b : Z) : Z := wrap (a + b).
Definition int_sub (a b : Z) : Z := wrap (a - b).
Definition int_mul (a b : Z) : Z := wrap (a * b).

(** C division truncates towards zero; a zero divisor and [INT_MIN / -1]
    trap. *)
Definition int_div (a b : Z) : option Z :=
  if bool_decide (b = 0) then None
  else if bool_decide (a = INT_MIN ∧ b = -1) then None
  else Some (a ÷ b).

Definition int_rem (a b : Z) : option Z :=
  if bool_decide (b = 0) then None
  else if bool_decide (a = INT_MIN ∧ b = -1) then None
  else Some (Z.rem a b).

(** ** Arrays of fixed size *)

Definition array_get {A} (l : list A) (i : Z) : option A :=
  if bool_decide (0 ≤ i) then l !! Z.to_nat i else None.

Definition array_set {A} (l : list A) (i : Z) (v : A) : option (list A) :=
  if bool_decide (0 ≤ i < Z.of_nat (length l))
  then Some (<[Z.to_nat i := v]> l) else None.

(** ** Return values and error numbers *)

Inductive errno_t : Set :=
  EPERM | ENOENT | EAGAIN | ENOMEM | EINVAL | ERANGE.

(** A C function of the library returns [CW_SUCCESS] or [CW_FAILURE] and,
    on failure, leaves the reason in [errno]; output parameters are the
    payload of [CW_SUCCESS]. *)
Inductive cw_ret (A : Type) : Type :=
  | CW_SUCCESS (a : A)
  | CW_FAILURE (e : errno_t).
Arguments CW_SUCCESS {A} a.
Arguments CW_FAILURE {A} e.

(** ** Constants of libcw.h and libcw_rec.h *)

(** Modelled from the spec: libcw.h is not part of the sources at hand; the
    values are those of the specification ("CW_DOT_CALIBRATION = 1_200_000",
    speed 4..60 with default 12, tolerance 0..90 with default 50, gap 0..60
    with default 0). *)
Definition CW_DOT_CALIBRATION : Z := 1200000.
Definition CW_SPEED_MIN : Z := 4.
Definition CW_SPEED_MAX : Z := 60.
Definition CW_SPEED_INITIAL : Z := 12.
Definition CW_TOLERANCE_MIN : Z := 0.
Definition CW_TOLERANCE_MAX : Z := 90.
Definition CW_TOLERANCE_INITIAL : Z := 50.
Definition CW_GAP_MIN : Z := 0.
Definition CW_GAP_MAX : Z := 60.
Definition CW_GAP_INITIAL : Z := 0.

(** Modelled from the spec: the representation is "encoded as the ASCII
    characters . and -". *)
Definition CW_DOT_REPRESENTATION : ascii := "."%char.
Definition CW_DASH_REPRESENTATION : ascii := "-"%char.

(** Modelled from the spec: libcw_rec.h is not part of the sources at hand;
    "REC_REPR_CAP = 256", which the comment above
    [CW_REC_STATISTICS_CAPACITY] in libcw_rec.c repeats. *)
Definition CW_REC_REPRESENTATION_CAPACITY : Z := 256.

Definition CW_REC_ADAPTIVE_MODE_INITIAL : bool := false.
Definition CW_REC_SPEED_THRESHOLD_INITIAL : Z :=
  (CW_DOT_CALIBRATION ÷ CW_SPEED_INITIAL) * 2.
Definition CW_REC_NOISE_THRESHOLD_INITIAL : Z :=
  (CW_DOT_CALIBRATION ÷ CW_SPEED_MAX) ÷ 2.
Definition CW_REC_STATISTICS_CAPACITY : Z := 256.
Definition CW_REC_AVERAGING_ARRAY_LENGTH : Z := 4.

(** ** Data *)

(** "RS" stands for "Receiver State". *)
Inductive rec_state : Set :=
  | RS_IDLE
  | RS_MARK
  | RS_SPACE
  | RS_EOC_GAP
  | RS_EOW_GAP
  | RS_EOC_GAP_ERR
  | RS_EOW_GAP_ERR.

#[global] Instance rec_state_eq_dec : EqDecision rec_state.
Proof. solve_decision. Defined.

Inductive stat_type_t : Set :=
  | CW_REC_STAT_NONE
  | CW_REC_STAT_DOT
  | CW_REC_STAT_DASH
  | CW_REC_STAT_IMARK_SPACE
  | CW_REC_STAT_ICHAR_SPACE.

Record cw_rec_statistics_t : Set := {
  type : stat_type_t;
  delta : Z
}.

(** A moving averages structure - circular buffer. *)
Record cw_rec_averaging_t : Set := {
  buffer : list Z;
  cursor : Z;
  sum : Z;
  average : Z
}.

Record timeval : Set := {
  tv_sec : Z;
  tv_usec : Z
}.

Record cw_rec_t : Set := {
  state : rec_state;
  speed : Z;
  tolerance : Z;
  gap : Z;
  is_adaptive_receive_mode : bool;
  noise_spike_threshold : Z;
  adaptive_speed_threshold : Z;
  mark_start : timeval;
  mark_end : timeval;
  representation : list ascii;
  representation_ind : Z;
  dot_len_ideal : Z;
  dot_len_min : Z;
  dot_len_max : Z;
  dash_len_ideal : Z;
  dash_len_min : Z;
  dash_len_max : Z;
  eom_len_ideal : Z;
  eom_len_min : Z;
  eom_len_max : Z;
  eoc_len_ideal : Z;
  eoc_len_min : Z;
  eoc_len_max : Z;
  additional_delay : Z;
  adjustment_delay : Z;
  parameters_in_sync : bool;
  statistics : list cw_rec_statistics_t;
  statistics_ind : Z;
  dot_averaging : cw_rec_averaging_t;
  dash_averaging : cw_rec_averaging_t
}.

(** Assignment to one field of the receiver. *)

Definition set_state (v : rec_state) (rec : cw_rec_t) : cw_rec_t :=
  {| state := v; speed := speed rec; tolerance := tolerance rec;
     gap := gap rec;
     is_adaptive_receive_mode := is_adaptive_receive_mode rec;
     noise_spike_threshold := noise_spike_threshold rec;
     adaptive_speed_threshold := adaptive_speed_threshold rec;
     mark_start := mark_start rec; mark_end := mark_end rec;
     representation := representation rec;
     representation_ind := representation_ind rec;
     dot_len_ideal := dot_len_ideal rec; dot_len_min := dot_len_min rec;
     dot_len_max := dot_len_max rec; dash_len_ideal := dash_len_ideal rec;
     dash_len_min := dash_len_min rec; dash_len_max := dash_len_max rec;
     eom_len_ideal := eom_len_ideal rec; eom_len_min := eom_len_min rec;
     eom_len_max := eom_len_max rec; eoc_len_ideal := eoc_len_ideal rec;
     eoc_len_min := eoc_len_min rec; eoc_len_max := eoc_len_max rec;
     additional_delay := additional_delay rec;
     adjustment_delay := adjustment_delay rec;
     parameters_in_sync := parameters_in_sync rec;
     statistics := statistics rec; statistics_ind := statistics_ind rec;
     dot_averaging := dot_averaging rec;
     dash_averaging := dash_averaging rec |}.

Definition set_speed (v : Z) (rec : cw_rec_t) : cw_rec_t :=
  {| state := state rec; speed := v; tolerance := tolerance rec;
     gap := gap rec;
     is_adaptive_receive_mode := is_adaptive_receive_mode rec;
     noise_spike_threshold := noise_spike_threshold rec;
     adaptive_speed_threshold := adaptive_speed_threshold rec;
     mark_start := mark_start rec; mark_end := mark_end rec;
     representation := representation rec;
     representation_ind := representation_ind rec;
     dot_len_ideal := dot_len_ideal rec; dot_len_min := dot_len_min rec;
     dot_len_max := dot_len_max rec; dash_len_ideal := dash_len_ideal rec;
     dash_len_min := dash_len_min rec; dash_len_max := dash_len_max rec;
     eom_len_ideal := eom_len_ideal rec; eom_len_min := eom_len_min rec;
     eom_len_max := eom_len_max rec; eoc_len_ideal := eoc_len_ideal rec;
     eoc_len_min := eoc_len_min rec; eoc_len_max := eoc_len_max rec;
     additional_delay := additional_delay rec;
     adjustment_delay := adjustment_delay rec;
     parameters_in_sync := parameters_in_sync rec;
     statistics := statistics rec; statistics_ind := statistics_ind rec;
     dot_averaging := dot_averaging rec;
     dash_averaging := dash_averaging rec |}.

Definition set_tolerance (v : Z) (rec : cw_rec_t) : cw_rec_t :=
  {| state := state rec; speed := speed rec; tolerance := v; gap := gap rec;
     is_adaptive_receive_mode := is_adaptive_receive_mode rec;
     noise_spike_threshold := noise_spike_threshold rec;
     adaptive_speed_threshold := adaptive_speed_threshold rec;
     mark_start := mark_start rec; mark_end := mark_end rec;
     representation := representation rec;
     representation_ind := representation_ind rec;
     dot_len_ideal := dot_len_ideal rec; dot_len_min := dot_len_min rec;
     dot_len_max := dot_len_max rec; dash_len_ideal := dash_len_ideal rec;
     dash_len_min := dash_len_min rec; dash_len_max := dash_len_max rec;
     eom_len_ideal := eom_len_ideal rec; eom_len_min := eom_len_min rec;
     eom_len_max := eom_len_max rec; eoc_len_ideal := eoc_len_ideal rec;
     eoc_len_min := eoc_len_min rec; eoc_len_max := eoc_len_max rec;
     additional_delay := additional_delay rec;
     adjustment_delay := adjustment_delay rec;
     parameters_in_sync := parameters_in_sync rec;
     statistics := statistics rec; statistics_ind := statistics_ind rec;
     dot_averaging := dot_averaging rec;
     dash_averaging := dash_averaging rec |}.

Definition set_gap (v : Z) (rec : cw_rec_t) : cw_rec_t :=
  {| state := state rec; speed := speed rec; tolerance := tolerance rec;
     gap := v; is_adaptive_receive_mode := is_adaptive_receive_mode rec;
     noise_spike_threshold := noise_spike_threshold rec;
     adaptive_speed_threshold := adaptive_speed_threshold rec;
     mark_start := mark_start rec; mark_end := mark_end rec;
     representation := representation rec;
     representation_ind := representation_ind rec;
     dot_len_ideal := dot_len_ideal rec; dot_len_min := dot_len_min rec;
     dot_len_max := dot_len_max rec; dash_len_ideal := dash_len_ideal rec;
     dash_len_min := dash_len_min rec; dash_len_max := dash_len_max rec;
     eom_len_ideal := eom_len_ideal rec; eom_len_min := eom_len_min rec;
     eom_len_max := eom_len_max rec; eoc_len_ideal := eoc_len_ideal rec;
     eoc_len_min := eoc_len_min rec; eoc_len_max := eoc_len_max rec;
     additional_delay := additional_delay rec;
     adjustment_delay := adjustment_delay rec;
     parameters_in_sync := parameters_in_sync rec;
     statistics := statistics rec; statistics_ind := statistics_ind rec;
     dot_averaging := dot_averaging rec;
     dash_averaging := dash_averaging rec |}.

Definition set_is_adaptive_receive_mode (v : bool) (rec : cw_rec_t)
  : cw_rec_t :=
  {| state := state rec; speed := speed rec; tolerance := tolerance rec;
     gap := gap rec; is_adaptive_receive_mode := v;
     noise_spike_threshold := noise_spike_threshold rec;
     adaptive_speed_threshold := adaptive_speed_threshold rec;
     mark_start := mark_start rec; mark_end := mark_end rec;
     representation := representation rec;
     representation_ind := representation_ind rec;
     dot_len_ideal := dot_len_ideal rec; dot_len_min := dot_len_min rec;
     dot_len_max := dot_len_max rec; dash_len_ideal := dash_len_ideal rec;
     dash_len_min := dash_len_min rec; dash_len_max := dash_len_max rec;
     eom_len_ideal := eom_len_ideal rec; eom_len_min := eom_len_min rec;
     eom_len_max := eom_len_max rec; eoc_len_ideal := eoc_len_ideal rec;
     eoc_len_min := eoc_len_min rec; eoc_len_max := eoc_len_max rec;
     additional_delay := additional_delay rec;
     adjustment_delay := adjustment_delay rec;
     parameters_in_sync := parameters_in_sync rec;
     statistics := statistics rec; statistics_ind := statistics_ind rec;
     dot_averaging := dot_averaging rec;
     dash_averaging := dash_averaging rec |}.

Definition set_noise_spike_threshold (v : Z) (rec : cw_rec_t) : cw_rec_t :=
  {| state := state rec; speed := speed rec; tolerance := tolerance rec;
     gap := gap rec;
     is_adaptive_receive_mode := is_adaptive_receive_mode rec;
     noise_spike_threshold := v;
     adaptive_speed_threshold := adaptive_speed_threshold rec;
     mark_start := mark_start rec; mark_end := mark_end rec;
     representation := representation rec;
     representation_ind := representation_ind rec;
     dot_len_ideal := dot_len_ideal rec; dot_len_min := dot_len_min rec;
     dot_len_max := dot_len_max rec; dash_len_ideal := dash_len_ideal rec;
     dash_len_min := dash_len_min rec; dash_len_max := dash_len_max rec;
     eom_len_ideal := eom_len_ideal rec; eom_len_min := eom_len_min rec;
     eom_len_max := eom_len_max rec; eoc_len_ideal := eoc_len_ideal rec;
     eoc_len_min := eoc_len_min rec; eoc_len_max := eoc_len_max rec;
     additional_delay := additional_delay rec;
     adjustment_delay := adjustment_delay rec;
     parameters_in_sync := parameters_in_sync rec;
     statistics := statistics rec; statistics_ind := statistics_ind rec;
     dot_averaging := dot_averaging rec;
     dash_averaging := dash_averaging rec |}.

Definition set_adaptive_speed_threshold (v : Z) (rec : cw_rec_t) : cw_rec_t :=
  {| state := state rec; speed := speed rec; tolerance := tolerance rec;
     gap := gap rec;
     is_adaptive_receive_mode := is_adaptive_receive_mode rec;
     noise_spike_threshold := noise_spike_threshold rec;
     adaptive_speed_threshold := v; mark_start := mark_start rec;
     mark_end := mark_end rec; representation := representation rec;
     representation_ind := representation_ind rec;
     dot_len_ideal := dot_len_ideal rec; dot_len_min := dot_len_min rec;
     dot_len_max := dot_len_max rec; dash_len_ideal := dash_len_ideal rec;
     dash_len_min := dash_len_min rec; dash_len_max := dash_len_max rec;
     eom_len_ideal := eom_len_ideal rec; eom_len_min := eom_len_min rec;
     eom_len_max := eom_len_max rec; eoc_len_ideal := eoc_len_ideal rec;
     eoc_len_min := eoc_len_min rec; eoc_len_max := eoc_len_max rec;
     additional_delay := additional_delay rec;
     adjustment_delay := adjustment_delay rec;
     parameters_in_sync := parameters_in_sync rec;
     statistics := statistics rec; statistics_ind := statistics_ind rec;
     dot_averaging := dot_averaging rec;
     dash_averaging := dash_averaging rec |}.

Definition set_mark_start (v : timeval) (rec : cw_rec_t) : cw_rec_t :=
  {| state := state rec; speed := speed rec; tolerance := tolerance rec;
     gap := gap rec;
     is_adaptive_receive_mode := is_adaptive_receive_mode rec;
     noise_spike_threshold := noise_spike_threshold rec;
     adaptive_speed_threshold := adaptive_speed_threshold rec;
     mark_start := v; mark_end := mark_end rec;
     representation := representation rec;
     representation_ind := representation_ind rec;
     dot_len_ideal := dot_len_ideal rec; dot_len_min := dot_len_min rec;
     dot_len_max := dot_len_max rec; dash_len_ideal := dash_len_ideal rec;
     dash_len_min := dash_len_min rec; dash_len_max := dash_len_max rec;
     eom_len_ideal := eom_len_ideal rec; eom_len_min := eom_len_min rec;
     eom_len_max := eom_len_max rec; eoc_len_ideal := eoc_len_ideal rec;
     eoc_len_min := eoc_len_min rec; eoc_len_max := eoc_len_max rec;
     additional_delay := additional_delay rec;
     adjustment_delay := adjustment_delay rec;
     parameters_in_sync := parameters_in_sync rec;
     statistics := statistics rec; statistics_ind := statistics_ind rec;
     dot_averaging := dot_averaging rec;
     dash_averaging := dash_averaging rec |}.

Definition set_mark_end (v : timeval) (rec : cw_rec_t) : cw_rec_t :=
  {| state := state rec; speed := speed rec; tolerance := tolerance rec;
     gap := gap rec;
     is_adaptive_receive_mode := is_adaptive_receive_mode rec;
     noise_spike_threshold := noise_spike_threshold rec;
     adaptive_speed_threshold := adaptive_speed_threshold rec;
     mark_start := mark_start rec; mark_end := v;
     representation := representation rec;
     representation_ind := representation_ind rec;
     dot_len_ideal := dot_len_ideal rec; dot_len_min := dot_len_min rec;
     dot_len_max := dot_len_max rec; dash_len_ideal := dash_len_ideal rec;
     dash_len_min := dash_len_min rec; dash_len_max := dash_len_max rec;
     eom_len_ideal := eom_len_ideal rec; eom_len_min := eom_len_min rec;
     eom_len_max := eom_len_max rec; eoc_len_ideal := eoc_len_ideal rec;
     eoc_len_min := eoc_len_min rec; eoc_len_max := eoc_len_max rec;
     additional_delay := additional_delay rec;
     adjustment_delay := adjustment_delay rec;
     parameters_in_sync := parameters_in_sync rec;
     statistics := statistics rec; statistics_ind := statistics_ind rec;
     dot_averaging := dot_averaging rec;
     dash_averaging := dash_averaging rec |}.

Definition set_representation (v : list ascii) (rec : cw_rec_t) : cw_rec_t :=
  {| state := state rec; speed := speed rec; tolerance := tolerance rec;
     gap := gap rec;
     is_adaptive_receive_mode := is_adaptive_receive_mode rec;
     noise_spike_threshold := noise_spike_threshold rec;
     adaptive_speed_threshold := adaptive_speed_threshold rec;
     mark_start := mark_start rec; mark_end := mark_end rec;
     representation := v; representation_ind := representation_ind rec;
     dot_len_ideal := dot_len_ideal rec; dot_len_min := dot_len_min rec;
     dot_len_max := dot_len_max rec; dash_len_ideal := dash_len_ideal rec;
     dash_len_min := dash_len_min rec; dash_len_max := dash_len_max rec;
     eom_len_ideal := eom_len_ideal rec; eom_len_min := eom_len_min rec;
     eom_len_max := eom_len_max rec; eoc_len_ideal := eoc_len_ideal rec;
     eoc_len_min := eoc_len_min rec; eoc_len_max := eoc_len_max rec;
     additional_delay := additional_delay rec;
     adjustment_delay := adjustment_delay rec;
     parameters_in_sync := parameters_in_sync rec;
     statistics := statistics rec; statistics_ind := statistics_ind rec;
     dot_averaging := dot_averaging rec;
     dash_averaging := dash_averaging rec |}.

Definition set_representation_ind (v : Z) (rec : cw_rec_t) : cw_rec_t :=
  {| state := state rec; speed := speed rec; tolerance := tolerance rec;
     gap := gap rec;
     is_adaptive_receive_mode := is_adaptive_receive_mode rec;
     noise_spike_threshold := noise_spike_threshold rec;
     adaptive_speed_threshold := adaptive_speed_threshold rec;
     mark_start := mark_start rec; mark_end := mark_end rec;
     representation := representation rec; representation_ind := v;
     dot_len_ideal := dot_len_ideal rec; dot_len_min := dot_len_min rec;
     dot_len_max := dot_len_max rec; dash_len_ideal := dash_len_ideal rec;
     dash_len_min := dash_len_min rec; dash_len_max := dash_len_max rec;
     eom_len_ideal := eom_len_ideal rec; eom_len_min := eom_len_min rec;
     eom_len_max := eom_len_max rec; eoc_len_ideal := eoc_len_ideal rec;
     eoc_len_min := eoc_len_min rec; eoc_len_max := eoc_len_max rec;
     additional_delay := additional_delay rec;
     adjustment_delay := adjustment_delay rec;
     parameters_in_sync := parameters_in_sync rec;
     statistics := statistics rec; statistics_ind := statistics_ind rec;
     dot_averaging := dot_averaging rec;
     dash_averaging := dash_averaging rec |}.

Definition set_dot_len_ideal (v : Z) (rec : cw_rec_t) : cw_rec_t :=
  {| state := state rec; speed := speed rec; tolerance := tolerance rec;
     gap := gap rec;
     is_adaptive_receive_mode := is_adaptive_receive_mode rec;
     noise_spike_threshold := noise_spike_threshold rec;
     adaptive_speed_threshold := adaptive_speed_threshold rec;
     mark_start := mark_start rec; mark_end := mark_end rec;
     representation := representation rec;
     representation_ind := representation_ind rec; dot_len_ideal := v;
     dot_len_min := dot_len_min rec; dot_len_max := dot_len_max rec;
     dash_len_ideal := dash_len_ideal rec; dash_len_min := dash_len_min rec;
     dash_len_max := dash_len_max rec; eom_len_ideal := eom_len_ideal rec;
     eom_len_min := eom_len_min rec; eom_len_max := eom_len_max rec;
     eoc_len_ideal := eoc_len_ideal rec; eoc_len_min := eoc_len_min rec;
     eoc_len_max := eoc_len_max rec;
     additional_delay := additional_delay rec;
     adjustment_delay := adjustment_delay rec;
     parameters_in_sync := parameters_in_sync rec;
     statistics := statistics rec; statistics_ind := statistics_ind rec;
     dot_averaging := dot_averaging rec;
     dash_averaging := dash_averaging rec |}.

Definition set_dot_len_min (v : Z) (rec : cw_rec_t) : cw_rec_t :=
  {| state := state rec; speed := speed rec; tolerance := tolerance rec;
     gap := gap rec;
     is_adaptive_receive_mode := is_adaptive_receive_mode rec;
     noise_spike_threshold := noise_spike_threshold rec;
     adaptive_speed_threshold := adaptive_speed_threshold rec;
     mark_start := mark_start rec; mark_end := mark_end rec;
     representation := representation rec;
     representation_ind := representation_ind rec;
     dot_len_ideal := dot_len_ideal rec; dot_len_min := v;
     dot_len_max := dot_len_max rec; dash_len_ideal := dash_len_ideal rec;
     dash_len_min := dash_len_min rec; dash_len_max := dash_len_max rec;
     eom_len_ideal := eom_len_ideal rec; eom_len_min := eom_len_min rec;
     eom_len_max := eom_len_max rec; eoc_len_ideal := eoc_len_ideal rec;
     eoc_len_min := eoc_len_min rec; eoc_len_max := eoc_len_max rec;
     additional_delay := additional_delay rec;
     adjustment_delay := adjustment_delay rec;
     parameters_in_sync := parameters_in_sync rec;
     statistics := statistics rec; statistics_ind := statistics_ind rec;
     dot_averaging := dot_averaging rec;
     dash_averaging := dash_averaging rec |}.

Definition set_dot_len_max (v : Z) (rec : cw_rec_t) : cw_rec_t :=
  {| state := state rec; speed := speed rec; tolerance := tolerance rec;
     gap := gap rec;
     is_adaptive_receive_mode := is_adaptive_receive_mode rec;
     noise_spike_threshold := noise_spike_threshold rec;
     adaptive_speed_threshold := adaptive_speed_threshold rec;
     mark_start := mark_start rec; mark_end := mark_end rec;
     representation := representation rec;
     representation_ind := representation_ind rec;
     dot_len_ideal := dot_len_ideal rec; dot_len_min := dot_len_min rec;
     dot_len_max := v; dash_len_ideal := dash_len_ideal rec;
     dash_len_min := dash_len_min rec; dash_len_max := dash_len_max rec;
     eom_len_ideal := eom_len_ideal rec; eom_len_min := eom_len_min rec;
     eom_len_max := eom_len_max rec; eoc_len_ideal := eoc_len_ideal rec;
     eoc_len_min := eoc_len_min rec; eoc_len_max := eoc_len_max rec;
     additional_delay := additional_delay rec;
     adjustment_delay := adjustment_delay rec;
     parameters_in_sync := parameters_in_sync rec;
     statistics := statistics rec; statistics_ind := statistics_ind rec;
     dot_averaging := dot_averaging rec;
     dash_averaging := dash_averaging rec |}.

Definition set_dash_len_ideal (v : Z) (rec : cw_rec_t) : cw_rec_t :=
  {| state := state rec; speed := speed rec; tolerance := tolerance rec;
     gap := gap rec;
     is_adaptive_receive_mode := is_adaptive_receive_mode rec;
     noise_spike_threshold := noise_spike_threshold rec;
     adaptive_speed_threshold := adaptive_speed_threshold rec;
     mark_start := mark_start rec; mark_end := mark_end rec;
     representation := representation rec;
     representation_ind := representation_ind rec;
     dot_len_ideal := dot_len_ideal rec; dot_len_min := dot_len_min rec;
     dot_len_max := dot_len_max rec; dash_len_ideal := v;
     dash_len_min := dash_len_min rec; dash_len_max := dash_len_max rec;
     eom_len_ideal := eom_len_ideal rec; eom_len_min := eom_len_min rec;
     eom_len_max := eom_len_max rec; eoc_len_ideal := eoc_len_ideal rec;
     eoc_len_min := eoc_len_min rec; eoc_len_max := eoc_len_max rec;
     additional_delay := additional_delay rec;
     adjustment_delay := adjustment_delay rec;
     parameters_in_sync := parameters_in_sync rec;
     statistics := statistics rec; statistics_ind := statistics_ind rec;
     dot_averaging := dot_averaging rec;
     dash_averaging := dash_averaging rec |}.

Definition set_dash_len_min (v : Z) (rec : cw_rec_t) : cw_rec_t :=
  {| state := state rec; speed := speed rec; tolerance := tolerance rec;
     gap := gap rec;
     is_adaptive_receive_mode := is_adaptive_receive_mode rec;
     noise_spike_threshold := noise_spike_threshold rec;
     adaptive_speed_threshold := adaptive_speed_threshold rec;
     mark_start := mark_start rec; mark_end := mark_end rec;
     representation := representation rec;
     representation_ind := representation_ind rec;
     dot_len_ideal := dot_len_ideal rec; dot_len_min := dot_len_min rec;
     dot_len_max := dot_len_max rec; dash_len_ideal := dash_len_ideal rec;
     dash_len_min := v; dash_len_max := dash_len_max rec;
     eom_len_ideal := eom_len_ideal rec; eom_len_min := eom_len_min rec;
     eom_len_max := eom_len_max rec; eoc_len_ideal := eoc_len_ideal rec;
     eoc_len_min := eoc_len_min rec; eoc_len_max := eoc_len_max rec;
     additional_delay := additional_delay rec;
     adjustment_delay := adjustment_delay rec;
     parameters_in_sync := parameters_in_sync rec;
     statistics := statistics rec; statistics_ind := statistics_ind rec;
     dot_averaging := dot_averaging rec;
     dash_averaging := dash_averaging rec |}.

Definition set_dash_len_max (v : Z) (rec : cw_rec_t) : cw_rec_t :=
  {| state := state rec; speed := speed rec; tolerance := tolerance rec;
     gap := gap rec;
     is_adaptive_receive_mode := is_adaptive_receive_mode rec;
     noise_spike_threshold := noise_spike_threshold rec;
     adaptive_speed_threshold := adaptive_speed_threshold rec;
     mark_start := mark_start rec; mark_end := mark_end rec;
     representation := representation rec;
     representation_ind := representation_ind rec;
     dot_len_ideal := dot_len_ideal rec; dot_len_min := dot_len_min rec;
     dot_len_max := dot_len_max rec; dash_len_ideal := dash_len_ideal rec;
     dash_len_min := dash_len_min rec; dash_len_max := v;
     eom_len_ideal := eom_len_ideal rec; eom_len_min := eom_len_min rec;
     eom_len_max := eom_len_max rec; eoc_len_ideal := eoc_len_ideal rec;
     eoc_len_min := eoc_len_min rec; eoc_len_max := eoc_len_max rec;
     additional_delay := additional_delay rec;
     adjustment_delay := adjustment_delay rec;
     parameters_in_sync := parameters_in_sync rec;
     statistics := statistics rec; statistics_ind := statistics_ind rec;
     dot_averaging := dot_averaging rec;
     dash_averaging := dash_averaging rec |}.

Definition set_eom_len_ideal (v : Z) (rec : cw_rec_t) : cw_rec_t :=
  {| state := state rec; speed := speed rec; tolerance := tolerance rec;
     gap := gap rec;
     is_adaptive_receive_mode := is_adaptive_receive_mode rec;
     noise_spike_threshold := noise_spike_threshold rec;
     adaptive_speed_threshold := adaptive_speed_threshold rec;
     mark_start := mark_start rec; mark_end := mark_end rec;
     representation := representation rec;
     representation_ind := representation_ind rec;
     dot_len_ideal := dot_len_ideal rec; dot_len_min := dot_len_min rec;
     dot_len_max := dot_len_max rec; dash_len_ideal := dash_len_ideal rec;
     dash_len_min := dash_len_min rec; dash_len_max := dash_len_max rec;
     eom_len_ideal := v; eom_len_min := eom_len_min rec;
     eom_len_max := eom_len_max rec; eoc_len_ideal := eoc_len_ideal rec;
     eoc_len_min := eoc_len_min rec; eoc_len_max := eoc_len_max rec;
     additional_delay := additional_delay rec;
     adjustment_delay := adjustment_delay rec;
     parameters_in_sync := parameters_in_sync rec;
     statistics := statistics rec; statistics_ind := statistics_ind rec;
     dot_averaging := dot_averaging rec;
     dash_averaging := dash_averaging rec |}.

Definition set_eom_len_min (v : Z) (rec : cw_rec_t) : cw_rec_t :=
  {| state := state rec; speed := speed rec; tolerance := tolerance rec;
     gap := gap rec;
     is_adaptive_receive_mode := is_adaptive_receive_mode rec;
     noise_spike_threshold := noise_spike_threshold rec;
     adaptive_speed_threshold := adaptive_speed_threshold rec;
     mark_start := mark_start rec; mark_end := mark_end rec;
     representation := representation rec;
     representation_ind := representation_ind rec;
     dot_len_ideal := dot_len_ideal rec; dot_len_min := dot_len_min rec;
     dot_len_max := dot_len_max rec; dash_len_ideal := dash_len_ideal rec;
     dash_len_min := dash_len_min rec; dash_len_max := dash_len_max rec;
     eom_len_ideal := eom_len_ideal rec; eom_len_min := v;
     eom_len_max := eom_len_max rec; eoc_len_ideal := eoc_len_ideal rec;
     eoc_len_min := eoc_len_min rec; eoc_len_max := eoc_len_max rec;
     additional_delay := additional_delay rec;
     adjustment_delay := adjustment_delay rec;
     parameters_in_sync := parameters_in_sync rec;
     statistics := statistics rec; statistics_ind := statistics_ind rec;
     dot_averaging := dot_averaging rec;
     dash_averaging := dash_averaging rec |}.

Definition set_eom_len_max (v : Z) (rec : cw_rec_t) : cw_rec_t :=
  {| state := state rec; speed := speed rec; tolerance := tolerance rec;
     gap := gap rec;
     is_adaptive_receive_mode := is_adaptive_receive_mode rec;
     noise_spike_threshold := noise_spike_threshold rec;
     adaptive_speed_threshold := adaptive_speed_threshold rec;
     mark_start := mark_start rec; mark_end := mark_end rec;
     representation := representation rec;
     representation_ind := representation_ind rec;
     dot_len_ideal := dot_len_ideal rec; dot_len_min := dot_len_min rec;
     dot_len_max := dot_len_max rec; dash_len_ideal := dash_len_ideal rec;
     dash_len_min := dash_len_min rec; dash_len_max := dash_len_max rec;
     eom_len_ideal := eom_len_ideal rec; eom_len_min := eom_len_min rec;
     eom_len_max := v; eoc_len_ideal := eoc_len_ideal rec;
     eoc_len_min := eoc_len_min rec; eoc_len_max := eoc_len_max rec;
     additional_delay := additional_delay rec;
     adjustment_delay := adjustment_delay rec;
     parameters_in_sync := parameters_in_sync rec;
     statistics := statistics rec; statistics_ind := statistics_ind rec;
     dot_averaging := dot_averaging rec;
     dash_averaging := dash_averaging rec |}.

Definition set_eoc_len_ideal (v : Z) (rec : cw_rec_t) : cw_rec_t :=
  {| state := state rec; speed := speed rec; tolerance := tolerance rec;
     gap := gap rec;
     is_adaptive_receive_mode := is_adaptive_receive_mode rec;
     noise_spike_threshold := noise_spike_threshold rec;
     adaptive_speed_threshold := adaptive_speed_threshold rec;
     mark_start := mark_start rec; mark_end := mark_end rec;
     representation := representation rec;
     representation_ind := representation_ind rec;
     dot_len_ideal := dot_len_ideal rec; dot_len_min := dot_len_min rec;
     dot_len_max := dot_len_max rec; dash_len_ideal := dash_len_ideal rec;
     dash_len_min := dash_len_min rec; dash_len_max := dash_len_max rec;
     eom_len_ideal := eom_len_ideal rec; eom_len_min := eom_len_min rec;
     eom_len_max := eom_len_max rec; eoc_len_ideal := v;
     eoc_len_min := eoc_len_min rec; eoc_len_max := eoc_len_max rec;
     additional_delay := additional_delay rec;
     adjustment_delay := adjustment_delay rec;
     parameters_in_sync := parameters_in_sync rec;
     statistics := statistics rec; statistics_ind := statistics_ind rec;
     dot_averaging := dot_averaging rec;
     dash_averaging := dash_averaging rec |}.

Definition set_eoc_len_min (v : Z) (rec : cw_rec_t) : cw_rec_t :=
  {| state := state rec; speed := speed rec; tolerance := tolerance rec;
     gap := gap rec;
     is_adaptive_receive_mode := is_adaptive_receive_mode rec;
     noise_spike_threshold := noise_spike_threshold rec;
     adaptive_speed_threshold := adaptive_speed_threshold rec;
     mark_start := mark_start rec; mark_end := mark_end rec;
     representation := representation rec;
     representation_ind := representation_ind rec;
     dot_len_ideal := dot_len_ideal rec; dot_len_min := dot_len_min rec;
     dot_len_max := dot_len_max rec; dash_len_ideal := dash_len_ideal rec;
     dash_len_min := dash_len_min rec; dash_len_max := dash_len_max rec;
     eom_len_ideal := eom_len_ideal rec; eom_len_min := eom_len_min rec;
     eom_len_max := eom_len_max rec; eoc_len_ideal := eoc_len_ideal rec;
     eoc_len_min := v; eoc_len_max := eoc_len_max rec;
     additional_delay := additional_delay rec;
     adjustment_delay := adjustment_delay rec;
     parameters_in_sync := parameters_in_sync rec;
     statistics := statistics rec; statistics_ind := statistics_ind rec;
     dot_averaging := dot_averaging rec;
     dash_averaging := dash_averaging rec |}.

Definition set_eoc_len_max (v : Z) (rec : cw_rec_t) : cw_rec_t :=
  {| state := state rec; speed := speed rec; tolerance := tolerance rec;
     gap := gap rec;
     is_adaptive_receive_mode := is_adaptive_receive_mode rec;
     noise_spike_threshold := noise_spike_threshold rec;
     adaptive_speed_threshold := adaptive_speed_threshold rec;
     mark_start := mark_start rec; mark_end := mark_end rec;
     representation := representation rec;
     representation_ind := representation_ind rec;
     dot_len_ideal := dot_len_ideal rec; dot_len_min := dot_len_min rec;
     dot_len_max := dot_len_max rec; dash_len_ideal := dash_len_ideal rec;
     dash_len_min := dash_len_min rec; dash_len_max := dash_len_max rec;
     eom_len_ideal := eom_len_ideal rec; eom_len_min := eom_len_min rec;
     eom_len_max := eom_len_max rec; eoc_len_ideal := eoc_len_ideal rec;
     eoc_len_min := eoc_len_min rec; eoc_len_max := v;
     additional_delay := additional_delay rec;
     adjustment_delay := adjustment_delay rec;
     parameters_in_sync := parameters_in_sync rec;
     statistics := statistics rec; statistics_ind := statistics_ind rec;
     dot_averaging := dot_averaging rec;
     dash_averaging := dash_averaging rec |}.

Definition set_additional_delay (v : Z) (rec : cw_rec_t) : cw_rec_t :=
  {| state := state rec; speed := speed rec; tolerance := tolerance rec;
     gap := gap rec;
     is_adaptive_receive_mode := is_adaptive_receive_mode rec;
     noise_spike_threshold := noise_spike_threshold rec;
     adaptive_speed_threshold := adaptive_speed_threshold rec;
     mark_start := mark_start rec; mark_end := mark_end rec;
     representation := representation rec;
     representation_ind := representation_ind rec;
     dot_len_ideal := dot_len_ideal rec; dot_len_min := dot_len_min rec;
     dot_len_max := dot_len_max rec; dash_len_ideal := dash_len_ideal rec;
     dash_len_min := dash_len_min rec; dash_len_max := dash_len_max rec;
     eom_len_ideal := eom_len_ideal rec; eom_len_min := eom_len_min rec;
     eom_len_max := eom_len_max rec; eoc_len_ideal := eoc_len_ideal rec;
     eoc_len_min := eoc_len_min rec; eoc_len_max := eoc_len_max rec;
     additional_delay := v; adjustment_delay := adjustment_delay rec;
     parameters_in_sync := parameters_in_sync rec;
     statistics := statistics rec; statistics_ind := statistics_ind rec;
     dot_averaging := dot_averaging rec;
     dash_averaging := dash_averaging rec |}.

Definition set_adjustment_delay (v : Z) (rec : cw_rec_t) : cw_rec_t :=
  {| state := state rec; speed := speed rec; tolerance := tolerance rec;
     gap := gap rec;
     is_adaptive_receive_mode := is_adaptive_receive_mode rec;
     noise_spike_threshold := noise_spike_threshold rec;
     adaptive_speed_threshold := adaptive_speed_threshold rec;
     mark_start := mark_start rec; mark_end := mark_end rec;
     representation := representation rec;
     representation_ind := representation_ind rec;
     dot_len_ideal := dot_len_ideal rec; dot_len_min := dot_len_min rec;
     dot_len_max := dot_len_max rec; dash_len_ideal := dash_len_ideal rec;
     dash_len_min := dash_len_min rec; dash_len_max := dash_len_max rec;
     eom_len_ideal := eom_len_ideal rec; eom_len_min := eom_len_min rec;
     eom_len_max := eom_len_max rec; eoc_len_ideal := eoc_len_ideal rec;
     eoc_len_min := eoc_len_min rec; eoc_len_max := eoc_len_max rec;
     additional_delay := additional_delay rec; adjustment_delay := v;
     parameters_in_sync := parameters_in_sync rec;
     statistics := statistics rec; statistics_ind := statistics_ind rec;
     dot_averaging := dot_averaging rec;
     dash_averaging := dash_averaging rec |}.

Definition set_parameters_in_sync (v : bool) (rec : cw_rec_t) : cw_rec_t :=
  {| state := state rec; speed := speed rec; tolerance := tolerance rec;
     gap := gap rec;
     is_adaptive_receive_mode := is_adaptive_receive_mode rec;
     noise_spike_threshold := noise_spike_threshold rec;
     adaptive_speed_threshold := adaptive_speed_threshold rec;
     mark_start := mark_start rec; mark_end := mark_end rec;
     representation := representation rec;
     representation_ind := representation_ind rec;
     dot_len_ideal := dot_len_ideal rec; dot_len_min := dot_len_min rec;
     dot_len_max := dot_len_max rec; dash_len_ideal := dash_len_ideal rec;
     dash_len_min := dash_len_min rec; dash_len_max := dash_len_max rec;
     eom_len_ideal := eom_len_ideal rec; eom_len_min := eom_len_min rec;
     eom_len_max := eom_len_max rec; eoc_len_ideal := eoc_len_ideal rec;
     eoc_len_min := eoc_len_min rec; eoc_len_max := eoc_len_max rec;
     additional_delay := additional_delay rec;
     adjustment_delay := adjustment_delay rec; parameters_in_sync := v;
     statistics := statistics rec; statistics_ind := statistics_ind rec;
     dot_averaging := dot_averaging rec;
     dash_averaging := dash_averaging rec |}.

Definition set_statistics (v : list cw_rec_statistics_t) (rec : cw_rec_t)
  : cw_rec_t :=
  {| state := state rec; speed := speed rec; tolerance := tolerance rec;
     gap := gap rec;
     is_adaptive_receive_mode := is_adaptive_receive_mode rec;
     noise_spike_threshold := noise_spike_threshold rec;
     adaptive_speed_threshold := adaptive_speed_threshold rec;
     mark_start := mark_start rec; mark_end := mark_end rec;
     representation := representation rec;
     representation_ind := representation_ind rec;
     dot_len_ideal := dot_len_ideal rec; dot_len_min := dot_len_min rec;
     dot_len_max := dot_len_max rec; dash_len_ideal := dash_len_ideal rec;
     dash_len_min := dash_len_min rec; dash_len_max := dash_len_max rec;
     eom_len_ideal := eom_len_ideal rec; eom_len_min := eom_len_min rec;
     eom_len_max := eom_len_max rec; eoc_len_ideal := eoc_len_ideal rec;
     eoc_len_min := eoc_len_min rec; eoc_len_max := eoc_len_max rec;
     additional_delay := additional_delay rec;
     adjustment_delay := adjustment_delay rec;
     parameters_in_sync := parameters_in_sync rec; statistics := v;
     statistics_ind := statistics_ind rec;
     dot_averaging := dot_averaging rec;
     dash_averaging := dash_averaging rec |}.

Definition set_statistics_ind (v : Z) (rec : cw_rec_t) : cw_rec_t :=
  {| state := state rec; speed := speed rec; tolerance := tolerance rec;
     gap := gap rec;
     is_adaptive_receive_mode := is_adaptive_receive_mode rec;
     noise_spike_threshold := noise_spike_threshold rec;
     adaptive_speed_threshold := adaptive_speed_threshold rec;
     mark_start := mark_start rec; mark_end := mark_end rec;
     representation := representation rec;
     representation_ind := representation_ind rec;
     dot_len_ideal := dot_len_ideal rec; dot_len_min := dot_len_min rec;
     dot_len_max := dot_len_max rec; dash_len_ideal := dash_len_ideal rec;
     dash_len_min := dash_len_min rec; dash_len_max := dash_len_max rec;
     eom_len_ideal := eom_len_ideal rec; eom_len_min := eom_len_min rec;
     eom_len_max := eom_len_max rec; eoc_len_ideal := eoc_len_ideal rec;
     eoc_len_min := eoc_len_min rec; eoc_len_max := eoc_len_max rec;
     additional_delay := additional_delay rec;
     adjustment_delay := adjustment_delay rec;
     parameters_in_sync := parameters_in_sync rec;
     statistics := statistics rec; statistics_ind := v;
     dot_averaging := dot_averaging rec;
     dash_averaging := dash_averaging rec |}.

Definition set_dot_averaging (v : cw_rec_averaging_t) (rec : cw_rec_t)
  : cw_rec_t :=
  {| state := state rec; speed := speed rec; tolerance := tolerance rec;
     gap := gap rec;
     is_adaptive_receive_mode := is_adaptive_receive_mode rec;
     noise_spike_threshold := noise_spike_threshold rec;
     adaptive_speed_threshold := adaptive_speed_threshold rec;
     mark_start := mark_start rec; mark_end := mark_end rec;
     representation := representation rec;
     representation_ind := representation_ind rec;
     dot_len_ideal := dot_len_ideal rec; dot_len_min := dot_len_min rec;
     dot_len_max := dot_len_max rec; dash_len_ideal := dash_len_ideal rec;
     dash_len_min := dash_len_min rec; dash_len_max := dash_len_max rec;
     eom_len_ideal := eom_len_ideal rec; eom_len_min := eom_len_min rec;
     eom_len_max := eom_len_max rec; eoc_len_ideal := eoc_len_ideal rec;
     eoc_len_min := eoc_len_min rec; eoc_len_max := eoc_len_max rec;
     additional_delay := additional_delay rec;
     adjustment_delay := adjustment_delay rec;
     parameters_in_sync := parameters_in_sync rec;
     statistics := statistics rec; statistics_ind := statistics_ind rec;
     dot_averaging := v; dash_averaging := dash_averaging rec |}.

Definition set_dash_averaging (v : cw_rec_averaging_t) (rec : cw_rec_t)
  : cw_rec_t :=
  {| state := state rec; speed := speed rec; tolerance := tolerance rec;
     gap := gap rec;
     is_adaptive_receive_mode := is_adaptive_receive_mode rec;
     noise_spike_threshold := noise_spike_threshold rec;
     adaptive_speed_threshold := adaptive_speed_threshold rec;
     mark_start := mark_start rec; mark_end := mark_end rec;
     representation := representation rec;
     representation_ind := representation_ind rec;
     dot_len_ideal := dot_len_ideal rec; dot_len_min := dot_len_min rec;
     dot_len_max := dot_len_max rec; dash_len_ideal := dash_len_ideal rec;
     dash_len_min := dash_len_min rec; dash_len_max := dash_len_max rec;
     eom_len_ideal := eom_len_ideal rec; eom_len_min := eom_len_min rec;
     eom_len_max := eom_len_max rec; eoc_len_ideal := eoc_len_ideal rec;
     eoc_len_min := eoc_len_min rec; eoc_len_max := eoc_len_max rec;
     additional_delay := additional_delay rec;
     adjustment_delay := adjustment_delay rec;
     parameters_in_sync := parameters_in_sync rec;
     statistics := statistics rec; statistics_ind := statistics_ind rec;
     dot_averaging := dot_averaging rec; dash_averaging := v |}.

(** ** The receiver *)

(** The global receiver of the library, as initialised in libcw_rec.c.
    Arrays with a partial initialiser are zero-filled by C. *)
Definition cw_receiver : cw_rec_t :=
  {| state := RS_IDLE;
     gap := CW_GAP_INITIAL;
     speed := CW_SPEED_INITIAL;
     tolerance := CW_TOLERANCE_INITIAL;
     is_adaptive_receive_mode := CW_REC_ADAPTIVE_MODE_INITIAL;
     noise_spike_threshold := CW_REC_NOISE_THRESHOLD_INITIAL;
     adaptive_speed_threshold := CW_REC_SPEED_THRESHOLD_INITIAL;
     mark_start := {| tv_sec := 0; tv_usec := 0 |};
     mark_end := {| tv_sec := 0; tv_usec := 0 |};
     representation :=
       replicate (Z.to_nat (CW_REC_REPRESENTATION_CAPACITY + 1)) zero;
     representation_ind := 0;
     dot_len_ideal := 0; dot_len_min := 0; dot_len_max := 0;
     dash_len_ideal := 0; dash_len_min := 0; dash_len_max := 0;
     eom_len_ideal := 0; eom_len_min := 0; eom_len_max := 0;
     eoc_len_ideal := 0; eoc_len_min := 0; eoc_len_max := 0;
     additional_delay := 0; adjustment_delay := 0;
     parameters_in_sync := false;
     statistics_ind := 0;
     statistics :=
       replicate (Z.to_nat CW_REC_STATISTICS_CAPACITY)
                 {| type := CW_REC_STAT_NONE; delta := 0 |};
     dot_averaging :=
       {| buffer := replicate (Z.to_nat CW_REC_AVERAGING_ARRAY_LENGTH) 0;
          cursor := 0; sum := 0; average := 0 |};
     dash_averaging :=
       {| buffer := replicate (Z.to_nat CW_REC_AVERAGING_ARRAY_LENGTH) 0;
          cursor := 0; sum := 0; average := 0 |} |}.

(** ** Parameter synchronisation *)

Definition cw_rec_sync_parameters_internal (rec : cw_rec_t)
  : option cw_rec_t :=
  (* Do nothing if we are already synchronized. *)
  if parameters_in_sync rec then Some rec
  else
    unit_len ← int_div CW_DOT_CALIBRATION (speed rec);
    rec ← (if is_adaptive_receive_mode rec
           then half ← int_div (adaptive_speed_threshold rec) 2;
                new_speed ← int_div CW_DOT_CALIBRATION half;
                Some (set_speed new_speed rec)
           else Some (set_adaptive_speed_threshold (int_mul 2 unit_len) rec));
    (* Calculate the basic receiver's dot and dash lengths. *)
    let rec := set_dot_len_ideal unit_len rec in
    let rec := set_dash_len_ideal (int_mul 3 unit_len) rec in
    let rec := set_eom_len_ideal unit_len rec in
    let rec := set_eoc_len_ideal (int_mul 3 unit_len) rec in
    let rec := set_additional_delay (int_mul (gap rec) unit_len) rec in
    adjustment ← int_div (int_mul 7 (additional_delay rec)) 3;
    let rec := set_adjustment_delay adjustment rec in
    rec ← (if is_adaptive_receive_mode rec
           then
             (* Adaptive receiving mode. *)
             let rec := set_dot_len_min 0 rec in
             let rec := set_dot_len_max (int_mul 2 (dot_len_ideal rec)) rec in
             let rec := set_dash_len_min (dot_len_max rec) rec in
             let rec := set_dash_len_max INT_MAX rec in
             let rec := set_eom_len_min (dot_len_min rec) rec in
             let rec := set_eom_len_max (dot_len_max rec) rec in
             let rec := set_eoc_len_min (eom_len_max rec) rec in
             let rec := set_eoc_len_max (int_mul 5 (dot_len_ideal rec)) rec in
             Some rec
           else
             (* Fixed speed receiving mode. *)
             tolerance ← int_div (int_mul (dot_len_ideal rec) (tolerance rec))
                                 100;
             let rec :=
               set_dot_len_min (int_sub (dot_len_ideal rec) tolerance) rec in
             let rec :=
               set_dot_len_max (int_add (dot_len_ideal rec) tolerance) rec in
             let rec :=
               set_dash_len_min (int_sub (dash_len_ideal rec) tolerance) rec in
             let rec :=
               set_dash_len_max (int_add (dash_len_ideal rec) tolerance) rec in
             let rec := set_eom_len_min (dot_len_min rec) rec in
             let rec := set_eom_len_max (dot_len_max rec) rec in
             let rec := set_eoc_len_min (dash_len_min rec) rec in
             let rec :=
               set_eoc_len_max
                 (int_add (int_add (dash_len_max rec) (additional_delay rec))
                          (adjustment_delay rec)) rec in
             Some rec);
    (* Receiver parameters are now in sync. *)
    Some (set_parameters_in_sync true rec).

(** Reset essential receive parameters to their initial values. *)
Definition cw_rec_reset_receive_parameters_internal (rec : cw_rec_t)
  : cw_rec_t :=
  let rec := set_speed CW_SPEED_INITIAL rec in
  let rec := set_tolerance CW_TOLERANCE_INITIAL rec in
  let rec := set_is_adaptive_receive_mode CW_REC_ADAPTIVE_MODE_INITIAL rec in
  let rec := set_noise_spike_threshold CW_REC_NOISE_THRESHOLD_INITIAL rec in
  set_parameters_in_sync false rec.

(** ** Setters and getters *)

Definition cw_set_receive_speed (rec : cw_rec_t) (new_value : Z)
  : option (cw_rec_t * cw_ret unit) :=
  if is_adaptive_receive_mode rec then Some (rec, CW_FAILURE EPERM)
  else if bool_decide (new_value < CW_SPEED_MIN)
          || bool_decide (new_value > CW_SPEED_MAX)
  then Some (rec, CW_FAILURE EINVAL)
  else
    rec ← (if bool_decide (new_value ≠ speed rec)
           then
             let rec := set_speed new_value rec in
             (* Changes of receive speed require resynchronization. *)
             let rec := set_parameters_in_sync false rec in
             cw_rec_sync_parameters_internal rec
           else Some rec);
    Some (rec, CW_SUCCESS tt).

Definition cw_get_receive_speed (rec : cw_rec_t) : Z := speed rec.

Definition cw_set_tolerance (rec : cw_rec_t) (new_value : Z)
  : option (cw_rec_t * cw_ret unit) :=
  if bool_decide (new_value < CW_TOLERANCE_MIN)
     || bool_decide (new_value > CW_TOLERANCE_MAX)
  then Some (rec, CW_FAILURE EINVAL)
  else
    rec ← (if bool_decide (new_value ≠ tolerance rec)
           then
             let rec := set_tolerance new_value rec in
             (* Changes of tolerance require resynchronization. *)
             let rec := set_parameters_in_sync false rec in
             cw_rec_sync_parameters_internal rec
           else Some rec);
    Some (rec, CW_SUCCESS tt).

Definition cw_get_tolerance (rec : cw_rec_t) : Z := tolerance rec.

Definition cw_set_noise_spike_threshold (rec : cw_rec_t) (new_value : Z)
  : cw_rec_t * cw_ret unit :=
  if bool_decide (new_value < 0) then (rec, CW_FAILURE EINVAL)
  else (set_noise_spike_threshold new_value rec, CW_SUCCESS tt).

Definition cw_get_noise_spike_threshold (rec : cw_rec_t) : Z :=
  noise_spike_threshold rec.

Definition cw_rec_set_gap_internal (rec : cw_rec_t) (new_value : Z)
  : option (cw_rec_t * cw_ret unit) :=
  if bool_decide (new_value < CW_GAP_MIN)
     || bool_decide (new_value > CW_GAP_MAX)
  then Some (rec, CW_FAILURE EINVAL)
  else
    rec ← (if bool_decide (new_value ≠ gap rec)
           then
             let rec := set_gap new_value rec in
             (* Changes of gap require resynchronization. *)
             let rec := set_parameters_in_sync false rec in
             cw_rec_sync_parameters_internal rec
           else Some rec);
    Some (rec, CW_SUCCESS tt).

(** ** Averaged lengths of dots and dashes *)

(** The loop [for (i = 0; i < n; i++) buffer[i] = initial], started at
    index [i]. *)
Fixpoint fill_buffer (n : nat) (i : Z) (initial : Z) (b : list Z)
  : option (list Z) :=
  match n with
  | O => Some b
  | S n' => b' ← array_set b i initial; fill_buffer n' (i + 1) initial b'
  end.

Definition cw_rec_reset_average_internal
    (avg : cw_rec_averaging_t) (initial : Z) : option cw_rec_averaging_t :=
  b ← fill_buffer (Z.to_nat CW_REC_AVERAGING_ARRAY_LENGTH) 0 initial
                  (buffer avg);
  Some {| buffer := b;
          sum := int_mul initial CW_REC_AVERAGING_ARRAY_LENGTH;
          cursor := 0;
          average := average avg |}.

Definition cw_rec_update_average_internal
    (avg : cw_rec_averaging_t) (mark_len : Z) : option cw_rec_averaging_t :=
  (* Oldest mark length goes out, new goes in. *)
  oldest ← array_get (buffer avg) (cursor avg);
  let sum1 := int_sub (sum avg) oldest in
  let sum2 := int_add sum1 mark_len in
  average' ← int_div sum2 CW_REC_AVERAGING_ARRAY_LENGTH;
  buffer' ← array_set (buffer avg) (cursor avg) mark_len;
  cursor' ← int_rem (int_add (cursor avg) 1) CW_REC_AVERAGING_ARRAY_LENGTH;
  Some {| buffer := buffer'; cursor := cursor'; sum := sum2;
          average := average' |}.

(** ** Statistics *)

Definition cw_rec_update_stats_internal
    (rec : cw_rec_t) (type : stat_type_t) (len : Z) : option cw_rec_t :=
  (* Synchronize parameters if required. *)
  rec ← cw_rec_sync_parameters_internal rec;
  let delta :=
    int_sub len
      (match type with
       | CW_REC_STAT_DOT => dot_len_ideal rec
       | CW_REC_STAT_DASH => dash_len_ideal rec
       | CW_REC_STAT_IMARK_SPACE => eom_len_ideal rec
       | CW_REC_STAT_ICHAR_SPACE => eoc_len_ideal rec
       | CW_REC_STAT_NONE => len
       end) in
  (* Add this statistic to the buffer. *)
  stats ← array_set (statistics rec) (statistics_ind rec)
                    {| type := type; delta := delta |};
  let rec := set_statistics stats rec in
  ind ← int_rem (int_add (statistics_ind rec) 1) CW_REC_STATISTICS_CAPACITY;
  Some (set_statistics_ind ind rec).

(** Clear the receive statistics buffer. *)
Definition cw_reset_receive_statistics (rec : cw_rec_t) : cw_rec_t :=
  let rec :=
    set_statistics
      (replicate (length (statistics rec))
                 {| type := CW_REC_STAT_NONE; delta := 0 |}) rec in
  set_statistics_ind 0 rec.

(** ** Adaptive mode *)

Definition cw_rec_set_adaptive_internal (rec : cw_rec_t) (adaptive : bool)
  : option cw_rec_t :=
  (* Look for change of adaptive receive state. *)
  if negb (eqb (is_adaptive_receive_mode rec) adaptive) then
    let rec := set_is_adaptive_receive_mode adaptive rec in
    (* Changing the flag forces a change in low-level parameters. *)
    let rec := set_parameters_in_sync false rec in
    rec ← cw_rec_sync_parameters_internal rec;
    if is_adaptive_receive_mode rec then
      dot_avg ← cw_rec_reset_average_internal (dot_averaging rec)
                                              (dot_len_ideal rec);
      let rec := set_dot_averaging dot_avg rec in
      dash_avg ← cw_rec_reset_average_internal (dash_averaging rec)
                                               (dash_len_ideal rec);
      Some (set_dash_averaging dash_avg rec)
    else Some rec
  else Some rec.

Definition cw_enable_adaptive_receive (rec : cw_rec_t) : option cw_rec_t :=
  cw_rec_set_adaptive_internal rec true.

Definition cw_disable_adaptive_receive (rec : cw_rec_t) : option cw_rec_t :=
  cw_rec_set_adaptive_internal rec false.

Definition cw_get_adaptive_receive_state (rec : cw_rec_t) : bool :=
  is_adaptive_receive_mode rec.

(** ** Identification of a mark *)

Definition cw_rec_identify_mark_internal (rec : cw_rec_t) (mark_len : Z)
  : option (cw_rec_t * cw_ret ascii) :=
  (* Synchronize parameters if required *)
  rec ← cw_rec_sync_parameters_internal rec;
  if bool_decide (mark_len >= dot_len_min rec)
     && bool_decide (mark_len ≤ dot_len_max rec)
  then Some (rec, CW_SUCCESS CW_DOT_REPRESENTATION)
  else if bool_decide (mark_len >= dash_len_min rec)
          && bool_decide (mark_len ≤ dash_len_max rec)
  then Some (rec, CW_SUCCESS CW_DASH_REPRESENTATION)
  else
    (* This mark is not a dot or a dash, so we have an error case. *)
    let rec :=
      set_state (if bool_decide (mark_len > eoc_len_max rec)
                 then RS_EOW_GAP_ERR else RS_EOC_GAP_ERR) rec in
    Some (rec, CW_FAILURE ENOENT).

(** Update of the averaging structures with the most recent mark. *)
Definition cw_rec_update_averages_internal
    (rec : cw_rec_t) (mark_len : Z) (mark : ascii) : option cw_rec_t :=
  (* We are not going to tolerate being called in fixed speed mode. *)
  if negb (is_adaptive_receive_mode rec) then Some rec
  else
    let recalculate (rec : cw_rec_t) : option cw_rec_t :=
      (* Recalculate the adaptive threshold. *)
      let avg_dot_len := average (dot_averaging rec) in
      let avg_dash_len := average (dash_averaging rec) in
      half ← int_div (int_sub avg_dash_len avg_dot_len) 2;
      let rec := set_adaptive_speed_threshold (int_add half avg_dot_len) rec in
      let rec := set_parameters_in_sync false rec in
      rec ← cw_rec_sync_parameters_internal rec;
      if bool_decide (speed rec < CW_SPEED_MIN)
         || bool_decide (speed rec > CW_SPEED_MAX)
      then
        (* Clamp the speed. *)
        let rec :=
          set_speed (if bool_decide (speed rec < CW_SPEED_MIN)
                     then CW_SPEED_MIN else CW_SPEED_MAX) rec in
        let rec := set_is_adaptive_receive_mode false rec in
        let rec := set_parameters_in_sync false rec in
        rec ← cw_rec_sync_parameters_internal rec;
        let rec := set_is_adaptive_receive_mode true rec in
        let rec := set_parameters_in_sync false rec in
        cw_rec_sync_parameters_internal rec
      else Some rec in
    (* Update moving averages for dots or dashes. *)
    if Ascii.eqb mark CW_DOT_REPRESENTATION then
      avg ← cw_rec_update_average_internal (dot_averaging rec) mark_len;
      recalculate (set_dot_averaging avg rec)
    else if Ascii.eqb mark CW_DASH_REPRESENTATION then
      avg ← cw_rec_update_average_internal (dash_averaging rec) mark_len;
      recalculate (set_dash_averaging avg rec)
    else Some rec.

(** ** Clearing *)

Definition cw_clear_receive_buffer (rec : cw_rec_t) : cw_rec_t :=
  let rec := set_representation_ind 0 rec in
  set_state RS_IDLE rec.

Definition cw_get_receive_buffer_capacity : Z :=
  CW_REC_REPRESENTATION_CAPACITY.

Definition cw_get_receive_buffer_length (rec : cw_rec_t) : Z :=
  representation_ind rec.

Definition cw_reset_receive (rec : cw_rec_t) : cw_rec_t :=
  let rec := set_representation_ind 0 rec in
  let rec := set_state RS_IDLE rec in
  cw_reset_receive_statistics rec.

(** ** Receiving marks and polling *)

(** What [cw_receive_representation] hands back through its output
    parameters. *)
Record poll_result : Set := {
  out_representation : list ascii;
  out_is_end_of_word : bool;
  out_is_error : bool
}.

(** [strncat] onto an emptied destination: at most [n] characters of [src],
    stopping at its first NUL.  The count is a [size_t]. *)
Fixpoint c_strncat (src : list ascii) (n : Z) : list ascii :=
  match src with
  | [] => []
  | c :: src' =>
      if bool_decide (n = 0) || Ascii.eqb c zero then []
      else c :: c_strncat src' (n - 1)
  end.

Definition size_t_of_int (n : Z) : Z := n mod 18446744073709551616.

(** The tail shared by the two functions below: copy the representation
    out and terminate the receiver's buffer. *)
Definition copy_representation_out (rec : cw_rec_t)
  : option (cw_rec_t * list ascii) :=
  let out :=
    c_strncat (representation rec) (size_t_of_int (representation_ind rec)) in
  buf ← array_set (representation rec) (representation_ind rec) zero;
  Some (set_representation buf rec, out).

Definition cw_rec_poll_representation_eow_internal (rec : cw_rec_t)
  : option (cw_rec_t * poll_result) :=
  rec ← (if bool_decide (state rec = RS_EOC_GAP)
            || bool_decide (state rec = RS_SPACE)
         then Some (set_state RS_EOW_GAP rec)
         else if bool_decide (state rec = RS_EOC_GAP_ERR)
         then Some (set_state RS_EOW_GAP_ERR rec)
         else if bool_decide (state rec = RS_EOW_GAP_ERR)
                 || bool_decide (state rec = RS_EOW_GAP)
         then Some rec
         else None);
  (* Return the representation from receiver's buffer. *)
  let is_error := bool_decide (state rec = RS_EOW_GAP_ERR) in
  '(rec, out) ← copy_representation_out rec;
  Some (rec, {| out_representation := out;
                out_is_end_of_word := true;
                out_is_error := is_error |}).

Section Receiving.

(** The two helpers of libcw_utils.c, which is not part of the sources at
    hand.  [timestamp_validate] stands for
    [cw_timestamp_validate_internal (out, in)]: from the timestamp passed
    in, or from the clock when it is NULL, it gives the timestamp stored
    in [out], or fails with an errno and leaves [out] alone.
    [timestamp_compare] stands for
    [cw_timestamp_compare_internal (earlier, later)], in microseconds. *)
Variable timestamp_validate : option timeval → cw_ret timeval.
Variable timestamp_compare : timeval → timeval → Z.

Definition cw_rec_mark_begin_internal
    (rec : cw_rec_t) (timestamp : option timeval)
  : option (cw_rec_t * cw_ret unit) :=
  if bool_decide (state rec ≠ RS_IDLE) && bool_decide (state rec ≠ RS_SPACE)
  then Some (rec, CW_FAILURE ERANGE)
  else
    match timestamp_validate timestamp with
    | CW_FAILURE e => Some (rec, CW_FAILURE e)
    | CW_SUCCESS t =>
        let rec := set_mark_start t rec in
        rec ← (if bool_decide (state rec = RS_SPACE)
               then
                 (* Measure inter-mark space (just for statistics). *)
                 let space_len :=
                   timestamp_compare (mark_end rec) (mark_start rec) in
                 cw_rec_update_stats_internal rec CW_REC_STAT_IMARK_SPACE
                                              space_len
               else Some rec);
        (* Set state to indicate we are inside a mark. *)
        Some (set_state RS_MARK rec, CW_SUCCESS tt)
    end.

Definition cw_start_receive_tone := cw_rec_mark_begin_internal.

Definition cw_rec_mark_end_internal
    (rec : cw_rec_t) (timestamp : option timeval)
  : option (cw_rec_t * cw_ret unit) :=
  (* The receive state is expected to be inside of a mark. *)
  if bool_decide (state rec ≠ RS_MARK) then Some (rec, CW_FAILURE ERANGE)
  else
    (* Take a safe copy of the current end timestamp. *)
    let saved_end_timestamp := mark_end rec in
    match timestamp_validate timestamp with
    | CW_FAILURE e => Some (rec, CW_FAILURE e)
    | CW_SUCCESS t =>
        let rec := set_mark_end t rec in
        let mark_len :=
          timestamp_compare (mark_start rec) (mark_end rec) in
        if bool_decide (noise_spike_threshold rec > 0)
           && bool_decide (mark_len ≤ noise_spike_threshold rec)
        then
          (* This pair of start()/stop() calls is just a noise. *)
          let rec :=
            set_state (if bool_decide (representation_ind rec = 0)
                       then RS_IDLE else RS_SPACE) rec in
          let rec := set_mark_end saved_end_timestamp rec in
          Some (rec, CW_FAILURE EAGAIN)
        else
          '(rec, status) ← cw_rec_identify_mark_internal rec mark_len;
          match status with
          | CW_FAILURE e => Some (rec, CW_FAILURE e)
          | CW_SUCCESS mark =>
              rec ← (if is_adaptive_receive_mode rec
                     then cw_rec_update_averages_internal rec mark_len mark
                     else Some rec);
              rec ← (if Ascii.eqb mark CW_DOT_REPRESENTATION
                     then cw_rec_update_stats_internal
                            rec CW_REC_STAT_DOT mark_len
                     else cw_rec_update_stats_internal
                            rec CW_REC_STAT_DASH mark_len);
              (* Add the mark to the receiver's representation buffer. *)
              buf ← array_set (representation rec) (representation_ind rec)
                              mark;
              let rec := set_representation buf rec in
              let rec :=
                set_representation_ind (int_add (representation_ind rec) 1)
                                       rec in
              if bool_decide (representation_ind rec
                              = CW_REC_REPRESENTATION_CAPACITY - 1)
              then Some (set_state RS_EOC_GAP_ERR rec, CW_FAILURE ENOMEM)
              else
                (* All is well. *)
                Some (set_state RS_SPACE rec, CW_SUCCESS tt)
          end
    end.

Definition cw_end_receive_tone := cw_rec_mark_end_internal.

Definition cw_rec_add_mark_internal
    (rec : cw_rec_t) (timestamp : option timeval) (mark : ascii)
  : option (cw_rec_t * cw_ret unit) :=
  if bool_decide (state rec ≠ RS_IDLE) && bool_decide (state rec ≠ RS_SPACE)
  then Some (rec, CW_FAILURE ERANGE)
  else
    match timestamp_validate timestamp with
    | CW_FAILURE e => Some (rec, CW_FAILURE e)
    | CW_SUCCESS t =>
        let rec := set_mark_end t rec in
        (* Add the mark to the receiver's representation buffer. *)
        buf ← array_set (representation rec) (representation_ind rec) mark;
        let rec := set_representation buf rec in
        let rec :=
          set_representation_ind (int_add (representation_ind rec) 1) rec in
        if bool_decide (representation_ind rec
                        = CW_REC_REPRESENTATION_CAPACITY - 1)
        then Some (set_state RS_EOC_GAP_ERR rec, CW_FAILURE ENOMEM)
        else Some (set_state RS_SPACE rec, CW_SUCCESS tt)
    end.

Definition cw_receive_buffer_dot
    (rec : cw_rec_t) (timestamp : option timeval) :=
  cw_rec_add_mark_internal rec timestamp CW_DOT_REPRESENTATION.

Definition cw_receive_buffer_dash
    (rec : cw_rec_t) (timestamp : option timeval) :=
  cw_rec_add_mark_internal rec timestamp CW_DASH_REPRESENTATION.

Definition cw_rec_poll_representation_eoc_internal
    (rec : cw_rec_t) (space_len : Z) : option (cw_rec_t * poll_result) :=
  rec ← (if bool_decide (state rec = RS_SPACE)
         then
           rec ← cw_rec_update_stats_internal rec CW_REC_STAT_ICHAR_SPACE
                                              space_len;
           (* Transition of state of receiver. *)
           Some (set_state RS_EOC_GAP rec)
         else if bool_decide (state rec = RS_EOC_GAP)
                 || bool_decide (state rec = RS_EOC_GAP_ERR)
         then Some rec
         else None);
  (* Return the representation from receiver's buffer. *)
  let is_error := bool_decide (state rec = RS_EOC_GAP_ERR) in
  '(rec, out) ← copy_representation_out rec;
  Some (rec, {| out_representation := out;
                out_is_end_of_word := false;
                out_is_error := is_error |}).

Definition cw_rec_poll_representation_internal
    (rec : cw_rec_t) (timestamp : option timeval)
  : option (cw_rec_t * cw_ret poll_result) :=
  if bool_decide (state rec = RS_EOW_GAP)
     || bool_decide (state rec = RS_EOW_GAP_ERR)
  then
    '(rec, out) ← cw_rec_poll_representation_eow_internal rec;
    Some (rec, CW_SUCCESS out)
  else if bool_decide (state rec = RS_IDLE)
          || bool_decide (state rec = RS_MARK)
  then
    (* Not a good time/state to call this get() function. *)
    Some (rec, CW_FAILURE ERANGE)
  else
    match timestamp_validate timestamp with
    | CW_FAILURE e => Some (rec, CW_FAILURE e)
    | CW_SUCCESS now_timestamp =>
        let space_len := timestamp_compare (mark_end rec) now_timestamp in
        if bool_decide (space_len = INT_MAX)
        then Some (rec, CW_FAILURE EAGAIN)
        else
          (* Synchronize parameters if required *)
          rec ← cw_rec_sync_parameters_internal rec;
          if bool_decide (space_len >= eoc_len_min rec)
             && bool_decide (space_len ≤ eoc_len_max rec)
          then
            '(rec, out) ←
              cw_rec_poll_representation_eoc_internal rec space_len;
            Some (rec, CW_SUCCESS out)
          else if bool_decide (space_len > eoc_len_max rec)
          then
            '(rec, out) ← cw_rec_poll_representation_eow_internal rec;
            Some (rec, CW_SUCCESS out)
          else
            (* space_len < rec->eoc_len_min *)
            Some (rec, CW_FAILURE EAGAIN)
    end.

Definition cw_receive_representation := cw_rec_poll_representation_internal.

End Receiving.

(** ** A reference implementation of the timestamp helpers *)

Definition CW_USECS_PER_SEC : Z := 1000000.

(** Modelled from the spec: [cw_timestamp_validate_internal] of
    libcw_utils.c is not part of the sources at hand.  "A null timestamp
    means use now"; the documentation of [cw_start_receive_tone] gives
    EINVAL for a timestamp that is not valid.  [clock] is the time of day
    that the function would read. *)
Definition cw_timestamp_validate_internal
    (clock : timeval) (in_timestamp : option timeval) : cw_ret timeval :=
  match in_timestamp with
  | Some t =>
      if bool_decide (0 ≤ tv_sec t)
         && bool_decide (0 ≤ tv_usec t < CW_USECS_PER_SEC)
      then CW_SUCCESS t else CW_FAILURE EINVAL
  | None => CW_SUCCESS clock
  end.

(** Modelled from the spec: [cw_timestamp_compare_internal] of
    libcw_utils.c is not part of the sources at hand.  "S = now − mark_end"
    in microseconds; a difference that an [int] cannot hold, or a negative
    one, comes back as [INT_MAX], the value that
    [cw_rec_poll_representation_internal] tests for. *)
Definition cw_timestamp_compare_internal (earlier later : timeval) : Z :=
  let delta_usec :=
    (tv_sec later - tv_sec earlier) * CW_USECS_PER_SEC
    + tv_usec later - tv_usec earlier in
  if bool_decide (0 ≤ delta_usec ≤ INT_MAX) then delta_usec else INT_MAX.

(** A timestamp given in microseconds. *)
Definition usecs (n : Z) : timeval :=
  {| tv_sec := n ÷ CW_USECS_PER_SEC; tv_usec := Z.rem n CW_USECS_PER_SEC |}.

(** ** Predicates used in the statements *)

(** The fields that [cw_rec_sync_parameters_internal] never writes. *)
Definition sync_frame (r r' : cw_rec_t) : Prop :=
  state r' = state r ∧ tolerance r' = tolerance r ∧ gap r' = gap r
  ∧ is_adaptive_receive_mode r' = is_adaptive_receive_mode r
  ∧ noise_spike_threshold r' = noise_spike_threshold r
  ∧ mark_start r' = mark_start r ∧ mark_end r' = mark_end r
  ∧ representation r' = representation r
  ∧ representation_ind r' = representation_ind r
  ∧ statistics r' = statistics r ∧ statistics_ind r' = statistics_ind r
  ∧ dot_averaging r' = dot_averaging r ∧ dash_averaging r' = dash_averaging r.

(** The receiver right after [cw_enable_adaptive_receive] on the initial
    receiver of the library. *)
Definition adaptive_receiver : cw_rec_t :=
  Eval vm_compute in
    default cw_receiver (cw_enable_adaptive_receive cw_receiver).

(** A driver in the manner of the timing tables of the unit tests
    ([struct cw_rec_test_data], field [d]): lengths of marks and of the
    spaces after them alternate; every mark is keyed with
    [cw_start_receive_tone] and [cw_end_receive_tone] at the times that the
    lengths give, starting at [now] microseconds.  The result lists what
    the calls of [cw_end_receive_tone] returned. *)
Fixpoint receive_timings (rec : cw_rec_t) (now : Z) (d : list Z)
  : option (cw_rec_t * list (cw_ret unit)) :=
  match d with
  | mark_len :: space_len :: d' =>
      '(rec, _) ←
        cw_start_receive_tone
          (cw_timestamp_validate_internal (usecs now))
          cw_timestamp_compare_internal rec (Some (usecs now));
      '(rec, status) ←
        cw_end_receive_tone
          (cw_timestamp_validate_internal (usecs now))
          cw_timestamp_compare_internal rec (Some (usecs (now + mark_len)));
      '(rec, statuses) ← receive_timings rec (now + mark_len + space_len) d';
      Some (rec, status :: statuses)
  | _ => Some (rec, [])
  end.






(** The fields that hold the marks received so far and the state of the
    state machine. *)
Definition buffer_frame (r r' : cw_rec_t) : Prop :=
  state r' = state r
  ∧ representation r' = representation r
  ∧ representation_ind r' = representation_ind r
  ∧ mark_start r' = mark_start r ∧ mark_end r' = mark_end r
  ∧ noise_spike_threshold r' = noise_spike_threshold r
  ∧ is_adaptive_receive_mode r' = is_adaptive_receive_mode r.

(** The state of the state machine agrees with the number of marks in the
    representation buffer. *)
Definition state_matches_buffer (rec : cw_rec_t) : Prop :=
  (state rec = RS_IDLE → representation_ind rec = 0)
  ∧ (state rec = RS_SPACE → representation_ind rec ≠ 0).

(** The marks held by the representation buffer. *)
Definition buffered_representation (rec : cw_rec_t) : list ascii :=
  take (Z.to_nat (representation_ind rec)) (representation rec).

(** A driver for [cw_rec_add_mark_internal]: the marks are added one after
    the other, each with its timestamp.  The result lists what the calls
    returned; like a client that does not look at them, the driver goes on
    after a failure. *)
Fixpoint add_marks
    (timestamp_validate : option timeval → cw_ret timeval)
    (rec : cw_rec_t) (marks : list (option timeval * ascii))
  : option (cw_rec_t * list (cw_ret unit)) :=
  match marks with
  | [] => Some (rec, [])
  | (timestamp, mark) :: marks' =>
      '(rec, status) ←
        cw_rec_add_mark_internal timestamp_validate rec timestamp mark;
      '(rec, statuses) ← add_marks timestamp_validate rec marks';
      Some (rec, status :: statuses)
  end.

(** The initial receiver after [cw_receive_buffer_dot] at time 0: in the
    inter-mark space, with one dot buffered. *)
Definition dot_receiver : cw_rec_t :=
  Eval vm_compute in
    match
      cw_receive_buffer_dot (cw_timestamp_validate_internal (usecs 0))
                            cw_receiver (Some (usecs 0))
    with
    | Some (rec, _) => rec
    | None => cw_receiver
    end.

(** The representation buffer is in order: it has its declared length, it
    holds at most [CW_REC_REPRESENTATION_CAPACITY - 1] marks, fewer while
    marks can still be added, and the state agrees with it. *)
Definition buffer_invariant (rec : cw_rec_t) : Prop :=
  Z.of_nat (length (representation rec)) = CW_REC_REPRESENTATION_CAPACITY + 1
  ∧ 0 ≤ representation_ind rec ≤ CW_REC_REPRESENTATION_CAPACITY - 1
  ∧ (state rec = RS_IDLE ∨ state rec = RS_MARK ∨ state rec = RS_SPACE →
     representation_ind rec < CW_REC_REPRESENTATION_CAPACITY - 1)
  ∧ state_matches_buffer rec.

(** One call of a function of the receiver's interface. *)
Inductive receiver_step
    (timestamp_validate : option timeval → cw_ret timeval)
    (timestamp_compare : timeval → timeval → Z)
    (rec : cw_rec_t) : cw_rec_t → Prop :=
  | step_set_receive_speed (v : Z) rec' status :
      cw_set_receive_speed rec v = Some (rec', status) →
      receiver_step timestamp_validate timestamp_compare rec rec'
  | step_set_tolerance (v : Z) rec' status :
      cw_set_tolerance rec v = Some (rec', status) →
      receiver_step timestamp_validate timestamp_compare rec rec'
  | step_set_gap (v : Z) rec' status :
      cw_rec_set_gap_internal rec v = Some (rec', status) →
      receiver_step timestamp_validate timestamp_compare rec rec'
  | step_set_noise_spike_threshold (v : Z) :
      receiver_step timestamp_validate timestamp_compare rec
                    (cw_set_noise_spike_threshold rec v).1
  | step_get_receive_parameters rec' :
      cw_rec_sync_parameters_internal rec = Some rec' →
      receiver_step timestamp_validate timestamp_compare rec rec'
  | step_reset_receive_parameters :
      receiver_step timestamp_validate timestamp_compare rec
                    (cw_rec_reset_receive_parameters_internal rec)
  | step_reset_receive_statistics :
      receiver_step timestamp_validate timestamp_compare rec
                    (cw_reset_receive_statistics rec)
  | step_set_adaptive (adaptive : bool) rec' :
      cw_rec_set_adaptive_internal rec adaptive = Some rec' →
      receiver_step timestamp_validate timestamp_compare rec rec'
  | step_start_receive_tone timestamp rec' status :
      cw_start_receive_tone timestamp_validate timestamp_compare
                            rec timestamp = Some (rec', status) →
      receiver_step timestamp_validate timestamp_compare rec rec'
  | step_end_receive_tone timestamp rec' status :
      cw_end_receive_tone timestamp_validate timestamp_compare
                          rec timestamp = Some (rec', status) →
      receiver_step timestamp_validate timestamp_compare rec rec'
  | step_receive_buffer_dot timestamp rec' status :
      cw_receive_buffer_dot timestamp_validate rec timestamp
      = Some (rec', status) →
      receiver_step timestamp_validate timestamp_compare rec rec'
  | step_receive_buffer_dash timestamp rec' status :
      cw_receive_buffer_dash timestamp_validate rec timestamp
      = Some (rec', status) →
      receiver_step timestamp_validate timestamp_compare rec rec'
  | step_receive_representation timestamp rec' status :
      cw_receive_representation timestamp_validate timestamp_compare
                                rec timestamp = Some (rec', status) →
      receiver_step timestamp_validate timestamp_compare rec rec'
  | step_clear_receive_buffer :
      receiver_step timestamp_validate timestamp_compare rec
                    (cw_clear_receive_buffer rec)
  | step_reset_receive :
      receiver_step timestamp_validate timestamp_compare rec
                    (cw_reset_receive rec).

(** The receivers that calls of the interface lead to from the initial
    receiver of the library. *)
Definition reachable
    (timestamp_validate : option timeval → cw_ret timeval)
    (timestamp_compare : timeval → timeval → Z) (rec : cw_rec_t) : Prop :=
  rtc (receiver_step timestamp_validate timestamp_compare) cw_receiver rec.


(** ** Timing parameters handed out to the client *)

(** What [cw_get_receive_parameters] stores through its output
    parameters, in their order. *)
Record receive_parameters : Set := {
  dot_usecs : Z;
  dash_usecs : Z;
  dot_min_usecs : Z;
  dot_max_usecs : Z;
  dash_min_usecs : Z;
  dash_max_usecs : Z;
  end_of_element_min_usecs : Z;
  end_of_element_max_usecs : Z;
  end_of_element_ideal_usecs : Z;
  end_of_character_min_usecs : Z;
  end_of_character_max_usecs : Z;
  end_of_character_ideal_usecs : Z;
  adaptive_threshold : Z
}.

Definition cw_get_receive_parameters (rec : cw_rec_t)
  : option (cw_rec_t * receive_parameters) :=
  rec ← cw_rec_sync_parameters_internal rec;
  Some (rec,
        {| dot_usecs := dot_len_ideal rec;
           dash_usecs := dash_len_ideal rec;
           dot_min_usecs := dot_len_min rec;
           dot_max_usecs := dot_len_max rec;
           dash_min_usecs := dash_len_min rec;
           dash_max_usecs := dash_len_max rec;
           (* End-of-mark. *)
           end_of_element_min_usecs := eom_len_min rec;
           end_of_element_max_usecs := eom_len_max rec;
           end_of_element_ideal_usecs := eom_len_ideal rec;
           (* End-of-character. *)
           end_of_character_min_usecs := eoc_len_min rec;
           end_of_character_max_usecs := eoc_len_max rec;
           end_of_character_ideal_usecs := eoc_len_ideal rec;
           adaptive_threshold := adaptive_speed_threshold rec |}).

(** ** Reading the statistics *)

#[global] Instance stat_type_eq_dec : EqDecision stat_type_t.
Proof. solve_decision. Defined.

(** A C [double] is a binary64 floating point number, the primitive
    [float] of Rocq.  The conversion [(double) n] of an [int] is exact. *)
Definition double_of_int (n : Z) : PrimFloat.float :=
  if bool_decide (n < 0)
  then PrimFloat.opp (PrimFloat.of_uint63 (Uint63.of_Z (- n)))
  else PrimFloat.of_uint63 (Uint63.of_Z n).

(** One step of the sum [sum_of_squares += (double) delta * (double) delta]. *)
Definition add_square (sum_of_squares : PrimFloat.float) (delta : Z)
  : PrimFloat.float :=
  PrimFloat.add sum_of_squares
                (PrimFloat.mul (double_of_int delta) (double_of_int delta)).

(** The loop [for (i = 0; i < CW_REC_STATISTICS_CAPACITY; i++)] of
    [cw_rec_get_stats_internal], started at index [i] with [n] rounds to
    go: it stops on the first unoccupied slot. *)
Fixpoint get_stats_loop
    (n : nat) (i : Z) (stats : list cw_rec_statistics_t)
    (type0 : stat_type_t) (sum_of_squares : PrimFloat.float) (count : Z)
  : option (PrimFloat.float * Z) :=
  match n with
  | O => Some (sum_of_squares, count)
  | S n' =>
      s ← array_get stats i;
      if bool_decide (type s = type0)
      then get_stats_loop n' (i + 1) stats type0
                          (add_square sum_of_squares (delta s))
                          (int_add count 1)
      else if bool_decide (type s = CW_REC_STAT_NONE)
      then Some (sum_of_squares, count)
      else get_stats_loop n' (i + 1) stats type0 sum_of_squares count
  end.

Definition cw_rec_get_stats_internal (rec : cw_rec_t) (type0 : stat_type_t)
  : option PrimFloat.float :=
  '(sum_of_squares, count) ←
    get_stats_loop (Z.to_nat CW_REC_STATISTICS_CAPACITY) 0 (statistics rec)
                   type0 PrimFloat.zero 0;
  (* Return the standard deviation, or zero if no matching mark. *)
  Some (if bool_decide (count > 0)
        then PrimFloat.sqrt (PrimFloat.div sum_of_squares
                                           (double_of_int count))
        else PrimFloat.zero).

(** What [cw_get_receive_statistics] stores through its output
    parameters. *)
Record receive_statistics : Set := {
  dot_sd : PrimFloat.float;
  dash_sd : PrimFloat.float;
  element_end_sd : PrimFloat.float;
  character_end_sd : PrimFloat.float
}.

Definition cw_get_receive_statistics (rec : cw_rec_t)
  : option receive_statistics :=
  dot ← cw_rec_get_stats_internal rec CW_REC_STAT_DOT;
  dash ← cw_rec_get_stats_internal rec CW_REC_STAT_DASH;
  element_end ← cw_rec_get_stats_internal rec CW_REC_STAT_IMARK_SPACE;
  character_end ← cw_rec_get_stats_internal rec CW_REC_STAT_ICHAR_SPACE;
  Some {| dot_sd := dot; dash_sd := dash; element_end_sd := element_end;
          character_end_sd := character_end |}.

(** ** Polling a character *)


Section ReceivingCharacters.

Variable timestamp_validate : option timeval → cw_ret timeval.
Variable timestamp_compare : timeval → timeval → Z.

(** The lookup [cw_representation_to_character_internal] of libcw_data.c,
    which is not part of the sources at hand: the character of a
    representation, or NUL when there is none. *)
Variable representation_to_character : list ascii → ascii.



End ReceivingCharacters.

(** ** Timing tables of the unit tests *)

Definition TEST_CW_REC_DATA_LEN_MAX : Z := 30.

Record cw_rec_test_data : Set := {
  c : ascii;       (* Character. *)
  r : list ascii;  (* Character's representation (dots and dashes). *)
  d : list Z;      (* Data - time information for marks and spaces. *)
  nd : Z           (* Length of data. *)
}.

(** The assignment [d[nd] = v; nd++] on the array [d] of
    [TEST_CW_REC_DATA_LEN_MAX] entries: the list holds the [nd] entries
    written so far, the rest of the array being what [malloc] left
    there. *)
Definition test_data_push (d : list Z) (v : Z) : option (list Z) :=
  if bool_decide (Z.of_nat (length d) < TEST_CW_REC_DATA_LEN_MAX)
  then Some (d ++ [v]) else None.

(** The loop over the marks of a representation in
    [test_cw_rec_data_new]: a mark and the inter-mark space after it go in
    pair. *)
Fixpoint test_data_times (unit_len : Z) (r : list ascii) (d : list Z)
  : option (list Z) :=
  match r with
  | [] => Some d
  | mark :: r' =>
      (* Length of mark. *)
      mark_len ←
        (if Ascii.eqb mark CW_DOT_REPRESENTATION then Some unit_len
         else if Ascii.eqb mark CW_DASH_REPRESENTATION
         then Some (int_mul unit_len 3)
         else None);
      d ← test_data_push d mark_len;
      (* Length of space (inter-mark space). *)
      d ← test_data_push d unit_len;
      test_data_times unit_len r' d
  end.

Section TestData.

(** Two functions of libcw_data.c, which is not part of the sources at
    hand: the characters that [cw_list_characters] lists, and
    [cw_character_to_representation], which gives NULL for a character
    that it does not know. *)
Variable cw_list_characters : list ascii.
Variable cw_character_to_representation : ascii → option (list ascii).

(** The table ends with a guard entry whose [r] is NULL: here, the end of
    the list. *)
Definition test_cw_rec_data_new : option (list cw_rec_test_data) :=
  (* I'm using the highest speed allowed. *)
  let speed := CW_SPEED_MAX in
  unit_len ← int_div CW_DOT_CALIBRATION speed;
  mapM (λ character,
          representation ← cw_character_to_representation character;
          (* Build table of times for given representation. *)
          d ← test_data_times unit_len representation [];
          (* Extended end-of-word space in place of regular space. *)
          d ← array_set d (Z.of_nat (length d) - 1)
                        (int_add (int_mul unit_len 5) unit_len);
          if bool_decide (Z.of_nat (length d)
                          = 2 * Z.of_nat (length representation))
          then Some {| c := character; r := representation; d := d;
                       nd := Z.of_nat (length d) |}
          else None)
       cw_list_characters.

End TestData.

(** ** Invariants of the receiver *)

(** The receive speed is one that [cw_set_receive_speed] accepts, and so
    is the speed that the adaptive threshold stands for. *)
Definition speed_invariant (rec : cw_rec_t) : Prop :=
  CW_SPEED_MIN ≤ speed rec ≤ CW_SPEED_MAX
  ∧ CW_SPEED_MIN
    ≤ CW_DOT_CALIBRATION ÷ (adaptive_speed_threshold rec ÷ 2)
    ≤ CW_SPEED_MAX.

(** A slot of the statistics buffer that holds a record. *)
Definition occupied (s : cw_rec_statistics_t) : Prop :=
  type s ≠ CW_REC_STAT_NONE.

(** The circular buffer of statistics is filled from its zeroth slot: the
    slots before the index hold records, and the slots from the index on
    are free until the buffer has wrapped around. *)
Definition statistics_invariant (rec : cw_rec_t) : Prop :=
  Z.of_nat (length (statistics rec)) = CW_REC_STATISTICS_CAPACITY
  ∧ 0 ≤ statistics_ind rec < CW_REC_STATISTICS_CAPACITY
  ∧ Forall occupied (take (Z.to_nat (statistics_ind rec)) (statistics rec))
  ∧ (Forall (λ s, type s = CW_REC_STAT_NONE)
            (drop (Z.to_nat (statistics_ind rec)) (statistics rec))
     ∨ Forall occupied (statistics rec)).

Definition averaging_in_bounds (avg : cw_rec_averaging_t) : Prop :=
  Z.of_nat (length (buffer avg)) = CW_REC_AVERAGING_ARRAY_LENGTH
  ∧ 0 ≤ cursor avg < CW_REC_AVERAGING_ARRAY_LENGTH.

(** The invariant of the parameters, statistics and averages. *)
Definition parameters_invariant (rec : cw_rec_t) : Prop :=
  speed_invariant rec
  ∧ statistics_invariant rec
  ∧ averaging_in_bounds (dot_averaging rec)
  ∧ averaging_in_bounds (dash_averaging rec).

Definition is_mark (mark : ascii) : Prop :=
  mark = CW_DOT_REPRESENTATION ∨ mark = CW_DASH_REPRESENTATION.

(** The representation buffer holds dots and dashes. *)
Definition marks_invariant (rec : cw_rec_t) : Prop :=
  Forall is_mark (buffered_representation rec).

Definition receiver_invariant (rec : cw_rec_t) : Prop :=
  buffer_invariant rec ∧ parameters_invariant rec ∧ marks_invariant rec.

(** The deltas of the records of one type in a statistics buffer, and the
    standard deviation that [cw_rec_get_stats_internal] is to compute from
    all of them. *)
Definition deltas_of (type0 : stat_type_t)
    (stats : list cw_rec_statistics_t) : list Z :=
  delta <$> filter (λ s, type s = type0) stats.

Definition standard_deviation (deltas : list Z) : PrimFloat.float :=
  match deltas with
  | [] => PrimFloat.zero
  | _ =>
      PrimFloat.sqrt
        (PrimFloat.div (foldl add_square PrimFloat.zero deltas)
                       (double_of_int (Z.of_nat (length deltas))))
  end.

(** The timing parameters that a synchronization derives from the unit
    length [u], the length of a dot. *)
Definition timings_of_unit (rec : cw_rec_t) (u : Z) : Prop :=
  dot_len_ideal rec = u ∧ dash_len_ideal rec = 3 * u
  ∧ eom_len_ideal rec = u ∧ eoc_len_ideal rec = 3 * u
  ∧ additional_delay rec = gap rec * u
  ∧ adjustment_delay rec = (7 * (gap rec * u)) ÷ 3
  ∧ eom_len_min rec = dot_len_min rec ∧ eom_len_max rec = dot_len_max rec
  ∧ if is_adaptive_receive_mode rec
    then dot_len_min rec = 0 ∧ dot_len_max rec = 2 * u
         ∧ dash_len_min rec = 2 * u ∧ dash_len_max rec = INT_MAX
         ∧ eoc_len_min rec = 2 * u ∧ eoc_len_max rec = 5 * u
    else let tol := (u * tolerance rec) ÷ 100 in
         u = CW_DOT_CALIBRATION ÷ speed rec
         ∧ dot_len_min rec = u - tol ∧ dot_len_max rec = u + tol
         ∧ dash_len_min rec = 3 * u - tol ∧ dash_len_max rec = 3 * u + tol
         ∧ eoc_len_min rec = 3 * u - tol
         ∧ eoc_len_max rec
           = 3 * u + tol + gap rec * u + (7 * (gap rec * u)) ÷ 3.

(** Tolerance and gap are within their limits, and timing parameters that
    are marked as synchronized are those of a unit length between the dot
    lengths of the highest and of the lowest speed. *)
Definition timing_invariant (rec : cw_rec_t) : Prop :=
  CW_TOLERANCE_MIN ≤ tolerance rec ≤ CW_TOLERANCE_MAX
  ∧ CW_GAP_MIN ≤ gap rec ≤ CW_GAP_MAX
  ∧ (parameters_in_sync rec = true →
     ∃ u,
       CW_DOT_CALIBRATION ÷ CW_SPEED_MAX ≤ u
       ≤ CW_DOT_CALIBRATION ÷ CW_SPEED_MIN
       ∧ timings_of_unit rec u).

(** The fields that the timing invariant speaks of. *)
Definition timing_frame (r r' : cw_rec_t) : Prop :=
  speed r' = speed r ∧ tolerance r' = tolerance r ∧ gap r' = gap r
  ∧ is_adaptive_receive_mode r' = is_adaptive_receive_mode r
  ∧ parameters_in_sync r' = parameters_in_sync r
  ∧ dot_len_ideal r' = dot_len_ideal r ∧ dot_len_min r' = dot_len_min r
  ∧ dot_len_max r' = dot_len_max r
  ∧ dash_len_ideal r' = dash_len_ideal r ∧ dash_len_min r' = dash_len_min r
  ∧ dash_len_max r' = dash_len_max r
  ∧ eom_len_ideal r' = eom_len_ideal r ∧ eom_len_min r' = eom_len_min r
  ∧ eom_len_max r' = eom_len_max r
  ∧ eoc_len_ideal r' = eoc_len_ideal r ∧ eoc_len_min r' = eoc_len_min r
  ∧ eoc_len_max r' = eoc_len_max r
  ∧ additional_delay r' = additional_delay r
  ∧ adjustment_delay r' = adjustment_delay r.

(** The initial receiver after 254 dots of 100 ms keyed 100 ms apart at the
    initial speed of 12 WPM, with the key down again at 50.8 s. *)
Definition keyed_receiver : cw_rec_t :=
  Eval vm_compute in
    default cw_receiver
      ('(rec, _) ← receive_timings cw_receiver 0
                     (concat (replicate 254 [100000; 100000]));
       '(rec, _) ← cw_start_receive_tone
                     (cw_timestamp_validate_internal (usecs 0))
                     cw_timestamp_compare_internal rec
                     (Some (usecs 50800000));
       Some rec).

(** * Properties *)

(** ** Machine integers *)

Lemma wrap_id (z : Z) : INT_MIN ≤ z ≤ INT_MAX → wrap z = z.
Proof.
  unfold wrap, INT_MIN, INT_MAX; intros Hz.
  rewrite Z.mod_small; lia.
Qed.

Lemma wrap_range (z : Z) : INT_MIN ≤ wrap z ≤ INT_MAX.
Proof.
  unfold wrap, INT_MIN, INT_MAX.
  pose proof (Z.mod_pos_bound (z - -2147483648) 4294967296); lia.
Qed.

Lemma int_div_defined (a b : Z) :
  b ≠ 0 → ¬ (a = INT_MIN ∧ b = -1) → int_div a b = Some (a ÷ b).
Proof.
  intros Hb Hab; unfold int_div.
  rewrite bool_decide_eq_false_2 by assumption.
  rewrite bool_decide_eq_false_2 by assumption.
  reflexivity.
Qed.

Lemma int_div_pos (a b : Z) : 0 < b → int_div a b = Some (a ÷ b).
Proof. intros Hb; apply int_div_defined; lia. Qed.

Lemma int_rem_pos (a b : Z) : 0 < b → int_rem a b = Some (Z.rem a b).
Proof.
  intros Hb; unfold int_rem.
  rewrite bool_decide_eq_false_2 by lia.
  rewrite bool_decide_eq_false_2 by lia.
  reflexivity.
Qed.

Lemma int_div_Some (a b q : Z) :
  int_div a b = Some q → b ≠ 0 ∧ q = a ÷ b.
Proof.
  unfold int_div; intros H.
  repeat case_bool_decide; simplify_eq; auto.
Qed.

(** The unit length of a speed: never more than the calibration constant. *)
Lemma unit_len_range (s : Z) :
  s ≠ 0 → - CW_DOT_CALIBRATION ≤ CW_DOT_CALIBRATION ÷ s ≤ CW_DOT_CALIBRATION.
Proof.
  unfold CW_DOT_CALIBRATION; intros Hs.
  destruct (Z.lt_trichotomy s 0) as [Hneg | [-> | Hpos]]; [| lia |].
  - replace s with (- (- s)) by lia.
    rewrite Z.quot_opp_r by lia.
    pose proof (Z.quot_le_upper_bound 1200000 (- s) 1200000); 
    pose proof (Z.quot_pos 1200000 (- s)); nia.
  - pose proof (Z.quot_le_upper_bound 1200000 s 1200000);
    pose proof (Z.quot_pos 1200000 s); nia.
Qed.

Lemma int_mul_id (a b : Z) :
  INT_MIN ≤ a * b ≤ INT_MAX → int_mul a b = a * b.
Proof. apply wrap_id. Qed.

Lemma int_add_id (a b : Z) :
  INT_MIN ≤ a + b ≤ INT_MAX → int_add a b = a + b.
Proof. apply wrap_id. Qed.

Lemma int_sub_id (a b : Z) :
  INT_MIN ≤ a - b ≤ INT_MAX → int_sub a b = a - b.
Proof. apply wrap_id. Qed.

#[local] Arguments int_add : simpl never.
#[local] Arguments int_sub : simpl never.
#[local] Arguments int_mul : simpl never.
#[local] Arguments wrap : simpl never.

(** ** Parameter synchronisation *)

Lemma sync_in_sync (rec : cw_rec_t) :
  parameters_in_sync rec = true →
  cw_rec_sync_parameters_internal rec = Some rec.
Proof.
  intros H; unfold cw_rec_sync_parameters_internal; rewrite H; reflexivity.
Qed.

Lemma sync_preserves (rec rec' : cw_rec_t) :
  cw_rec_sync_parameters_internal rec = Some rec' → sync_frame rec rec'.
Proof.
  unfold cw_rec_sync_parameters_internal, sync_frame.
  destruct (parameters_in_sync rec).
  { intros [= <-]; repeat split. }
  destruct (is_adaptive_receive_mode rec) eqn:Had; intros H.
  all: repeat progress (simplify_option_eq; rewrite ?Had in * ).
  all: repeat split; reflexivity.
Qed.

Lemma sync_result_in_sync (rec rec' : cw_rec_t) :
  cw_rec_sync_parameters_internal rec = Some rec' →
  parameters_in_sync rec' = true.
Proof.
  unfold cw_rec_sync_parameters_internal.
  destruct (parameters_in_sync rec) eqn:Hs.
  { intros [= <-]; exact Hs. }
  destruct (is_adaptive_receive_mode rec) eqn:Had; intros H.
  all: repeat progress (simplify_option_eq; rewrite ?Had in * ).
  all: reflexivity.
Qed.

(** What a synchronisation computes in fixed speed mode. *)
Lemma sync_fixed (rec : cw_rec_t) :
  parameters_in_sync rec = false →
  is_adaptive_receive_mode rec = false →
  speed rec ≠ 0 →
  ∃ rec',
    cw_rec_sync_parameters_internal rec = Some rec'
    ∧ parameters_in_sync rec' = true
    ∧ speed rec' = speed rec
    ∧ let unit_len := CW_DOT_CALIBRATION ÷ speed rec in
      let tol := int_mul unit_len (tolerance rec) ÷ 100 in
      adaptive_speed_threshold rec' = 2 * unit_len
      ∧ dot_len_ideal rec' = unit_len
      ∧ dash_len_ideal rec' = 3 * unit_len
      ∧ eom_len_ideal rec' = unit_len
      ∧ eoc_len_ideal rec' = 3 * unit_len
      ∧ dot_len_min rec' = int_sub unit_len tol
      ∧ dot_len_max rec' = int_add unit_len tol
      ∧ dash_len_min rec' = int_sub (3 * unit_len) tol
      ∧ dash_len_max rec' = int_add (3 * unit_len) tol
      ∧ eom_len_min rec' = dot_len_min rec'
      ∧ eom_len_max rec' = dot_len_max rec'
      ∧ eoc_len_min rec' = dash_len_min rec'.
Proof.
  intros Hsync Had Hspeed.
  pose proof (unit_len_range (speed rec) Hspeed) as Hu.
  unfold cw_rec_sync_parameters_internal.
  rewrite Hsync, Had.
  rewrite (int_div_defined CW_DOT_CALIBRATION (speed rec))
    by (unfold CW_DOT_CALIBRATION, INT_MIN; lia).
  cbn. rewrite Had. rewrite !int_div_pos by lia. cbn.
  eexists; split; [reflexivity |].
  cbn.
  generalize dependent (CW_DOT_CALIBRATION ÷ speed rec); intros u Hu.
  unfold CW_DOT_CALIBRATION in Hu.
  rewrite (int_mul_id 2 u), (int_mul_id 3 u)
    by (unfold INT_MIN, INT_MAX; lia).
  repeat split; reflexivity.
Qed.

(** What a synchronisation computes in adaptive mode. *)
Lemma sync_adaptive (rec : cw_rec_t) :
  parameters_in_sync rec = false →
  is_adaptive_receive_mode rec = true →
  speed rec ≠ 0 →
  adaptive_speed_threshold rec ÷ 2 ≠ 0 →
  ∃ rec',
    cw_rec_sync_parameters_internal rec = Some rec'
    ∧ parameters_in_sync rec' = true
    ∧ speed rec' = CW_DOT_CALIBRATION ÷ (adaptive_speed_threshold rec ÷ 2)
    ∧ adaptive_speed_threshold rec' = adaptive_speed_threshold rec
    ∧ let unit_len := CW_DOT_CALIBRATION ÷ speed rec in
      dot_len_ideal rec' = unit_len
      ∧ dash_len_ideal rec' = 3 * unit_len
      ∧ eom_len_ideal rec' = unit_len
      ∧ eoc_len_ideal rec' = 3 * unit_len
      ∧ dot_len_min rec' = 0
      ∧ dot_len_max rec' = 2 * unit_len
      ∧ dash_len_min rec' = 2 * unit_len
      ∧ dash_len_max rec' = INT_MAX
      ∧ eom_len_min rec' = 0
      ∧ eom_len_max rec' = 2 * unit_len
      ∧ eoc_len_min rec' = 2 * unit_len
      ∧ eoc_len_max rec' = 5 * unit_len.
Proof.
  intros Hsync Had Hspeed Hthr.
  pose proof (unit_len_range (speed rec) Hspeed) as Hu.
  unfold cw_rec_sync_parameters_internal.
  rewrite Hsync, Had.
  rewrite (int_div_defined CW_DOT_CALIBRATION (speed rec))
    by (unfold CW_DOT_CALIBRATION, INT_MIN; lia).
  cbn. rewrite (int_div_pos _ 2) by lia. cbn.
  rewrite (int_div_defined CW_DOT_CALIBRATION)
    by (unfold CW_DOT_CALIBRATION, INT_MIN; lia).
  cbn. rewrite (int_div_pos _ 3) by lia. cbn. rewrite Had.
  eexists; split; [reflexivity |].
  cbn.
  generalize dependent (CW_DOT_CALIBRATION ÷ speed rec); intros u Hu.
  unfold CW_DOT_CALIBRATION in Hu.
  rewrite (int_mul_id 2 u), (int_mul_id 3 u), (int_mul_id 5 u)
    by (unfold INT_MIN, INT_MAX; lia).
  repeat split; reflexivity.
Qed.

#[local] Ltac int_range := unfold INT_MIN, INT_MAX in *; lia.

(** Removes the wrap-around from operations whose result is in range. *)
#[local] Ltac int_exact :=
  repeat match goal with
    | |- context [int_add ?a ?b] => rewrite (int_add_id a b) by int_range
    | |- context [int_sub ?a ?b] => rewrite (int_sub_id a b) by int_range
    | |- context [int_mul ?a ?b] => rewrite (int_mul_id a b) by int_range
    end.

Lemma enable_adaptive_initial :
  cw_enable_adaptive_receive cw_receiver = Some adaptive_receiver.
Proof. vm_compute. reflexivity. Qed.

(** ** Identification of a mark *)

(** The three outcomes of an identification, on synchronized parameters. *)
Lemma identify_mark_cases (rec : cw_rec_t) (L : Z) :
  parameters_in_sync rec = true →
  (dot_len_min rec ≤ L ≤ dot_len_max rec →
   cw_rec_identify_mark_internal rec L
   = Some (rec, CW_SUCCESS CW_DOT_REPRESENTATION))
  ∧ (¬ (dot_len_min rec ≤ L ≤ dot_len_max rec) →
     dash_len_min rec ≤ L ≤ dash_len_max rec →
     cw_rec_identify_mark_internal rec L
     = Some (rec, CW_SUCCESS CW_DASH_REPRESENTATION))
  ∧ (¬ (dot_len_min rec ≤ L ≤ dot_len_max rec) →
     ¬ (dash_len_min rec ≤ L ≤ dash_len_max rec) →
     cw_rec_identify_mark_internal rec L
     = Some (set_state (if bool_decide (L > eoc_len_max rec)
                        then RS_EOW_GAP_ERR else RS_EOC_GAP_ERR) rec,
             CW_FAILURE ENOENT)).
Proof.
  intros Hsync; unfold cw_rec_identify_mark_internal.
  rewrite (sync_in_sync rec Hsync); cbn.
  repeat split; intros; repeat case_bool_decide; cbn; try reflexivity; lia.
Qed.

(** C1 (amended): on a receiver whose timing parameters are synchronized,
    [cw_rec_identify_mark_internal] returns success with DOT if the mark
    length lies in [dot_len_min, dot_len_max]; it returns success with DASH
    if the length lies outside that range and in [dash_len_min,
    dash_len_max]; otherwise it fails with errno ENOENT, produces no mark
    and moves the receiver to one of the two error states. *)
Theorem identify_mark_classification (rec : cw_rec_t) (L : Z) :
  parameters_in_sync rec = true →
  (dot_len_min rec ≤ L ≤ dot_len_max rec →
   cw_rec_identify_mark_internal rec L
   = Some (rec, CW_SUCCESS CW_DOT_REPRESENTATION))
  ∧ (¬ (dot_len_min rec ≤ L ≤ dot_len_max rec) →
     dash_len_min rec ≤ L ≤ dash_len_max rec →
     cw_rec_identify_mark_internal rec L
     = Some (rec, CW_SUCCESS CW_DASH_REPRESENTATION))
  ∧ (¬ (dot_len_min rec ≤ L ≤ dot_len_max rec) →
     ¬ (dash_len_min rec ≤ L ≤ dash_len_max rec) →
     cw_rec_identify_mark_internal rec L
     = Some (set_state (if bool_decide (L > eoc_len_max rec)
                        then RS_EOW_GAP_ERR else RS_EOC_GAP_ERR) rec,
             CW_FAILURE ENOENT)).
Proof. exact (identify_mark_cases rec L). Qed.

(** A mark of 100 ms on the freshly adaptive receiver is a dot. *)
Lemma identify_mark_classification_witness :
  cw_rec_identify_mark_internal adaptive_receiver 100000
  = Some (adaptive_receiver, CW_SUCCESS CW_DOT_REPRESENTATION).
Proof.
  apply (identify_mark_classification adaptive_receiver 100000).
  - reflexivity.
  - vm_compute. split; discriminate.
Defined.

(** C1 as stated fails where the two ranges meet: in adaptive mode
    [dash_len_min = dot_len_max], and a mark of exactly that length lies in
    the dash range and is identified as a dot. *)
Lemma identify_mark_overlap :
  parameters_in_sync adaptive_receiver = true
  ∧ dash_len_min adaptive_receiver ≤ 200000 ≤ dash_len_max adaptive_receiver
  ∧ cw_rec_identify_mark_internal adaptive_receiver 200000
    = Some (adaptive_receiver, CW_SUCCESS CW_DOT_REPRESENTATION)
  ∧ CW_DOT_REPRESENTATION ≠ CW_DASH_REPRESENTATION.
Proof.
  split; [reflexivity |].
  split; [vm_compute; split; discriminate |].
  split; [vm_compute; reflexivity | discriminate].
Qed.

(** ** Fixed speed timings *)

(** The ranges of a speed and a tolerance within the limits of the library. *)
Lemma sync_fixed_ranges (rec : cw_rec_t) (w t : Z) :
  is_adaptive_receive_mode rec = false →
  parameters_in_sync rec = false →
  speed rec = w → tolerance rec = t →
  CW_SPEED_MIN ≤ w ≤ CW_SPEED_MAX →
  CW_TOLERANCE_MIN ≤ t ≤ CW_TOLERANCE_MAX →
  ∃ rec',
    cw_rec_sync_parameters_internal rec = Some rec'
    ∧ dot_len_ideal rec' = 1200000 / w
    ∧ dash_len_ideal rec' = 3 * dot_len_ideal rec'
    ∧ dot_len_min rec' = dot_len_ideal rec' - dot_len_ideal rec' * t / 100
    ∧ dot_len_max rec' = dot_len_ideal rec' + dot_len_ideal rec' * t / 100
    ∧ dash_len_min rec' = dash_len_ideal rec' - dot_len_ideal rec' * t / 100
    ∧ dash_len_max rec' = dash_len_ideal rec' + dot_len_ideal rec' * t / 100.
Proof.
  unfold CW_SPEED_MIN, CW_SPEED_MAX, CW_TOLERANCE_MIN, CW_TOLERANCE_MAX.
  intros Had Hsync Hw Ht Hwr Htr.
  destruct (sync_fixed rec Hsync Had) as (rec' & Heq & _ & _ & H); [lia |].
  cbn zeta in H.
  destruct H as (_ & Hdi & Hda & _ & _ & Hdmin & Hdmax & Hamin & Hamax & _).
  exists rec'; split; [exact Heq |].
  rewrite Hw, Ht in *.
  unfold CW_DOT_CALIBRATION in *.
  assert (Hq : 1200000 ÷ w = 1200000 / w) by (apply Z.quot_div_nonneg; lia).
  rewrite Hq in *.
  assert (Hu : 20000 ≤ 1200000 / w ≤ 300000).
  { split; [apply Z.div_le_lower_bound | apply Z.div_le_upper_bound]; lia. }
  generalize dependent (1200000 / w);
    intros u Hdi Hda Hdmin Hdmax Hamin Hamax _ Hu.
  assert (Hut : 0 ≤ u * t ≤ 27000000) by nia.
  rewrite (int_mul_id u t) in * by (unfold INT_MIN, INT_MAX; lia).
  assert (Hq' : (u * t) ÷ 100 = u * t / 100) by (apply Z.quot_div_nonneg; lia).
  rewrite Hq' in *.
  assert (Htol : 0 ≤ u * t / 100 ≤ 270000).
  { split; [apply Z.div_le_lower_bound | apply Z.div_le_upper_bound]; lia. }
  rewrite Hdi, Hda, Hdmin, Hdmax, Hamin, Hamax.
  generalize dependent (u * t / 100); intros tol; intros.
  int_exact.
  repeat split; reflexivity.
Qed.

(** C4 (amended): in fixed speed mode, for a speed [w] in [4, 60] and a
    tolerance [t] in [0, 90], synchronization gives [dot_len_ideal =
    1200000 / w] and [dash_len_ideal = 3 * dot_len_ideal]; the dot range is
    [dot_len_ideal] plus and minus [dot_len_ideal * t / 100], and the dash
    range is [dash_len_ideal] plus and minus that same amount, [t] percent
    of the ideal dot. *)
Theorem sync_fixed_mode_ranges (rec : cw_rec_t) (w t : Z) :
  is_adaptive_receive_mode rec = false →
  parameters_in_sync rec = false →
  speed rec = w → tolerance rec = t →
  CW_SPEED_MIN ≤ w ≤ CW_SPEED_MAX →
  CW_TOLERANCE_MIN ≤ t ≤ CW_TOLERANCE_MAX →
  ∃ rec',
    cw_rec_sync_parameters_internal rec = Some rec'
    ∧ dot_len_ideal rec' = 1200000 / w
    ∧ dash_len_ideal rec' = 3 * dot_len_ideal rec'
    ∧ dot_len_min rec' = dot_len_ideal rec' - dot_len_ideal rec' * t / 100
    ∧ dot_len_max rec' = dot_len_ideal rec' + dot_len_ideal rec' * t / 100
    ∧ dash_len_min rec' = dash_len_ideal rec' - dot_len_ideal rec' * t / 100
    ∧ dash_len_max rec' = dash_len_ideal rec' + dot_len_ideal rec' * t / 100.
Proof. exact (sync_fixed_ranges rec w t). Qed.

(** The initial receiver: 12 WPM, tolerance 50. *)
Lemma sync_fixed_mode_ranges_witness :
  ∃ rec',
    cw_rec_sync_parameters_internal cw_receiver = Some rec'
    ∧ dot_len_ideal rec' = 1200000 / 12
    ∧ dash_len_ideal rec' = 3 * dot_len_ideal rec'
    ∧ dot_len_min rec' = dot_len_ideal rec' - dot_len_ideal rec' * 50 / 100
    ∧ dot_len_max rec' = dot_len_ideal rec' + dot_len_ideal rec' * 50 / 100
    ∧ dash_len_min rec' = dash_len_ideal rec' - dot_len_ideal rec' * 50 / 100
    ∧ dash_len_max rec' = dash_len_ideal rec' + dot_len_ideal rec' * 50 / 100.
Proof.
  apply (sync_fixed_mode_ranges cw_receiver 12 50);
    try reflexivity; vm_compute; split; discriminate.
Defined.

(** C4 as stated fails for the dash range: at 12 WPM and tolerance 50 the
    dash range is 300000 plus and minus 50000, not plus and minus 150000. *)
Lemma sync_fixed_mode_dash_range_counterexample :
  is_adaptive_receive_mode cw_receiver = false
  ∧ speed cw_receiver = 12 ∧ tolerance cw_receiver = 50
  ∧ ∃ rec',
      cw_rec_sync_parameters_internal cw_receiver = Some rec'
      ∧ dash_len_ideal rec' = 300000
      ∧ dash_len_min rec' = 250000
      ∧ dash_len_ideal rec' - dash_len_ideal rec' * 50 / 100 = 150000
      ∧ dash_len_max rec' = 350000
      ∧ dash_len_ideal rec' + dash_len_ideal rec' * 50 / 100 = 450000.
Proof.
  repeat split; try reflexivity.
  eexists; split; [vm_compute; reflexivity |].
  vm_compute; repeat split; reflexivity.
Qed.

(** At a fixed speed within the limits of the library the two ranges are
    apart, and every length of the dash range is a dash. *)
Lemma identify_mark_fixed_speed (rec : cw_rec_t) (w t L : Z) :
  is_adaptive_receive_mode rec = false →
  parameters_in_sync rec = false →
  speed rec = w → tolerance rec = t →
  CW_SPEED_MIN ≤ w ≤ CW_SPEED_MAX →
  CW_TOLERANCE_MIN ≤ t ≤ CW_TOLERANCE_MAX →
  ∃ rec',
    cw_rec_sync_parameters_internal rec = Some rec'
    ∧ dot_len_max rec' < dash_len_min rec'
    ∧ (dot_len_min rec' ≤ L ≤ dot_len_max rec' →
       cw_rec_identify_mark_internal rec' L
       = Some (rec', CW_SUCCESS CW_DOT_REPRESENTATION))
    ∧ (dash_len_min rec' ≤ L ≤ dash_len_max rec' →
       cw_rec_identify_mark_internal rec' L
       = Some (rec', CW_SUCCESS CW_DASH_REPRESENTATION))
    ∧ (L = dot_len_min rec' - 1 ∨ L = dot_len_max rec' + 1
       ∨ L = dash_len_min rec' - 1 ∨ L = dash_len_max rec' + 1 →
       ∃ rec'', cw_rec_identify_mark_internal rec' L
                = Some (rec'', CW_FAILURE ENOENT)).
Proof.
  intros Had Hsync Hw Ht Hwr Htr.
  destruct (sync_fixed_ranges rec w t Had Hsync Hw Ht Hwr Htr)
    as (rec' & Heq & Hdi & Hda & Hdmin & Hdmax & Hamin & Hamax).
  pose proof (sync_result_in_sync _ _ Heq) as Hin.
  exists rec'. split; [exact Heq |].
  unfold CW_SPEED_MIN, CW_SPEED_MAX, CW_TOLERANCE_MIN, CW_TOLERANCE_MAX in *.
  assert (Hu : 20000 ≤ dot_len_ideal rec' ≤ 300000).
  { rewrite Hdi.
    split; [apply Z.div_le_lower_bound | apply Z.div_le_upper_bound]; lia. }
  assert (Htol : 0 ≤ dot_len_ideal rec' * t / 100
                 ∧ 100 * (dot_len_ideal rec' * t / 100)
                   ≤ 90 * dot_len_ideal rec').
  { pose proof (Z.mul_div_le (dot_len_ideal rec' * t) 100).
    split; [apply Z.div_le_lower_bound; nia | nia]. }
  generalize dependent (dot_len_ideal rec' * t / 100); intros tol; intros.
  destruct (identify_mark_cases rec' L Hin) as (Hdot & Hdash & Herr).
  split; [lia |].
  split; [exact Hdot |].
  split.
  - intros Hr. apply Hdash; lia.
  - intros Hr. eexists. apply Herr; lia.
Qed.

(** ** Adaptive mode timings *)

(** C5 (amended): in adaptive receive mode a synchronization sets the dot
    range to [0, 2 * dot_len_ideal] and the end of the dash range to
    INT_MAX, where [dot_len_ideal] is the ideal dot length that the
    synchronization computes; on the synchronized receiver
    [cw_rec_identify_mark_internal] identifies every mark length from 0 to
    INT_MAX, as a dot up to [2 * dot_len_ideal] and as a dash above, and
    never fails. *)
Theorem sync_adaptive_classifies_every_mark (rec : cw_rec_t) :
  is_adaptive_receive_mode rec = true →
  parameters_in_sync rec = false →
  speed rec ≠ 0 →
  adaptive_speed_threshold rec ÷ 2 ≠ 0 →
  ∃ rec',
    cw_rec_sync_parameters_internal rec = Some rec'
    ∧ dot_len_min rec' = 0
    ∧ dot_len_max rec' = 2 * dot_len_ideal rec'
    ∧ dash_len_max rec' = INT_MAX
    ∧ ∀ L : Z,
        0 ≤ L ≤ INT_MAX →
        cw_rec_identify_mark_internal rec' L
        = Some (rec',
                CW_SUCCESS (if bool_decide (L ≤ 2 * dot_len_ideal rec')
                            then CW_DOT_REPRESENTATION
                            else CW_DASH_REPRESENTATION)).
Proof.
  intros Had Hsync Hspeed Hthr.
  destruct (sync_adaptive rec Hsync Had Hspeed Hthr)
    as (rec' & Heq & Hsync' & _ & _ & H).
  cbn zeta in H.
  destruct H as (Hdi & _ & _ & _ & Hdmin & Hdmax & Hamin & Hamax & _).
  exists rec'; split; [exact Heq |].
  rewrite Hdi, Hdmin, Hdmax, Hamax.
  repeat split; try reflexivity.
  intros L HL.
  destruct (identify_mark_cases rec' L Hsync') as (Hdot & Hdash & _).
  rewrite Hdmin, Hdmax, Hamin, Hamax in *.
  case_bool_decide.
  - apply Hdot; lia.
  - apply Hdash; lia.
Qed.

(** The freshly adaptive receiver, marked for synchronization. *)
Lemma sync_adaptive_classifies_every_mark_witness :
  ∃ rec',
    cw_rec_sync_parameters_internal
      (set_parameters_in_sync false adaptive_receiver) = Some rec'
    ∧ dot_len_min rec' = 0
    ∧ dot_len_max rec' = 2 * dot_len_ideal rec'
    ∧ dash_len_max rec' = INT_MAX
    ∧ ∀ L : Z,
        0 ≤ L ≤ INT_MAX →
        cw_rec_identify_mark_internal rec' L
        = Some (rec',
                CW_SUCCESS (if bool_decide (L ≤ 2 * dot_len_ideal rec')
                            then CW_DOT_REPRESENTATION
                            else CW_DASH_REPRESENTATION)).
Proof.
  apply (sync_adaptive_classifies_every_mark
           (set_parameters_in_sync false adaptive_receiver));
    try reflexivity; vm_compute; discriminate.
Defined.

(** C5 as stated fails because the dot range follows the ideal dot length
    and not the average of the dots received: with dots of 100 ms and
    dashes of 500 ms the receiver settles at 8 WPM, where the average dot
    is 100000 and the dot range ends at 300000; a mark of 250 ms, above
    twice the average dot, is a dot. *)
Lemma adaptive_dot_range_counterexample :
  ∃ rec statuses,
    receive_timings adaptive_receiver 0
      [100000; 100000; 500000; 100000; 100000; 100000; 500000; 100000;
       100000; 100000; 500000; 100000; 100000; 100000; 500000; 100000;
       100000; 100000; 500000; 100000; 100000; 100000; 500000; 100000]
    = Some (rec, statuses)
    ∧ is_adaptive_receive_mode rec = true
    ∧ parameters_in_sync rec = true
    ∧ buffer (dot_averaging rec) = [100000; 100000; 100000; 100000]
    ∧ average (dot_averaging rec) = 100000
    ∧ dot_len_max rec = 300000
    ∧ cw_rec_identify_mark_internal rec 250000
      = Some (rec, CW_SUCCESS CW_DOT_REPRESENTATION).
Proof.
  eexists; eexists; split; [vm_compute; reflexivity |].
  vm_compute; repeat split; reflexivity.
Qed.

(** ** Moving averages *)














(** ** Setters *)

(** C8: [cw_set_receive_speed] fails with EPERM whenever adaptive receive
    mode is enabled, whatever the value; otherwise it fails with EINVAL if
    the value is below 4 or above 60; otherwise it succeeds and the speed of
    the receiver is the value. *)
Theorem set_receive_speed_errors (rec : cw_rec_t) (v : Z) :
  (is_adaptive_receive_mode rec = true →
   cw_set_receive_speed rec v = Some (rec, CW_FAILURE EPERM))
  ∧ (is_adaptive_receive_mode rec = false →
     v < CW_SPEED_MIN ∨ v > CW_SPEED_MAX →
     cw_set_receive_speed rec v = Some (rec, CW_FAILURE EINVAL))
  ∧ (is_adaptive_receive_mode rec = false →
     CW_SPEED_MIN ≤ v ≤ CW_SPEED_MAX →
     ∃ rec',
       cw_set_receive_speed rec v = Some (rec', CW_SUCCESS tt)
       ∧ speed rec' = v
       ∧ cw_get_receive_speed rec' = v).
Proof.
  unfold cw_set_receive_speed, cw_get_receive_speed.
  split; [| split].
  - intros ->; reflexivity.
  - intros -> Hv. 
    destruct Hv.
    + rewrite (bool_decide_eq_true_2 (v < CW_SPEED_MIN)) by assumption.
      reflexivity.
    + rewrite (bool_decide_eq_true_2 (v > CW_SPEED_MAX)) by assumption.
      rewrite orb_true_r; reflexivity.
  - intros Had Hv. rewrite Had.
    rewrite (bool_decide_eq_false_2 (v < CW_SPEED_MIN)) by lia.
    rewrite (bool_decide_eq_false_2 (v > CW_SPEED_MAX)) by lia.
    cbn [orb].
    case_bool_decide as Hne.
    + destruct (sync_fixed (set_parameters_in_sync false (set_speed v rec)))
        as (rec' & Heq & _ & Hspeed & _).
      * reflexivity.
      * exact Had.
      * cbn. unfold CW_SPEED_MIN in Hv; lia.
      * rewrite Heq; cbn. exists rec'; auto.
    + cbn. exists rec. split; [reflexivity |]. split; lia.
Qed.

(** The three cases on the receivers of the library. *)
Lemma set_receive_speed_errors_witness :
  cw_set_receive_speed adaptive_receiver 20
  = Some (adaptive_receiver, CW_FAILURE EPERM)
  ∧ cw_set_receive_speed cw_receiver 61 = Some (cw_receiver, CW_FAILURE EINVAL)
  ∧ ∃ rec',
      cw_set_receive_speed cw_receiver 20 = Some (rec', CW_SUCCESS tt)
      ∧ speed rec' = 20
      ∧ cw_get_receive_speed rec' = 20.
Proof.
  split; [| split].
  - apply (set_receive_speed_errors adaptive_receiver 20); reflexivity.
  - apply (set_receive_speed_errors cw_receiver 61);
      [reflexivity | right; reflexivity].
  - apply (set_receive_speed_errors cw_receiver 20);
      [reflexivity | split; discriminate].
Defined.

(** C9 (amended): the setters of receive speed, tolerance and gap
    synchronize the timing parameters inside the call.
    [cw_set_receive_speed] in fixed speed mode, given a value in range that
    differs from the current speed, always returns: it stores the speed,
    marks the parameters as out of sync and synchronizes them at once, so
    that the receiver it returns has [parameters_in_sync] true and the dot
    length of the new speed; in adaptive mode it fails with EPERM and
    leaves the receiver as it was.  [cw_set_tolerance] and
    [cw_rec_set_gap_internal], in either mode, given a value in range that
    differs from the current one, return the result of
    [cw_rec_sync_parameters_internal] on the receiver with the new value
    marked out of sync, and its [parameters_in_sync] is true.  Given the
    current value, a setter returns the receiver untouched. *)
Theorem setters_synchronize_in_the_call (rec : cw_rec_t) (v : Z) :
  (is_adaptive_receive_mode rec = false →
   CW_SPEED_MIN ≤ v ≤ CW_SPEED_MAX →
   v ≠ speed rec →
   ∃ rec',
     cw_rec_sync_parameters_internal
       (set_parameters_in_sync false (set_speed v rec)) = Some rec'
     ∧ cw_set_receive_speed rec v = Some (rec', CW_SUCCESS tt)
     ∧ parameters_in_sync rec' = true
     ∧ speed rec' = v
     ∧ dot_len_ideal rec' = CW_DOT_CALIBRATION ÷ v)
  ∧ (is_adaptive_receive_mode rec = true →
     cw_set_receive_speed rec v = Some (rec, CW_FAILURE EPERM))
  ∧ (CW_TOLERANCE_MIN ≤ v ≤ CW_TOLERANCE_MAX →
     v ≠ tolerance rec →
     ∀ rec',
       cw_rec_sync_parameters_internal
         (set_parameters_in_sync false (set_tolerance v rec)) = Some rec' →
       cw_set_tolerance rec v = Some (rec', CW_SUCCESS tt)
       ∧ parameters_in_sync rec' = true
       ∧ tolerance rec' = v)
  ∧ (CW_GAP_MIN ≤ v ≤ CW_GAP_MAX →
     v ≠ gap rec →
     ∀ rec',
       cw_rec_sync_parameters_internal
         (set_parameters_in_sync false (set_gap v rec)) = Some rec' →
       cw_rec_set_gap_internal rec v = Some (rec', CW_SUCCESS tt)
       ∧ parameters_in_sync rec' = true
       ∧ gap rec' = v)
  ∧ (is_adaptive_receive_mode rec = false →
     CW_SPEED_MIN ≤ v ≤ CW_SPEED_MAX → v = speed rec →
     cw_set_receive_speed rec v = Some (rec, CW_SUCCESS tt))
  ∧ (CW_TOLERANCE_MIN ≤ v ≤ CW_TOLERANCE_MAX → v = tolerance rec →
     cw_set_tolerance rec v = Some (rec, CW_SUCCESS tt))
  ∧ (CW_GAP_MIN ≤ v ≤ CW_GAP_MAX → v = gap rec →
     cw_rec_set_gap_internal rec v = Some (rec, CW_SUCCESS tt)).
Proof.
  unfold cw_set_receive_speed, cw_set_tolerance, cw_rec_set_gap_internal.
  split_and!.
  - intros Had Hv Hne. rewrite Had.
    rewrite (bool_decide_eq_false_2 (v < CW_SPEED_MIN)) by lia.
    rewrite (bool_decide_eq_false_2 (v > CW_SPEED_MAX)) by lia.
    cbn [orb].
    rewrite (bool_decide_eq_true_2 _ Hne).
    destruct (sync_fixed (set_parameters_in_sync false (set_speed v rec)))
      as (rec' & Heq & Hin & Hspeed & _ & Hdot & _).
    + reflexivity.
    + exact Had.
    + cbn. unfold CW_SPEED_MIN in Hv; lia.
    + exists rec'. rewrite Heq. cbn in Hspeed, Hdot.
      split_and!; auto.
  - intros ->; reflexivity.
  - intros Hv Hne rec' Heq.
    rewrite (bool_decide_eq_false_2 (v < CW_TOLERANCE_MIN)) by lia.
    rewrite (bool_decide_eq_false_2 (v > CW_TOLERANCE_MAX)) by lia.
    cbn [orb].
    rewrite (bool_decide_eq_true_2 _ Hne), Heq.
    split; [reflexivity |].
    split; [exact (sync_result_in_sync _ _ Heq) |].
    apply sync_preserves in Heq.
    destruct Heq as (_ & Ht & _). exact Ht.
  - intros Hv Hne rec' Heq.
    rewrite (bool_decide_eq_false_2 (v < CW_GAP_MIN)) by lia.
    rewrite (bool_decide_eq_false_2 (v > CW_GAP_MAX)) by lia.
    cbn [orb].
    rewrite (bool_decide_eq_true_2 _ Hne), Heq.
    split; [reflexivity |].
    split; [exact (sync_result_in_sync _ _ Heq) |].
    apply sync_preserves in Heq.
    destruct Heq as (_ & _ & Hg & _). exact Hg.
  - intros Had Hv Heq. rewrite Had.
    rewrite (bool_decide_eq_false_2 (v < CW_SPEED_MIN)) by lia.
    rewrite (bool_decide_eq_false_2 (v > CW_SPEED_MAX)) by lia.
    cbn [orb].
    rewrite bool_decide_eq_false_2 by (intros Hne; apply Hne; exact Heq).
    reflexivity.
  - intros Hv Heq.
    rewrite (bool_decide_eq_false_2 (v < CW_TOLERANCE_MIN)) by lia.
    rewrite (bool_decide_eq_false_2 (v > CW_TOLERANCE_MAX)) by lia.
    cbn [orb].
    rewrite bool_decide_eq_false_2 by (intros Hne; apply Hne; exact Heq).
    reflexivity.
  - intros Hv Heq.
    rewrite (bool_decide_eq_false_2 (v < CW_GAP_MIN)) by lia.
    rewrite (bool_decide_eq_false_2 (v > CW_GAP_MAX)) by lia.
    cbn [orb].
    rewrite bool_decide_eq_false_2 by (intros Hne; apply Hne; exact Heq).
    reflexivity.
Qed.

(** The speed of the initial receiver set to 20 WPM, and the same call in
    adaptive mode. *)
Lemma setters_synchronize_in_the_call_witness :
  (∃ rec',
     cw_rec_sync_parameters_internal
       (set_parameters_in_sync false (set_speed 20 cw_receiver)) = Some rec'
     ∧ cw_set_receive_speed cw_receiver 20 = Some (rec', CW_SUCCESS tt)
     ∧ parameters_in_sync rec' = true
     ∧ speed rec' = 20
     ∧ dot_len_ideal rec' = CW_DOT_CALIBRATION ÷ 20)
  ∧ cw_set_receive_speed adaptive_receiver 20
    = Some (adaptive_receiver, CW_FAILURE EPERM).
Proof.
  split.
  - apply (proj1 (setters_synchronize_in_the_call cw_receiver 20)).
    + reflexivity.
    + split; discriminate.
    + discriminate.
  - apply (proj1 (proj2 (setters_synchronize_in_the_call adaptive_receiver 20))).
    reflexivity.
Defined.

(** C9 as stated fails: the initial receiver is out of sync with all its
    timings at 0; when [cw_set_receive_speed] returns, the timings are
    those of 20 WPM and [parameters_in_sync] is true. *)
Lemma setter_leaves_parameters_in_sync :
  parameters_in_sync cw_receiver = false
  ∧ dot_len_ideal cw_receiver = 0
  ∧ ∃ rec',
      cw_set_receive_speed cw_receiver 20 = Some (rec', CW_SUCCESS tt)
      ∧ parameters_in_sync rec' = true
      ∧ dot_len_ideal rec' = 60000
      ∧ dot_len_min rec' = 30000
      ∧ dot_len_max rec' = 90000.
Proof.
  split; [reflexivity | split; [reflexivity |]].
  eexists; split; [vm_compute; reflexivity |].
  vm_compute; repeat split; reflexivity.
Qed.

(** ** Adaptive tracking *)

(** The clamping at the end of [cw_rec_update_averages_internal]. *)
Lemma clamp_speed_resync (r1 : cw_rec_t) :
  is_adaptive_receive_mode r1 = true →
  parameters_in_sync r1 = true →
  ∃ rec',
    (if bool_decide (speed r1 < CW_SPEED_MIN)
        || bool_decide (speed r1 > CW_SPEED_MAX)
     then
       cw_rec_sync_parameters_internal
         (set_parameters_in_sync false
            (set_is_adaptive_receive_mode false
               (set_speed (if bool_decide (speed r1 < CW_SPEED_MIN)
                           then CW_SPEED_MIN else CW_SPEED_MAX) r1)))
       ≫= λ rec0 : cw_rec_t,
            cw_rec_sync_parameters_internal
              (set_parameters_in_sync false
                 (set_is_adaptive_receive_mode true rec0))
     else Some r1) = Some rec'
    ∧ sync_frame r1 rec'
    ∧ parameters_in_sync rec' = true
    ∧ (CW_SPEED_MIN ≤ speed r1 ≤ CW_SPEED_MAX → rec' = r1)
    ∧ (speed r1 < CW_SPEED_MIN ∨ speed r1 > CW_SPEED_MAX →
       let clamped :=
         if bool_decide (speed r1 < CW_SPEED_MIN)
         then CW_SPEED_MIN else CW_SPEED_MAX in
       speed rec' = clamped
       ∧ dot_len_ideal rec' = CW_DOT_CALIBRATION ÷ clamped
       ∧ adaptive_speed_threshold rec' = 2 * dot_len_ideal rec'
       ∧ dot_len_max rec' = 2 * dot_len_ideal rec'
       ∧ dash_len_min rec' = 2 * dot_len_ideal rec'
       ∧ dash_len_ideal rec' = 3 * dot_len_ideal rec').
Proof.
  intros Had Hsync.
  destruct (bool_decide (speed r1 < CW_SPEED_MIN)
            || bool_decide (speed r1 > CW_SPEED_MAX)) eqn:Hclamp.
  - set (clamped := if bool_decide (speed r1 < CW_SPEED_MIN)
                    then CW_SPEED_MIN else CW_SPEED_MAX).
    assert (Hc : clamped = CW_SPEED_MIN ∨ clamped = CW_SPEED_MAX)
      by (unfold clamped; case_bool_decide; auto).
    assert (Hc0 : clamped ≠ 0)
      by (unfold CW_SPEED_MIN, CW_SPEED_MAX in Hc; lia).
    destruct (sync_fixed
                (set_parameters_in_sync false
                   (set_is_adaptive_receive_mode false
                      (set_speed clamped r1))))
      as (r2 & Heq2 & _ & Hs2 & Ht2 & _); try reflexivity; try assumption.
    cbn [speed set_parameters_in_sync set_is_adaptive_receive_mode set_speed]
      in Hs2, Ht2.
    pose proof (sync_preserves _ _ Heq2) as Hf2.
    rewrite Heq2; cbn [mbind option_bind].
    assert (Hthr2 : adaptive_speed_threshold r2 ÷ 2 ≠ 0).
    { rewrite Ht2. destruct Hc as [-> | ->]; vm_compute; discriminate. }
    destruct (sync_adaptive
                (set_parameters_in_sync false
                   (set_is_adaptive_receive_mode true r2)))
      as (r3 & Heq3 & Hsync3 & Hs3 & Ht3 & H3);
      try reflexivity; try assumption.
    { cbn. rewrite Hs2. exact Hc0. }
    cbn zeta in H3.
    destruct H3 as (Hd3 & Hda3 & _ & _ & _ & Hdmax3 & Hamin3 & _).
    cbn [speed adaptive_speed_threshold set_parameters_in_sync
           set_is_adaptive_receive_mode] in Hs3, Ht3, Hd3, Hdmax3, Hamin3, Hda3.
    pose proof (sync_preserves _ _ Heq3) as Hf3.
    exists r3. split; [exact Heq3 |].
    split.
    { unfold sync_frame in *; cbn in Hf2, Hf3.
      destruct Hf2 as (? & ? & ? & ? & ? & ? & ? & ? & ? & ? & ? & ? & ?).
      destruct Hf3 as (? & ? & ? & ? & ? & ? & ? & ? & ? & ? & ? & ? & ?).
      repeat split; try congruence. }
    split; [exact Hsync3 |].
    split.
    { intros Hr. apply orb_true_iff in Hclamp.
      destruct Hclamp as [H | H]; apply bool_decide_eq_true_1 in H; lia. }
    intros _. cbn zeta. fold clamped.
    rewrite Hs3, Ht3, Ht2, Hd3, Hdmax3, Hamin3, Hda3, Hs2.
    destruct Hc as [-> | ->]; repeat split; reflexivity.
  - apply orb_false_iff in Hclamp. destruct Hclamp as [H1 H2].
    apply bool_decide_eq_false_1 in H1, H2.
    exists r1. split; [reflexivity |].
    split; [repeat split |].
    split; [exact Hsync |].
    split; [reflexivity |].
    intros [H | H]; contradiction.
Qed.
(** What [cw_rec_update_averages_internal] does with an accepted mark:
    [r0] is the receiver with the mark length entered in the average of its
    kind. *)
Lemma update_averages_result
    (rec r0 : cw_rec_t) (mark_len : Z) (mark : ascii) :
  is_adaptive_receive_mode rec = true →
  (mark = CW_DOT_REPRESENTATION
   ∧ ∃ avg, cw_rec_update_average_internal (dot_averaging rec) mark_len
            = Some avg
            ∧ r0 = set_dot_averaging avg rec)
  ∨ (mark = CW_DASH_REPRESENTATION
     ∧ ∃ avg, cw_rec_update_average_internal (dash_averaging rec) mark_len
              = Some avg
              ∧ r0 = set_dash_averaging avg rec) →
  speed rec ≠ 0 →
  let threshold :=
    int_add (int_sub (average (dash_averaging r0))
                     (average (dot_averaging r0)) ÷ 2)
            (average (dot_averaging r0)) in
  threshold ÷ 2 ≠ 0 →
  let derived := CW_DOT_CALIBRATION ÷ (threshold ÷ 2) in
  ∃ rec',
    cw_rec_update_averages_internal rec mark_len mark = Some rec'
    ∧ dot_averaging rec' = dot_averaging r0
    ∧ dash_averaging rec' = dash_averaging r0
    ∧ is_adaptive_receive_mode rec' = true
    ∧ parameters_in_sync rec' = true
    ∧ CW_SPEED_MIN ≤ speed rec' ≤ CW_SPEED_MAX
    ∧ (CW_SPEED_MIN ≤ derived ≤ CW_SPEED_MAX →
       speed rec' = derived
       ∧ adaptive_speed_threshold rec' = threshold
       ∧ dot_len_ideal rec' = CW_DOT_CALIBRATION ÷ speed rec)
    ∧ (derived < CW_SPEED_MIN ∨ derived > CW_SPEED_MAX →
       speed rec' = (if bool_decide (derived < CW_SPEED_MIN)
                     then CW_SPEED_MIN else CW_SPEED_MAX)
       ∧ dot_len_ideal rec' = CW_DOT_CALIBRATION ÷ speed rec'
       ∧ adaptive_speed_threshold rec' = 2 * dot_len_ideal rec'
       ∧ dot_len_max rec' = 2 * dot_len_ideal rec'
       ∧ dash_len_min rec' = 2 * dot_len_ideal rec').
Proof.
  intros Had Hmark Hspeed threshold Hthr derived.
  assert (Had0 : is_adaptive_receive_mode r0 = true)
    by (destruct Hmark as [(_ & avg & _ & ->) | (_ & avg & _ & ->)];
        exact Had).
  assert (Hspeed0 : speed r0 = speed rec)
    by (destruct Hmark as [(_ & avg & _ & ->) | (_ & avg & _ & ->)];
        reflexivity).
  destruct (sync_adaptive
              (set_parameters_in_sync false
                 (set_adaptive_speed_threshold threshold r0)))
    as (r1 & Heq1 & Hsync1 & Hs1 & Hthr1 & Hd1 & _);
    try assumption; try reflexivity.
  { cbn; rewrite Hspeed0; exact Hspeed. }
  pose proof (sync_preserves _ _ Heq1) as Hf1.
  cbn in Hs1, Hthr1, Hd1. rewrite Hspeed0 in Hd1.
  fold derived in Hs1.
  assert (Had1 : is_adaptive_receive_mode r1 = true).
  { destruct Hf1 as (_ & _ & _ & -> & _). exact Had0. }
  destruct (clamp_speed_resync r1 Had1 Hsync1)
    as (rec' & Heq' & Hf' & Hsync' & Hin & Hout).
  assert (Hrun :
    cw_rec_update_averages_internal rec mark_len mark = Some rec').
  { unfold cw_rec_update_averages_internal.
    rewrite Had; cbn [negb].
    destruct Hmark as [(-> & avg & Havg & Hr0) | (-> & avg & Havg & Hr0)].
    - change (Ascii.eqb CW_DOT_REPRESENTATION CW_DOT_REPRESENTATION)
        with true.
      cbv iota. rewrite Havg. cbn [mbind option_bind].
      rewrite <- Hr0. rewrite int_div_pos by lia. cbn [mbind option_bind].
      fold threshold. rewrite Heq1. cbn [mbind option_bind]. exact Heq'.
    - change (Ascii.eqb CW_DASH_REPRESENTATION CW_DOT_REPRESENTATION)
        with false.
      change (Ascii.eqb CW_DASH_REPRESENTATION CW_DASH_REPRESENTATION)
        with true.
      cbv iota. rewrite Havg. cbn [mbind option_bind].
      rewrite <- Hr0. rewrite int_div_pos by lia. cbn [mbind option_bind].
      fold threshold. rewrite Heq1. cbn [mbind option_bind]. exact Heq'. }
  exists rec'. split; [exact Hrun |].
  clear Hrun Heq1; clearbody derived threshold.
  destruct Hf1
    as (_ & _ & _ & _ & _ & _ & _ & _ & _ & _ & _ & Hdot1 & Hdash1).
  destruct Hf'
    as (_ & _ & _ & Had' & _ & _ & _ & _ & _ & _ & _ & Hdot' & Hdash').
  cbn in Hdot1, Hdash1.
  split; [congruence |].
  split; [congruence |].
  split; [congruence |].
  split; [exact Hsync' |].
  rewrite Hs1 in Hin, Hout.
  split; [| split].
  - destruct (decide (CW_SPEED_MIN ≤ derived ≤ CW_SPEED_MAX)) as [Hr | Hr].
    + rewrite (Hin Hr), Hs1; exact Hr.
    + destruct Hout as (-> & _);
        [clear - Hr; unfold CW_SPEED_MIN, CW_SPEED_MAX in *; lia |].
      destruct (bool_decide (derived < CW_SPEED_MIN));
        unfold CW_SPEED_MIN, CW_SPEED_MAX; clear; lia.
  - intros Hr. rewrite (Hin Hr). auto.
  - intros Hr. destruct (Hout Hr) as (Hs' & Hd' & Ht' & Hm' & Ha' & _).
    rewrite Hs'. auto.
Qed.

(** C6, the code at the failing input: on the freshly adaptive receiver
    (12 WPM), a dot of 100 ms and a dash of 300 ms, both exactly 12 WPM,
    are accepted.  After the second one the averages are 100000 and 300000,
    the threshold is their midpoint 200000 and the speed derived from it is
    12, not clamped; the timings however are those of 48 WPM, the speed
    before this update: the ideal dot is 25000 and not 1200000 / 12, and
    the next 100 ms mark is identified as a dash. *)
Theorem update_averages_timings_lag :
  (∃ rec1 rec2,
     cw_rec_update_averages_internal adaptive_receiver 100000
                                     CW_DOT_REPRESENTATION = Some rec1
     ∧ cw_rec_update_averages_internal rec1 300000 CW_DASH_REPRESENTATION
       = Some rec2
     ∧ speed rec1 = 48
     ∧ average (dot_averaging rec2) = 100000
     ∧ average (dash_averaging rec2) = 300000
     ∧ adaptive_speed_threshold rec2 = 200000
     ∧ speed rec2 = 12
     ∧ CW_DOT_CALIBRATION ÷ speed rec2 = 100000
     ∧ dot_len_ideal rec2 = 25000
     ∧ dot_len_max rec2 = 50000)
  ∧ ∃ rec statuses,
      receive_timings adaptive_receiver 0 [100000; 100000; 300000; 100000]
      = Some (rec, statuses)
      ∧ statuses = [CW_SUCCESS tt; CW_SUCCESS tt]
      ∧ is_adaptive_receive_mode rec = true
      ∧ parameters_in_sync rec = true
      ∧ average (dot_averaging rec) = 100000
      ∧ average (dash_averaging rec) = 300000
      ∧ adaptive_speed_threshold rec = 200000
      ∧ speed rec = 12
      ∧ CW_DOT_CALIBRATION ÷ speed rec = 100000
      ∧ dot_len_ideal rec = 25000
      ∧ dot_len_max rec = 50000
      ∧ cw_rec_identify_mark_internal rec 100000
        = Some (rec, CW_SUCCESS CW_DASH_REPRESENTATION).
Proof.
  split.
  - eexists; eexists; split; [vm_compute; reflexivity |].
    split; [vm_compute; reflexivity |].
    vm_compute; repeat split; reflexivity.
  - eexists; eexists; split; [vm_compute; reflexivity |].
    vm_compute; repeat split; reflexivity.
Qed.


(** ** What the helpers of the receiving functions leave alone *)

Lemma buffer_frame_refl (r : cw_rec_t) : buffer_frame r r.
Proof. repeat split. Qed.

Lemma buffer_frame_trans (r1 r2 r3 : cw_rec_t) :
  buffer_frame r1 r2 → buffer_frame r2 r3 → buffer_frame r1 r3.
Proof.
  unfold buffer_frame.
  intros (? & ? & ? & ? & ? & ? & ?) (? & ? & ? & ? & ? & ? & ?).
  repeat split; congruence.
Qed.

Lemma sync_buffer_frame (rec rec' : cw_rec_t) :
  cw_rec_sync_parameters_internal rec = Some rec' → buffer_frame rec rec'.
Proof.
  intros H; apply sync_preserves in H.
  destruct H as (? & ? & ? & ? & ? & ? & ? & ? & ? & ? & ? & ? & ?).
  repeat split; assumption.
Qed.

Lemma update_stats_buffer_frame
    (rec rec' : cw_rec_t) (type : stat_type_t) (len : Z) :
  cw_rec_update_stats_internal rec type len = Some rec' →
  buffer_frame rec rec'.
Proof.
  unfold cw_rec_update_stats_internal; intros H.
  destruct (cw_rec_sync_parameters_internal rec) as [r1 |] eqn:Hsync;
    [| discriminate].
  apply sync_buffer_frame in Hsync.
  cbn [mbind option_bind] in H.
  destruct (array_set _ _ _) as [stats |]; [| discriminate].
  cbn [mbind option_bind] in H.
  destruct (int_rem _ _) as [ind |]; [| discriminate].
  cbn [mbind option_bind] in H.
  injection H as <-.
  eapply buffer_frame_trans; [exact Hsync |].
  repeat split.
Qed.

Lemma identify_mark_buffer_frame
    (rec rec' : cw_rec_t) (mark_len : Z) (mark : ascii) :
  cw_rec_identify_mark_internal rec mark_len = Some (rec', CW_SUCCESS mark) →
  buffer_frame rec rec'
  ∧ (mark = CW_DOT_REPRESENTATION ∨ mark = CW_DASH_REPRESENTATION).
Proof.
  unfold cw_rec_identify_mark_internal; intros H.
  destruct (cw_rec_sync_parameters_internal rec) as [r1 |] eqn:Hsync;
    [| discriminate].
  apply sync_buffer_frame in Hsync.
  cbn [mbind option_bind] in H.
  repeat match type of H with
         | (if ?b then _ else _) = _ => destruct b
         end; simplify_eq; auto.
Qed.

Lemma update_averages_buffer_frame
    (rec rec' : cw_rec_t) (mark_len : Z) (mark : ascii) :
  cw_rec_update_averages_internal rec mark_len mark = Some rec' →
  buffer_frame rec rec'.
Proof.
  unfold cw_rec_update_averages_internal.
  destruct (is_adaptive_receive_mode rec) eqn:Had; cbn [negb];
    [| intros [= <-]; apply buffer_frame_refl].
  assert (Htail : ∀ r0,
    buffer_frame rec r0 →
    (int_div (int_sub (average (dash_averaging r0))
                      (average (dot_averaging r0))) 2
     ≫= λ half,
       cw_rec_sync_parameters_internal
         (set_parameters_in_sync false
            (set_adaptive_speed_threshold
               (int_add half (average (dot_averaging r0))) r0))
       ≫= λ rec0,
         if bool_decide (speed rec0 < CW_SPEED_MIN)
            || bool_decide (speed rec0 > CW_SPEED_MAX)
         then
           cw_rec_sync_parameters_internal
             (set_parameters_in_sync false
                (set_is_adaptive_receive_mode false
                   (set_speed
                      (if bool_decide (speed rec0 < CW_SPEED_MIN)
                       then CW_SPEED_MIN else CW_SPEED_MAX) rec0)))
           ≫= λ rec1,
             cw_rec_sync_parameters_internal
               (set_parameters_in_sync false
                  (set_is_adaptive_receive_mode true rec1))
         else Some rec0) = Some rec' →
    buffer_frame rec rec').
  { intros r0 Hf0 H.
    destruct (int_div _ 2) as [half |]; [| discriminate].
    cbn [mbind option_bind] in H.
    destruct (cw_rec_sync_parameters_internal _) as [r1 |] eqn:H1;
      [| discriminate].
    cbn [mbind option_bind] in H.
    apply sync_buffer_frame in H1.
    assert (Hf1 : buffer_frame rec r1).
    { eapply buffer_frame_trans; [exact Hf0 |].
      eapply buffer_frame_trans; [| exact H1]. repeat split. }
    destruct (bool_decide (speed r1 < CW_SPEED_MIN)
              || bool_decide (speed r1 > CW_SPEED_MAX));
      [| injection H as <-; exact Hf1].
    destruct (cw_rec_sync_parameters_internal _) as [r2 |] eqn:H2;
      [| discriminate].
    cbn [mbind option_bind] in H.
    apply sync_buffer_frame in H2, H.
    unfold buffer_frame in *; cbn in H2, H.
    destruct Hf1 as (? & ? & ? & ? & ? & ? & ?).
    destruct H2 as (? & ? & ? & ? & ? & ? & ?).
    destruct H as (? & ? & ? & ? & ? & ? & ?).
    repeat split; congruence. }
  destruct (Ascii.eqb mark CW_DOT_REPRESENTATION).
  - destruct (cw_rec_update_average_internal _ _) as [avg |];
      [| discriminate].
    cbn [mbind option_bind]. apply Htail. repeat split.
  - destruct (Ascii.eqb mark CW_DASH_REPRESENTATION);
      [| intros [= <-]; apply buffer_frame_refl].
    destruct (cw_rec_update_average_internal _ _) as [avg |];
      [| discriminate].
    cbn [mbind option_bind]. apply Htail. repeat split.
Qed.

(** *** The buffer invariant holds in every reachable receiver *)

Lemma buffer_invariant_same
    (r r' : cw_rec_t) :
  buffer_invariant r →
  state r' = state r →
  representation_ind r' = representation_ind r →
  length (representation r') = length (representation r) →
  buffer_invariant r'.
Proof.
  unfold buffer_invariant, state_matches_buffer.
  intros H Hs Hi Hl; rewrite Hs, Hi, Hl; exact H.
Qed.

Lemma buffer_invariant_frame (r r' : cw_rec_t) :
  buffer_invariant r → buffer_frame r r' → buffer_invariant r'.
Proof.
  intros H (Hs & Hr & Hi & _).
  apply (buffer_invariant_same r r' H Hs Hi); rewrite Hr; reflexivity.
Qed.

Lemma buffer_invariant_gap (r r' : cw_rec_t) :
  buffer_invariant r →
  state r' = RS_EOC_GAP ∨ state r' = RS_EOW_GAP
  ∨ state r' = RS_EOC_GAP_ERR ∨ state r' = RS_EOW_GAP_ERR →
  representation_ind r' = representation_ind r →
  length (representation r') = length (representation r) →
  buffer_invariant r'.
Proof.
  unfold buffer_invariant, state_matches_buffer.
  intros (Hl & Hi & _ & _) Hs Hi' Hl'; rewrite Hi', Hl'.
  split; [exact Hl |]. split; [exact Hi |].
  split; [| split]; intros H;
    destruct Hs as [Hs | [Hs | [Hs | Hs]]]; rewrite Hs in H;
    try discriminate; destruct H as [H | [H | H]]; discriminate.
Qed.

Lemma setter_buffer_frame
    (rec rec' : cw_rec_t) (status : cw_ret unit) (v : Z) :
  cw_set_receive_speed rec v = Some (rec', status)
  ∨ cw_set_tolerance rec v = Some (rec', status)
  ∨ cw_rec_set_gap_internal rec v = Some (rec', status) →
  buffer_frame rec rec'.
Proof.
  unfold cw_set_receive_speed, cw_set_tolerance, cw_rec_set_gap_internal.
  intros [H | [H | H]].
  all: repeat match type of H with
         | (if ?b then _ else _) = _ =>
             destruct b; [injection H as <- <-; apply buffer_frame_refl |]
         end.
  all: match type of H with
       | ((if ?b then _ else _) ≫= _) = _ => destruct b
       end; cbn [mbind option_bind] in H;
       [| injection H as <- <-; apply buffer_frame_refl].
  all: destruct (cw_rec_sync_parameters_internal _) as [r1 |] eqn:Hs;
    [| discriminate]; cbn [mbind option_bind] in H; injection H as <- <-.
  all: apply sync_buffer_frame in Hs.
  all: eapply buffer_frame_trans; [| exact Hs]; repeat split.
Qed.

Lemma set_adaptive_buffer_invariant
    (rec rec' : cw_rec_t) (adaptive : bool) :
  cw_rec_set_adaptive_internal rec adaptive = Some rec' →
  buffer_invariant rec → buffer_invariant rec'.
Proof.
  unfold cw_rec_set_adaptive_internal; intros H Hinv.
  destruct (negb _); [| injection H as <-; exact Hinv].
  destruct (cw_rec_sync_parameters_internal _) as [r1 |] eqn:Hs;
    [| discriminate].
  cbn [mbind option_bind] in H.
  apply sync_buffer_frame in Hs.
  assert (Hinv1 : buffer_invariant r1).
  { destruct Hs as (Hst & Hr & Hi & _). cbn in Hst, Hr, Hi.
    apply (buffer_invariant_same rec r1 Hinv Hst Hi).
    rewrite Hr; reflexivity. }
  destruct (is_adaptive_receive_mode r1); [| injection H as <-; exact Hinv1].
  destruct (cw_rec_reset_average_internal (dot_averaging r1) _);
    [| discriminate].
  cbn [mbind option_bind] in H.
  destruct (cw_rec_reset_average_internal _ _); [| discriminate].
  cbn [mbind option_bind] in H. injection H as <-.
  apply (buffer_invariant_same r1); auto.
Qed.

Lemma identify_mark_failure
    (rec rec' : cw_rec_t) (mark_len : Z) (e : errno_t) :
  cw_rec_identify_mark_internal rec mark_len = Some (rec', CW_FAILURE e) →
  (state rec' = RS_EOC_GAP_ERR ∨ state rec' = RS_EOW_GAP_ERR)
  ∧ representation rec' = representation rec
  ∧ representation_ind rec' = representation_ind rec
  ∧ e = ENOENT.
Proof.
  unfold cw_rec_identify_mark_internal; intros H.
  destruct (cw_rec_sync_parameters_internal rec) as [r1 |] eqn:Hsync;
    [| discriminate].
  apply sync_buffer_frame in Hsync as (_ & Hr & Hi & _).
  cbn [mbind option_bind] in H.
  repeat match type of H with
         | (if ?b then _ else _) = _ => destruct b; [discriminate |]
         end.
  injection H as <- <-. cbn.
  split; [destruct (bool_decide _); auto | auto].
Qed.

Lemma copy_representation_out_frame
    (rec rec' : cw_rec_t) (out : list ascii) :
  copy_representation_out rec = Some (rec', out) →
  state rec' = state rec
  ∧ representation_ind rec' = representation_ind rec
  ∧ length (representation rec') = length (representation rec).
Proof.
  unfold copy_representation_out, array_set; intros H.
  destruct (bool_decide _); [| discriminate].
  cbn in H. injection H as <- <-. cbn.
  rewrite length_insert. auto.
Qed.

(** ** Receiving marks and polling *)

Lemma c_strncat_take (src : list ascii) (n : Z) :
  0 ≤ n →
  Forall (λ c, c ≠ zero) (take (Z.to_nat n) src) →
  c_strncat src n = take (Z.to_nat n) src.
Proof.
  revert n; induction src as [| c src IH]; intros n Hn Hall.
  - rewrite take_nil; reflexivity.
  - cbn [c_strncat].
    destruct (decide (n = 0)) as [-> | Hn0].
    + reflexivity.
    + rewrite (bool_decide_eq_false_2 (n = 0)) by assumption.
      replace (Z.to_nat n) with (S (Z.to_nat (n - 1))) in * by lia.
      cbn [take] in *.
      inversion Hall as [| ? ? Hc Hall']; subst.
      replace (Ascii.eqb c zero) with false
        by (symmetry; apply Ascii.eqb_neq; exact Hc).
      cbn [orb]. f_equal. apply IH; [lia | exact Hall'].
Qed.

Lemma copy_representation_out_defined (rec : cw_rec_t) :
  Z.of_nat (length (representation rec)) = CW_REC_REPRESENTATION_CAPACITY + 1 →
  0 ≤ representation_ind rec ≤ CW_REC_REPRESENTATION_CAPACITY →
  Forall (λ c, c ≠ zero) (buffered_representation rec) →
  copy_representation_out rec
  = Some (set_representation
            (<[Z.to_nat (representation_ind rec) := zero]>
               (representation rec)) rec,
          buffered_representation rec).
Proof.
  intros Hlen Hind Hall; unfold copy_representation_out, array_set.
  unfold CW_REC_REPRESENTATION_CAPACITY in *.
  rewrite bool_decide_eq_true_2 by lia.
  cbn [mbind option_bind].
  unfold size_t_of_int.
  rewrite Z.mod_small by lia.
  rewrite c_strncat_take; [reflexivity | lia | exact Hall].
Qed.

Lemma update_stats_defined
    (rec : cw_rec_t) (type : stat_type_t) (len : Z) :
  parameters_in_sync rec = true →
  0 ≤ statistics_ind rec < Z.of_nat (length (statistics rec)) →
  ∃ stats ind,
    cw_rec_update_stats_internal rec type len
    = Some (set_statistics_ind ind (set_statistics stats rec)).
Proof.
  intros Hsync Hind; unfold cw_rec_update_stats_internal, array_set.
  rewrite (sync_in_sync rec Hsync); cbn [mbind option_bind].
  rewrite bool_decide_eq_true_2 by exact Hind.
  cbn [mbind option_bind].
  rewrite int_rem_pos by (unfold CW_REC_STATISTICS_CAPACITY; lia).
  cbn [mbind option_bind].
  eexists; eexists; reflexivity.
Qed.

(** Evaluates the tests on closed values of the state. *)
#[local] Ltac decide_states :=
  repeat match goal with
    | |- context [@bool_decide ?P ?d] =>
        let v := eval vm_compute in (@bool_decide P d) in
        match v with
        | true => idtac
        | false => idtac
        end;
        change (@bool_decide P d) with v
    end;
  cbn [orb andb negb].

Section ReceivingProperties.

(** The statements hold for every implementation of the two timestamp
    helpers. *)
Variable timestamp_validate : option timeval → cw_ret timeval.
Variable timestamp_compare : timeval → timeval → Z.

Local Abbreviation mark_begin :=
  (cw_rec_mark_begin_internal timestamp_validate timestamp_compare).
Local Abbreviation mark_end_ :=
  (cw_rec_mark_end_internal timestamp_validate timestamp_compare).
Local Abbreviation add_mark :=
  (cw_rec_add_mark_internal timestamp_validate).
Local Abbreviation poll :=
  (cw_rec_poll_representation_internal timestamp_validate
                                       timestamp_compare).

Lemma mark_begin_success
    (rec rec1 : cw_rec_t) (timestamp : option timeval) :
  mark_begin rec timestamp = Some (rec1, CW_SUCCESS tt) →
  (state rec = RS_IDLE ∨ state rec = RS_SPACE)
  ∧ state rec1 = RS_MARK
  ∧ representation rec1 = representation rec
  ∧ representation_ind rec1 = representation_ind rec
  ∧ mark_end rec1 = mark_end rec
  ∧ noise_spike_threshold rec1 = noise_spike_threshold rec
  ∧ timestamp_validate timestamp = CW_SUCCESS (mark_start rec1).
Proof.
  unfold cw_rec_mark_begin_internal; intros H.
  assert (Hst : state rec = RS_IDLE ∨ state rec = RS_SPACE).
  { destruct (state rec); auto; discriminate. }
  split; [exact Hst |].
  replace (bool_decide (state rec ≠ RS_IDLE)
           && bool_decide (state rec ≠ RS_SPACE)) with false in H
    by (destruct Hst as [-> | ->]; reflexivity).
  destruct (timestamp_validate timestamp) as [t | e]; [| discriminate].
  cbn [state set_mark_start] in H.
  destruct (bool_decide (state rec = RS_SPACE)).
  - destruct (cw_rec_update_stats_internal _ _ _) as [r1 |] eqn:Hstats;
      [| discriminate].
    cbn [mbind option_bind] in H. injection H as <-.
    apply update_stats_buffer_frame in Hstats.
    destruct Hstats as (_ & Hrep & Hind & Hstart & Hend & Hnoise & _).
    cbn in Hrep, Hind, Hstart, Hend, Hnoise. cbn.
    rewrite Hstart. repeat split; assumption.
  - cbn [mbind option_bind] in H. injection H as <-.
    repeat split.
Qed.

(** A mark no longer than the noise spike threshold, alone and after the
    begin of the mark. *)
Lemma mark_end_noise
    (rec : cw_rec_t) (timestamp : option timeval) (t : timeval) :
  state rec = RS_MARK →
  timestamp_validate timestamp = CW_SUCCESS t →
  noise_spike_threshold rec > 0 →
  timestamp_compare (mark_start rec) t ≤ noise_spike_threshold rec →
  mark_end_ rec timestamp
  = Some (set_state (if bool_decide (representation_ind rec = 0)
                     then RS_IDLE else RS_SPACE) rec,
          CW_FAILURE EAGAIN)
  ∧ ∀ (rec0 : cw_rec_t) (timestamp0 : option timeval),
      state_matches_buffer rec0 →
      mark_begin rec0 timestamp0 = Some (rec, CW_SUCCESS tt) →
      ∃ rec',
        mark_end_ rec timestamp = Some (rec', CW_FAILURE EAGAIN)
        ∧ state rec' = state rec0
        ∧ representation_ind rec' = representation_ind rec0
        ∧ representation rec' = representation rec0
        ∧ mark_end rec' = mark_end rec0.
Proof.
  intros Hstate Hvalid Hthr Hlen.
  assert (Hrun :
    mark_end_ rec timestamp
    = Some (set_state (if bool_decide (representation_ind rec = 0)
                       then RS_IDLE else RS_SPACE) rec,
            CW_FAILURE EAGAIN)).
  { unfold cw_rec_mark_end_internal.
    rewrite Hstate, Hvalid.
    cbn [bool_decide decide_rel]. 
    rewrite bool_decide_eq_false_2 by (intros Hne; apply Hne; reflexivity).
    cbn [mark_start mark_end set_mark_end noise_spike_threshold
           representation_ind].
    rewrite (bool_decide_eq_true_2 _ Hthr), (bool_decide_eq_true_2 _ Hlen).
    reflexivity. }
  split; [exact Hrun |].
  intros rec0 timestamp0 [Hidle Hspace] Hbegin.
  apply mark_begin_success in Hbegin.
  destruct Hbegin as (Hst0 & _ & Hrep & Hind & Hend & _).
  eexists; split; [exact Hrun |].
  cbn. rewrite Hind, Hrep, Hend.
  repeat split.
  destruct Hst0 as [H0 | H0]; rewrite H0.
  - rewrite bool_decide_eq_true_2 by auto. reflexivity.
  - rewrite bool_decide_eq_false_2 by auto. reflexivity.
Qed.

(** C3: when the noise spike threshold is above 0 and the length of the
    mark, from [mark_start] to the timestamp of the end of the mark, is
    at or below the threshold, [cw_rec_mark_end_internal] fails with
    EAGAIN; the state becomes idle if no mark is buffered and
    inter-mark space otherwise, and nothing else changes.  For a receiver
    that was idle with an empty buffer or in a space with marks buffered
    when the mark began, this restores the state, and the number of
    buffered marks, the buffer and the stored end of mark timestamp are
    those from before [cw_rec_mark_begin_internal]. *)
Theorem mark_end_noise_rollback
    (rec : cw_rec_t) (timestamp : option timeval) (t : timeval) :
  state rec = RS_MARK →
  timestamp_validate timestamp = CW_SUCCESS t →
  noise_spike_threshold rec > 0 →
  timestamp_compare (mark_start rec) t ≤ noise_spike_threshold rec →
  mark_end_ rec timestamp
  = Some (set_state (if bool_decide (representation_ind rec = 0)
                     then RS_IDLE else RS_SPACE) rec,
          CW_FAILURE EAGAIN)
  ∧ ∀ (rec0 : cw_rec_t) (timestamp0 : option timeval),
      state_matches_buffer rec0 →
      mark_begin rec0 timestamp0 = Some (rec, CW_SUCCESS tt) →
      ∃ rec',
        mark_end_ rec timestamp = Some (rec', CW_FAILURE EAGAIN)
        ∧ state rec' = state rec0
        ∧ representation_ind rec' = representation_ind rec0
        ∧ representation rec' = representation rec0
        ∧ mark_end rec' = mark_end rec0.
Proof. exact (mark_end_noise rec timestamp t). Qed.


(** C2 (amended): [cw_rec_poll_representation_internal] called in the
    mark state fails with ERANGE.  In the space state, with [S] the time
    from the end of the last mark to the timestamp of the poll and the
    timing parameters synchronized: if [S] is [INT_MAX] the call fails
    with EAGAIN; otherwise, if [S] is in [eoc_len_min, eoc_len_max] the
    receiver moves to the end-of-character state and the call succeeds
    with the buffered representation and [is_end_of_word] false; if [S]
    is above [eoc_len_max] the receiver moves to the end-of-word state
    and the call succeeds with [is_end_of_word] true; if [S] is below
    [eoc_len_min] the call fails with EAGAIN and the receiver stays in
    the space state. *)
Theorem poll_representation_space_classification
    (rec rs : cw_rec_t) (timestamp : option timeval) (now : timeval) :
  timestamp_validate timestamp = CW_SUCCESS now →
  cw_rec_sync_parameters_internal rec = Some rs →
  Z.of_nat (length (representation rec))
  = CW_REC_REPRESENTATION_CAPACITY + 1 →
  0 ≤ representation_ind rec ≤ CW_REC_REPRESENTATION_CAPACITY →
  Forall (λ c, c ≠ zero) (buffered_representation rec) →
  0 ≤ statistics_ind rec < Z.of_nat (length (statistics rec)) →
  let S := timestamp_compare (mark_end rec) now in
  (state rec = RS_MARK →
   poll rec timestamp = Some (rec, CW_FAILURE ERANGE))
  ∧ (state rec = RS_SPACE →
     (S = INT_MAX → poll rec timestamp = Some (rec, CW_FAILURE EAGAIN))
     ∧ (S ≠ INT_MAX →
        eoc_len_min rs ≤ S ≤ eoc_len_max rs →
        ∃ rec',
          poll rec timestamp
          = Some (rec',
                  CW_SUCCESS
                    {| out_representation := buffered_representation rec;
                       out_is_end_of_word := false;
                       out_is_error := false |})
          ∧ state rec' = RS_EOC_GAP)
     ∧ (S ≠ INT_MAX →
        S > eoc_len_max rs →
        ∃ rec',
          poll rec timestamp
          = Some (rec',
                  CW_SUCCESS
                    {| out_representation := buffered_representation rec;
                       out_is_end_of_word := true;
                       out_is_error := false |})
          ∧ state rec' = RS_EOW_GAP)
     ∧ (S ≠ INT_MAX →
        S < eoc_len_min rs →
        eoc_len_min rs ≤ eoc_len_max rs →
        poll rec timestamp = Some (rs, CW_FAILURE EAGAIN)
        ∧ state rs = RS_SPACE)).
Proof.
  intros Hvalid Hsync Hlen Hind Hall Hstat S.
  pose proof (sync_preserves _ _ Hsync)
    as (Hst & _ & _ & _ & _ & _ & _ & Hrep & Hri & Hstats & Hsi & _).
  pose proof (sync_result_in_sync _ _ Hsync) as Hin.
  split.
  { intros Hstate; unfold cw_rec_poll_representation_internal.
    rewrite Hstate; reflexivity. }
  intros Hstate.
  assert (Hpoll :
    poll rec timestamp
    = if bool_decide (S = INT_MAX) then Some (rec, CW_FAILURE EAGAIN)
      else
        if bool_decide (S >= eoc_len_min rs)
           && bool_decide (S ≤ eoc_len_max rs)
        then
          '(rec, out) ← cw_rec_poll_representation_eoc_internal rs S;
          Some (rec, CW_SUCCESS out)
        else if bool_decide (S > eoc_len_max rs)
        then
          '(rec, out) ← cw_rec_poll_representation_eow_internal rs;
          Some (rec, CW_SUCCESS out)
        else Some (rs, CW_FAILURE EAGAIN)).
  { unfold cw_rec_poll_representation_internal.
    rewrite Hstate, Hvalid. cbn [bool_decide decide_rel orb].
    fold S. destruct (bool_decide (S = INT_MAX)); [reflexivity |].
    rewrite Hsync; reflexivity. }
  rewrite Hpoll; clear Hpoll.
  assert (Hcopy : ∀ r,
    representation r = representation rec →
    representation_ind r = representation_ind rec →
    ∃ r', copy_representation_out r = Some (r', buffered_representation rec)
          ∧ state r' = state r).
  { intros r Hr1 Hr2. eexists. split.
    - rewrite copy_representation_out_defined.
      + unfold buffered_representation. rewrite Hr1, Hr2. reflexivity.
      + rewrite Hr1; exact Hlen.
      + rewrite Hr2; exact Hind.
      + unfold buffered_representation. rewrite Hr1, Hr2. exact Hall.
    - reflexivity. }
  split; [| split; [| split]].
  - intros HS. rewrite bool_decide_eq_true_2 by exact HS. reflexivity.
  - intros HS Hrange.
    rewrite bool_decide_eq_false_2 by exact HS.
    rewrite (bool_decide_eq_true_2 (S >= eoc_len_min rs)) by lia.
    rewrite (bool_decide_eq_true_2 (S ≤ eoc_len_max rs)) by lia.
    cbn [andb].
    unfold cw_rec_poll_representation_eoc_internal.
    rewrite Hst, Hstate. decide_states.
    destruct (update_stats_defined rs CW_REC_STAT_ICHAR_SPACE S Hin)
      as (stats & ind & ->); [rewrite Hstats, Hsi; exact Hstat |].
    cbn [mbind option_bind].
    destruct (Hcopy (set_state RS_EOC_GAP
                       (set_statistics_ind ind (set_statistics stats rs))))
      as (r' & -> & Hst'); [exact Hrep | exact Hri |].
    cbn. exists r'. split; [reflexivity | exact Hst'].
  - intros HS Hlong.
    rewrite bool_decide_eq_false_2 by exact HS.
    rewrite (bool_decide_eq_false_2 (S ≤ eoc_len_max rs)) by lia.
    rewrite andb_false_r.
    rewrite (bool_decide_eq_true_2 (S > eoc_len_max rs)) by lia.
    unfold cw_rec_poll_representation_eow_internal.
    rewrite Hst, Hstate. decide_states.
    cbn [mbind option_bind].
    destruct (Hcopy (set_state RS_EOW_GAP rs))
      as (r' & -> & Hst'); [exact Hrep | exact Hri |].
    cbn. exists r'. split; [reflexivity | exact Hst'].
  - intros HS Hshort Hle.
    rewrite bool_decide_eq_false_2 by exact HS.
    rewrite (bool_decide_eq_false_2 (S >= eoc_len_min rs)) by lia.
    cbn [andb].
    rewrite (bool_decide_eq_false_2 (S > eoc_len_max rs)) by lia.
    split; [reflexivity | congruence].
Qed.

Lemma add_mark_step
    (rec : cw_rec_t) (timestamp : option timeval) (t : timeval)
    (mark : ascii) :
  timestamp_validate timestamp = CW_SUCCESS t →
  Z.of_nat (length (representation rec))
  = CW_REC_REPRESENTATION_CAPACITY + 1 →
  0 ≤ representation_ind rec < CW_REC_REPRESENTATION_CAPACITY →
  state rec = RS_IDLE ∨ state rec = RS_SPACE →
  let full :=
    bool_decide (representation_ind rec + 1
                 = CW_REC_REPRESENTATION_CAPACITY - 1) in
  ∃ rec',
    add_mark rec timestamp mark
    = Some (rec', if full then CW_FAILURE ENOMEM else CW_SUCCESS tt)
    ∧ state rec' = (if full then RS_EOC_GAP_ERR else RS_SPACE)
    ∧ representation_ind rec' = representation_ind rec + 1
    ∧ representation rec'
      = <[Z.to_nat (representation_ind rec) := mark]> (representation rec)
    ∧ mark_end rec' = t.
Proof.
  intros Hvalid Hlen Hind Hstate full.
  unfold cw_rec_add_mark_internal.
  replace (bool_decide (state rec ≠ RS_IDLE)
           && bool_decide (state rec ≠ RS_SPACE)) with false
    by (destruct Hstate as [-> | ->]; reflexivity).
  rewrite Hvalid.
  cbn [representation representation_ind set_mark_end].
  unfold array_set. 
  unfold CW_REC_REPRESENTATION_CAPACITY in *.
  rewrite bool_decide_eq_true_2 by lia.
  cbn.
  rewrite int_add_id by int_range.
  fold full. destruct full; eexists; (split; [reflexivity |]);
    repeat split.
Qed.
Lemma mark_end_step
    (rec r1 rec' : cw_rec_t) (timestamp : option timeval) (t : timeval)
    (mark : ascii) (status : cw_ret unit) :
  state rec = RS_MARK →
  timestamp_validate timestamp = CW_SUCCESS t →
  let mark_len := timestamp_compare (mark_start rec) t in
  ¬ (noise_spike_threshold rec > 0
     ∧ mark_len ≤ noise_spike_threshold rec) →
  cw_rec_identify_mark_internal (set_mark_end t rec) mark_len
  = Some (r1, CW_SUCCESS mark) →
  0 ≤ representation_ind rec < CW_REC_REPRESENTATION_CAPACITY →
  mark_end_ rec timestamp = Some (rec', status) →
  let full :=
    bool_decide (representation_ind rec + 1
                 = CW_REC_REPRESENTATION_CAPACITY - 1) in
  status = (if full then CW_FAILURE ENOMEM else CW_SUCCESS tt)
  ∧ state rec' = (if full then RS_EOC_GAP_ERR else RS_SPACE)
  ∧ representation_ind rec' = representation_ind rec + 1
  ∧ representation rec'
    = <[Z.to_nat (representation_ind rec) := mark]> (representation rec)
  ∧ mark_end rec' = t.
Proof.
  intros Hstate Hvalid mark_len Hnoise Hid Hind Hrun full.
  unfold cw_rec_mark_end_internal in Hrun.
  rewrite Hstate, Hvalid in Hrun.
  change (bool_decide (RS_MARK ≠ RS_MARK)) with false in Hrun.
  cbv iota in Hrun.
  cbn [mark_start mark_end set_mark_end noise_spike_threshold] in Hrun.
  fold mark_len in Hrun.
  replace (bool_decide (noise_spike_threshold rec > 0)
           && bool_decide (mark_len ≤ noise_spike_threshold rec))
    with false in Hrun.
  2: { symmetry. apply andb_false_iff.
       destruct (decide (noise_spike_threshold rec > 0)) as [H1 | H1];
         [right | left]; apply bool_decide_eq_false_2; tauto. }
  rewrite Hid in Hrun. cbn [mbind option_bind] in Hrun.
  apply identify_mark_buffer_frame in Hid as [Hf1 _].
  destruct (if is_adaptive_receive_mode r1
            then cw_rec_update_averages_internal r1 mark_len mark
            else Some r1) as [r2 |] eqn:H2; [| discriminate].
  cbn [mbind option_bind] in Hrun.
  assert (Hf2 : buffer_frame r1 r2).
  { destruct (is_adaptive_receive_mode r1).
    - eapply update_averages_buffer_frame; exact H2.
    - injection H2 as <-; apply buffer_frame_refl. }
  destruct (if Ascii.eqb mark CW_DOT_REPRESENTATION
            then cw_rec_update_stats_internal r2 CW_REC_STAT_DOT mark_len
            else cw_rec_update_stats_internal r2 CW_REC_STAT_DASH mark_len)
    as [r3 |] eqn:H3; [| discriminate].
  cbn [mbind option_bind] in Hrun.
  assert (Hf3 : buffer_frame r2 r3).
  { destruct (Ascii.eqb mark CW_DOT_REPRESENTATION);
      eapply update_stats_buffer_frame; exact H3. }
  pose proof (buffer_frame_trans _ _ _ Hf1
                (buffer_frame_trans _ _ _ Hf2 Hf3))
    as (_ & Hrep & Hri & _ & Hme & _).
  cbn in Hrep, Hri, Hme.
  unfold array_set in Hrun.
  destruct (bool_decide
              (0 ≤ representation_ind r3
               < Z.of_nat (length (representation r3))));
    [| discriminate].
  cbn in Hrun. rewrite Hri, Hrep in Hrun.
  unfold CW_REC_REPRESENTATION_CAPACITY in *.
  rewrite int_add_id in Hrun by int_range.
  fold full in Hrun.
  destruct full; injection Hrun as <- <-; cbn; auto.
Qed.

Lemma mark_end_fixed_defined
    (rec : cw_rec_t) (timestamp : option timeval) (t : timeval) :
  state rec = RS_MARK →
  timestamp_validate timestamp = CW_SUCCESS t →
  let mark_len := timestamp_compare (mark_start rec) t in
  ¬ (noise_spike_threshold rec > 0
     ∧ mark_len ≤ noise_spike_threshold rec) →
  parameters_in_sync rec = true →
  is_adaptive_receive_mode rec = false →
  dot_len_min rec ≤ mark_len ≤ dot_len_max rec
  ∨ dash_len_min rec ≤ mark_len ≤ dash_len_max rec →
  0 ≤ statistics_ind rec < Z.of_nat (length (statistics rec)) →
  Z.of_nat (length (representation rec))
  = CW_REC_REPRESENTATION_CAPACITY + 1 →
  0 ≤ representation_ind rec < CW_REC_REPRESENTATION_CAPACITY →
  ∃ mark,
    cw_rec_identify_mark_internal (set_mark_end t rec) mark_len
    = Some (set_mark_end t rec, CW_SUCCESS mark)
    ∧ mark = (if bool_decide (dot_len_min rec ≤ mark_len ≤ dot_len_max rec)
              then CW_DOT_REPRESENTATION else CW_DASH_REPRESENTATION)
    ∧ ∃ rec' status, mark_end_ rec timestamp = Some (rec', status).
Proof.
  intros Hstate Hvalid mark_len Hnoise Hsync Had Hrange Hstat Hlen Hind.
  destruct (identify_mark_cases (set_mark_end t rec) mark_len)
    as (Hdot & Hdash & _); [exact Hsync |].
  cbn in Hdot, Hdash.
  set (mark := if bool_decide (dot_len_min rec ≤ mark_len ≤ dot_len_max rec)
               then CW_DOT_REPRESENTATION else CW_DASH_REPRESENTATION).
  assert (Hid :
    cw_rec_identify_mark_internal (set_mark_end t rec) mark_len
    = Some (set_mark_end t rec, CW_SUCCESS mark)).
  { unfold mark; case_bool_decide as Hd.
    - apply Hdot; exact Hd.
    - apply Hdash; [exact Hd | tauto]. }
  exists mark. split; [exact Hid | split; [reflexivity |]].
  unfold cw_rec_mark_end_internal.
  rewrite Hstate, Hvalid.
  change (bool_decide (RS_MARK ≠ RS_MARK)) with false.
  cbv iota.
  cbn [mark_start mark_end set_mark_end noise_spike_threshold].
  fold mark_len.
  replace (bool_decide (noise_spike_threshold rec > 0)
           && bool_decide (mark_len ≤ noise_spike_threshold rec))
    with false.
  2: { symmetry. apply andb_false_iff.
       destruct (decide (noise_spike_threshold rec > 0)) as [H1 | H1];
         [right | left]; apply bool_decide_eq_false_2; tauto. }
  rewrite Hid. cbn [mbind option_bind].
  cbn [is_adaptive_receive_mode set_mark_end]. rewrite Had.
  cbn [mbind option_bind].
  assert (Hstats : ∀ type,
    ∃ stats ind,
      cw_rec_update_stats_internal (set_mark_end t rec) type mark_len
      = Some (set_statistics_ind ind
                (set_statistics stats (set_mark_end t rec)))).
  { intros type; apply update_stats_defined; [exact Hsync | exact Hstat]. }
  destruct (Hstats CW_REC_STAT_DOT) as (s1 & i1 & ->).
  destruct (Hstats CW_REC_STAT_DASH) as (s2 & i2 & ->).
  unfold array_set, CW_REC_REPRESENTATION_CAPACITY in *.
  destruct (Ascii.eqb mark CW_DOT_REPRESENTATION); cbn;
    rewrite (bool_decide_eq_true_2
               (0 ≤ representation_ind rec
                < Z.of_nat (length (representation rec)))) by lia; cbn;
    match goal with
    | |- context [bool_decide ?P] => destruct (bool_decide P)
    end; eexists; eexists; reflexivity.
Qed.
Lemma poll_after_overflow
    (rec rs : cw_rec_t) (timestamp : option timeval) (now : timeval) :
  state rec = RS_EOC_GAP_ERR →
  timestamp_validate timestamp = CW_SUCCESS now →
  cw_rec_sync_parameters_internal rec = Some rs →
  Z.of_nat (length (representation rec))
  = CW_REC_REPRESENTATION_CAPACITY + 1 →
  0 ≤ representation_ind rec ≤ CW_REC_REPRESENTATION_CAPACITY →
  Forall (λ c, c ≠ zero) (buffered_representation rec) →
  let S := timestamp_compare (mark_end rec) now in
  S ≠ INT_MAX →
  (eoc_len_min rs ≤ S ∨ eoc_len_max rs < S →
   ∃ rec',
     poll rec timestamp
     = Some (rec',
             CW_SUCCESS
               {| out_representation := buffered_representation rec;
                  out_is_end_of_word := bool_decide (S > eoc_len_max rs);
                  out_is_error := true |})
     ∧ state rec' = (if bool_decide (S > eoc_len_max rs)
                     then RS_EOW_GAP_ERR else RS_EOC_GAP_ERR))
  ∧ (S < eoc_len_min rs ∧ S ≤ eoc_len_max rs →
     poll rec timestamp = Some (rs, CW_FAILURE EAGAIN)).
Proof.
  intros Hstate Hvalid Hsync Hlen Hind Hall S HS.
  pose proof (sync_preserves _ _ Hsync)
    as (Hst & _ & _ & _ & _ & _ & _ & Hrep & Hri & _).
  assert (Hpoll :
    poll rec timestamp
    = if bool_decide (S >= eoc_len_min rs)
         && bool_decide (S ≤ eoc_len_max rs)
      then
        '(rec, out) ← cw_rec_poll_representation_eoc_internal rs S;
        Some (rec, CW_SUCCESS out)
      else if bool_decide (S > eoc_len_max rs)
      then
        '(rec, out) ← cw_rec_poll_representation_eow_internal rs;
        Some (rec, CW_SUCCESS out)
      else Some (rs, CW_FAILURE EAGAIN)).
  { unfold cw_rec_poll_representation_internal.
    rewrite Hstate, Hvalid. decide_states.
    fold S. rewrite (bool_decide_eq_false_2 (S = INT_MAX)) by exact HS.
    rewrite Hsync; reflexivity. }
  rewrite Hpoll; clear Hpoll.
  assert (Hcopy : ∀ r,
    representation r = representation rec →
    representation_ind r = representation_ind rec →
    ∃ r', copy_representation_out r = Some (r', buffered_representation rec)
          ∧ state r' = state r).
  { intros r Hr1 Hr2. eexists. split.
    - rewrite copy_representation_out_defined.
      + unfold buffered_representation. rewrite Hr1, Hr2. reflexivity.
      + rewrite Hr1; exact Hlen.
      + rewrite Hr2; exact Hind.
      + unfold buffered_representation. rewrite Hr1, Hr2. exact Hall.
    - reflexivity. }
  split.
  - intros Hlate.
    destruct (decide (S > eoc_len_max rs)) as [Hw | Hc].
    + rewrite (bool_decide_eq_false_2 (S ≤ eoc_len_max rs)) by lia.
      rewrite andb_false_r.
      rewrite (bool_decide_eq_true_2 (S > eoc_len_max rs)) by exact Hw.
      unfold cw_rec_poll_representation_eow_internal.
      rewrite Hst, Hstate. decide_states. cbn [mbind option_bind].
      destruct (Hcopy (set_state RS_EOW_GAP_ERR rs))
        as (r' & -> & Hst'); [exact Hrep | exact Hri |].
      cbn. exists r'. split; [reflexivity | exact Hst'].
    + rewrite (bool_decide_eq_true_2 (S >= eoc_len_min rs)) by lia.
      rewrite (bool_decide_eq_true_2 (S ≤ eoc_len_max rs)) by lia.
      rewrite (bool_decide_eq_false_2 (S > eoc_len_max rs)) by exact Hc.
      cbn [andb].
      unfold cw_rec_poll_representation_eoc_internal.
      rewrite Hst, Hstate. decide_states. cbn [mbind option_bind].
      destruct (Hcopy rs) as (r' & -> & Hst'); [exact Hrep | exact Hri |].
      cbn. rewrite Hst, Hstate. decide_states.
      exists r'. split; [reflexivity | congruence].
  - intros [Hshort Hle].
    rewrite (bool_decide_eq_false_2 (S >= eoc_len_min rs)) by lia.
    cbn [andb].
    rewrite (bool_decide_eq_false_2 (S > eoc_len_max rs)) by lia.
    reflexivity.
Qed.

Lemma add_marks_below_capacity
    (marks : list (option timeval * ascii)) (rec : cw_rec_t) :
  Forall (λ m, ∃ t, timestamp_validate m.1 = CW_SUCCESS t) marks →
  Z.of_nat (length (representation rec))
  = CW_REC_REPRESENTATION_CAPACITY + 1 →
  state rec = RS_IDLE ∨ state rec = RS_SPACE →
  0 ≤ representation_ind rec →
  representation_ind rec + Z.of_nat (length marks)
  < CW_REC_REPRESENTATION_CAPACITY - 1 →
  ∃ rec',
    add_marks timestamp_validate rec marks
    = Some (rec', replicate (length marks) (CW_SUCCESS tt))
    ∧ (state rec' = RS_IDLE ∨ state rec' = RS_SPACE)
    ∧ representation_ind rec'
      = representation_ind rec + Z.of_nat (length marks)
    ∧ Z.of_nat (length (representation rec'))
      = CW_REC_REPRESENTATION_CAPACITY + 1
    ∧ buffered_representation rec'
      = buffered_representation rec ++ marks.*2.
Proof.
  revert rec; induction marks as [| [timestamp mark] marks IH];
    intros rec Hvalid Hlen Hstate Hind Hroom.
  - exists rec. cbn. rewrite app_nil_r.
    repeat split; [exact Hstate | lia | exact Hlen].
  - inversion Hvalid as [| ? ? [t Ht] Hvalid']; subst.
    cbn [length] in Hroom. cbn [fst] in Ht.
    destruct (add_mark_step rec timestamp t mark Ht Hlen)
      as (r1 & Hadd & Hst1 & Hind1 & Hrep1 & _);
      [unfold CW_REC_REPRESENTATION_CAPACITY in *; lia | exact Hstate |].
    rewrite bool_decide_eq_false_2 in Hadd, Hst1 by lia.
    destruct (IH r1) as (rec' & Hrun & Hst' & Hind' & Hlen' & Hbuf');
      [exact Hvalid' | | right; exact Hst1 | lia | lia |].
    { rewrite Hrep1, length_insert; exact Hlen. }
    exists rec'. cbn [add_marks]. rewrite Hadd. cbn [mbind option_bind].
    rewrite Hrun. cbn.
    split; [reflexivity |].
    split; [exact Hst' |].
    split; [lia |].
    split; [exact Hlen' |].
    rewrite Hbuf'. unfold buffered_representation.
    rewrite Hrep1, Hind1.
    replace (Z.to_nat (representation_ind rec + 1))
      with (S (Z.to_nat (representation_ind rec))) by lia.
    unfold CW_REC_REPRESENTATION_CAPACITY in *.
    rewrite take_S_r with (x := mark)
      by (apply list_lookup_insert_eq; lia).
    rewrite take_insert_ge by lia.
    rewrite <- app_assoc. reflexivity.
Qed.


#[local] Ltac decide_states_in H :=
  repeat match type of H with
    | context [@bool_decide ?P ?d] =>
        let v := eval vm_compute in (@bool_decide P d) in
        match v with
        | true => idtac
        | false => idtac
        end;
        change (@bool_decide P d) with v in H
    end;
  cbn [orb andb negb] in H.

Lemma mark_begin_buffer_invariant
    (rec rec' : cw_rec_t) (timestamp : option timeval)
    (status : cw_ret unit) :
  mark_begin rec timestamp = Some (rec', status) →
  buffer_invariant rec → buffer_invariant rec'.
Proof.
  intros H Hinv.
  destruct status as [[] | e].
  - apply mark_begin_success in H
      as (Hst & Hst' & Hr & Hi & _).
    destruct Hinv as (Hl & Hb & Hroom & _).
    unfold buffer_invariant, state_matches_buffer.
    rewrite Hst', Hr, Hi.
    split; [exact Hl |]. split; [exact Hb |].
    split; [intros _; apply Hroom; tauto |].
    split; discriminate.
  - unfold cw_rec_mark_begin_internal in H.
    destruct (_ && _); [injection H as <-; exact Hinv |].
    destruct (timestamp_validate timestamp);
      [| injection H as <-; exact Hinv].
    destruct (if bool_decide _ then _ else _); discriminate.
Qed.

Lemma add_mark_buffer_invariant
    (rec rec' : cw_rec_t) (timestamp : option timeval) (mark : ascii)
    (status : cw_ret unit) :
  add_mark rec timestamp mark = Some (rec', status) →
  buffer_invariant rec → buffer_invariant rec'.
Proof.
  intros H Hinv.
  pose proof Hinv as (Hl & Hb & Hroom & _).
  unfold cw_rec_add_mark_internal in H.
  destruct (bool_decide (state rec ≠ RS_IDLE)
            && bool_decide (state rec ≠ RS_SPACE)) eqn:Hst;
    [injection H as <-; exact Hinv |].
  assert (Hstate : state rec = RS_IDLE ∨ state rec = RS_SPACE).
  { destruct (state rec); auto; discriminate. }
  destruct (timestamp_validate timestamp) as [t | e] eqn:Hvalid;
    [| injection H as <-; exact Hinv].
  assert (Hi : 0 ≤ representation_ind rec < CW_REC_REPRESENTATION_CAPACITY).
  { unfold CW_REC_REPRESENTATION_CAPACITY in *.
    split; [lia |]. 
    assert (representation_ind rec < 256 - 1) by (apply Hroom; tauto). lia. }
  destruct (add_mark_step rec timestamp t mark Hvalid Hl Hi Hstate)
    as (r1 & Hadd & Hst1 & Hi1 & Hr1 & _).
  unfold cw_rec_add_mark_internal in Hadd.
  rewrite Hst, Hvalid in Hadd. rewrite Hadd in H. injection H as <- _.
  unfold buffer_invariant, state_matches_buffer.
  rewrite Hst1, Hi1, Hr1, length_insert.
  unfold CW_REC_REPRESENTATION_CAPACITY in *.
  split; [exact Hl |].
  case_bool_decide as Hfull.
  - split; [lia |]. split; [| split]; intros Hs; try discriminate.
    destruct Hs as [Hs | [Hs | Hs]]; discriminate.
  - assert (representation_ind rec < 256 - 1) by (apply Hroom; tauto).
    split; [lia |]. split; [intros _; lia |].
    split; [discriminate | intros _; lia].
Qed.

Lemma mark_end_buffer_invariant
    (rec rec' : cw_rec_t) (timestamp : option timeval)
    (status : cw_ret unit) :
  mark_end_ rec timestamp = Some (rec', status) →
  buffer_invariant rec → buffer_invariant rec'.
Proof.
  intros H Hinv.
  pose proof Hinv as (Hl & Hb & Hroom & _).
  pose proof H as Hrun.
  unfold cw_rec_mark_end_internal in H.
  destruct (bool_decide (state rec ≠ RS_MARK)) eqn:Hst;
    [injection H as <-; exact Hinv |].
  assert (Hstate : state rec = RS_MARK).
  { destruct (state rec); auto; discriminate. }
  assert (Hi : 0 ≤ representation_ind rec < CW_REC_REPRESENTATION_CAPACITY).
  { unfold CW_REC_REPRESENTATION_CAPACITY in *.
    split; [lia |].
    assert (representation_ind rec < 256 - 1) by (apply Hroom; tauto). lia. }
  destruct (timestamp_validate timestamp) as [t | e] eqn:Hvalid;
    [| injection H as <-; exact Hinv].
  cbn [mark_start mark_end set_mark_end noise_spike_threshold
         representation_ind] in H.
  destruct (bool_decide (noise_spike_threshold rec > 0)
            && bool_decide (timestamp_compare (mark_start rec) t
                            ≤ noise_spike_threshold rec)) eqn:Hnoise.
  { injection H as <- _.
    unfold buffer_invariant, state_matches_buffer; cbn.
    unfold CW_REC_REPRESENTATION_CAPACITY in *.
    assert (representation_ind rec < 256 - 1) by (apply Hroom; tauto).
    split; [exact Hl |]. split; [lia |]. split; [intros _; lia |].
    case_bool_decide; split; intros; try discriminate; auto. }
  destruct (cw_rec_identify_mark_internal _ _) as [[r1 [mark | e]] |] eqn:Hid;
    cbn [mbind option_bind] in H; [| | discriminate].
  - assert (Hn : ¬ (noise_spike_threshold rec > 0
                    ∧ timestamp_compare (mark_start rec) t
                      ≤ noise_spike_threshold rec)).
    { intros [H1 H2]. apply andb_false_iff in Hnoise as [Hf | Hf];
        apply bool_decide_eq_false_1 in Hf; contradiction. }
    destruct (mark_end_step rec r1 rec' timestamp t mark status Hstate Hvalid
                Hn Hid Hi Hrun) as (_ & Hst' & Hi' & Hr' & _).
    unfold buffer_invariant, state_matches_buffer.
    rewrite Hst', Hi', Hr', length_insert.
    unfold CW_REC_REPRESENTATION_CAPACITY in *.
    split; [exact Hl |].
    case_bool_decide as Hfull.
    + split; [lia |]. split; [| split]; intros Hs; try discriminate.
      destruct Hs as [Hs | [Hs | Hs]]; discriminate.
    + assert (representation_ind rec < 256 - 1) by (apply Hroom; tauto).
      split; [lia |]. split; [intros _; lia |].
      split; [discriminate | intros _; lia].
  - injection H as <- _.
    apply identify_mark_failure in Hid as (Hs1 & Hr1 & Hi1 & _).
    cbn in Hr1, Hi1.
    apply (buffer_invariant_gap rec r1 Hinv); [tauto | exact Hi1 |].
    rewrite Hr1; reflexivity.
Qed.

Lemma poll_buffer_invariant
    (rec rec' : cw_rec_t) (timestamp : option timeval)
    (status : cw_ret poll_result) :
  poll rec timestamp = Some (rec', status) →
  buffer_invariant rec → buffer_invariant rec'.
Proof.
  intros H Hinv.
  assert (Heow : ∀ r r' out,
    cw_rec_poll_representation_eow_internal r = Some (r', out) →
    (state r' = state r ∧ (state r = RS_EOW_GAP ∨ state r = RS_EOW_GAP_ERR)
     ∨ state r' = RS_EOW_GAP ∨ state r' = RS_EOW_GAP_ERR)
    ∧ representation_ind r' = representation_ind r
    ∧ length (representation r') = length (representation r)).
  { intros r r' out He.
    unfold cw_rec_poll_representation_eow_internal in He.
    destruct (state r) eqn:Hs; decide_states_in He; cbn in He;
      try discriminate.
    all: destruct (copy_representation_out _) as [[r2 o] |] eqn:Hc;
      [| discriminate]; cbn in He; injection He as <- _.
    all: apply copy_representation_out_frame in Hc as (Hs2 & Hi2 & Hl2).
    all: cbn in Hs2, Hi2, Hl2; rewrite ?Hs in Hs2; auto. }
  assert (Heoc : ∀ r r' out S,
    cw_rec_poll_representation_eoc_internal r S = Some (r', out) →
    (state r' = RS_EOC_GAP ∨ state r' = RS_EOC_GAP_ERR)
    ∧ representation_ind r' = representation_ind r
    ∧ length (representation r') = length (representation r)).
  { intros r r' out S He.
    unfold cw_rec_poll_representation_eoc_internal in He.
    destruct (state r) eqn:Hs; decide_states_in He; cbn in He;
      try discriminate.
    - destruct (cw_rec_update_stats_internal _ _ _) as [r1 |] eqn:Hu;
        [| discriminate].
      cbn in He.
      apply update_stats_buffer_frame in Hu as (_ & Hr1 & Hi1 & _).
      destruct (copy_representation_out _) as [[r2 o] |] eqn:Hc;
        [| discriminate]; cbn in He; injection He as <- _.
      apply copy_representation_out_frame in Hc as (Hs2 & Hi2 & Hl2).
      cbn in Hs2, Hi2, Hl2. rewrite Hs2, Hi2, Hl2, Hi1, Hr1. auto.
    - destruct (copy_representation_out _) as [[r2 o] |] eqn:Hc;
        [| discriminate]; cbn in He; injection He as <- _.
      apply copy_representation_out_frame in Hc as (Hs2 & Hi2 & Hl2).
      rewrite Hs in Hs2. auto.
    - destruct (copy_representation_out _) as [[r2 o] |] eqn:Hc;
        [| discriminate]; cbn in He; injection He as <- _.
      apply copy_representation_out_frame in Hc as (Hs2 & Hi2 & Hl2).
      rewrite Hs in Hs2. auto. }
  unfold cw_rec_poll_representation_internal in H.
  destruct (bool_decide (state rec = RS_EOW_GAP)
            || bool_decide (state rec = RS_EOW_GAP_ERR)).
  { destruct (cw_rec_poll_representation_eow_internal rec)
      as [[r1 o] |] eqn:He; [| discriminate].
    cbn in H; injection H as <- _.
    apply Heow in He as (Hs & Hi & Hl).
    destruct Hs as [[Hs _] | Hs].
    - apply (buffer_invariant_same rec r1 Hinv Hs Hi Hl).
    - apply (buffer_invariant_gap rec r1 Hinv); [tauto | exact Hi | exact Hl]. }
  destruct (bool_decide (state rec = RS_IDLE)
            || bool_decide (state rec = RS_MARK));
    [injection H as <- _; exact Hinv |].
  destruct (timestamp_validate timestamp) as [now | e];
    [| injection H as <- _; exact Hinv].
  destruct (bool_decide (_ = INT_MAX)); [injection H as <- _; exact Hinv |].
  destruct (cw_rec_sync_parameters_internal rec) as [rs |] eqn:Hsync;
    [| discriminate].
  cbn [mbind option_bind] in H.
  apply sync_buffer_frame in Hsync.
  pose proof (buffer_invariant_frame rec rs Hinv Hsync) as Hinvs.
  destruct (_ && _).
  - destruct (cw_rec_poll_representation_eoc_internal rs _)
      as [[r1 o] |] eqn:He; [| discriminate].
    cbn in H; injection H as <- _.
    apply Heoc in He as (Hs & Hi & Hl).
    apply (buffer_invariant_gap rs r1 Hinvs); [tauto | exact Hi | exact Hl].
  - destruct (bool_decide (_ > _)).
    + destruct (cw_rec_poll_representation_eow_internal rs)
        as [[r1 o] |] eqn:He; [| discriminate].
      cbn in H; injection H as <- _.
      apply Heow in He as (Hs & Hi & Hl).
      destruct Hs as [[Hs _] | Hs].
      * apply (buffer_invariant_same rs r1 Hinvs Hs Hi Hl).
      * apply (buffer_invariant_gap rs r1 Hinvs);
          [tauto | exact Hi | exact Hl].
    + injection H as <- _; exact Hinvs.
Qed.

(** Every receiver that calls of the interface lead to has its
    representation buffer in order; in particular its state agrees with
    the number of marks buffered, which is what the rollback of a noise
    spike relies on. *)
Lemma reachable_buffer_invariant (rec : cw_rec_t) :
  reachable timestamp_validate timestamp_compare rec →
  buffer_invariant rec.
Proof.
  unfold reachable; revert rec.
  apply (rtc_ind_r buffer_invariant cw_receiver).
  - unfold buffer_invariant, state_matches_buffer; cbn.
    repeat split; try discriminate; try reflexivity.
  - intros r r' _ Hstep Hinv.
    destruct Hstep.
    + eapply buffer_invariant_frame; [exact Hinv |].
      eapply setter_buffer_frame; eauto.
    + eapply buffer_invariant_frame; [exact Hinv |].
      eapply setter_buffer_frame; eauto.
    + eapply buffer_invariant_frame; [exact Hinv |].
      eapply setter_buffer_frame; eauto.
    + unfold cw_set_noise_spike_threshold.
      destruct (bool_decide _); [exact Hinv |].
      apply (buffer_invariant_same r); auto.
    + eapply buffer_invariant_frame; [exact Hinv |].
      apply sync_buffer_frame; assumption.
    + apply (buffer_invariant_same r); auto.
    + apply (buffer_invariant_same r); auto.
    + eapply set_adaptive_buffer_invariant; eauto.
    + eapply mark_begin_buffer_invariant; eauto.
    + eapply mark_end_buffer_invariant; eauto.
    + eapply add_mark_buffer_invariant; eauto.
    + eapply add_mark_buffer_invariant; eauto.
    + eapply poll_buffer_invariant; eauto.
    + unfold buffer_invariant, state_matches_buffer; cbn.
      destruct Hinv as (Hl & _).
      repeat split; try discriminate; try reflexivity; exact Hl.
    + unfold buffer_invariant, state_matches_buffer; cbn.
      destruct Hinv as (Hl & _).
      repeat split; try discriminate; try reflexivity; exact Hl.
Qed.

(** In every reachable receiver a mark that turns out to be a noise spike
    leaves the state, the buffer and the end of mark timestamp as they were
    before the mark began. *)
Lemma noise_rollback_reachable
    (rec0 rec : cw_rec_t) (timestamp0 timestamp : option timeval)
    (t : timeval) :
  reachable timestamp_validate timestamp_compare rec0 →
  mark_begin rec0 timestamp0 = Some (rec, CW_SUCCESS tt) →
  timestamp_validate timestamp = CW_SUCCESS t →
  noise_spike_threshold rec > 0 →
  timestamp_compare (mark_start rec) t ≤ noise_spike_threshold rec →
  ∃ rec',
    mark_end_ rec timestamp = Some (rec', CW_FAILURE EAGAIN)
    ∧ state rec' = state rec0
    ∧ representation_ind rec' = representation_ind rec0
    ∧ representation rec' = representation rec0
    ∧ mark_end rec' = mark_end rec0.
Proof.
  intros Hreach Hbegin Hvalid Hthr Hlen.
  pose proof (reachable_buffer_invariant rec0 Hreach) as (_ & _ & _ & Hm).
  pose proof (mark_begin_success _ _ _ Hbegin) as (_ & Hstate & _).
  exact (proj2 (mark_end_noise rec timestamp t Hstate Hvalid Hthr Hlen)
               rec0 timestamp0 Hm Hbegin).
Qed.
End ReceivingProperties.

(** ** The statements on the receivers of the library *)

(** A mark of 5 ms on the initial receiver. *)
Lemma mark_end_noise_rollback_witness :
  ∃ rec',
    cw_rec_mark_end_internal
      (cw_timestamp_validate_internal (usecs 0)) cw_timestamp_compare_internal
      (set_state RS_MARK (set_mark_start (usecs 1000000) cw_receiver))
      (Some (usecs 1005000))
    = Some (rec', CW_FAILURE EAGAIN)
    ∧ state rec' = state cw_receiver
    ∧ representation_ind rec' = representation_ind cw_receiver
    ∧ representation rec' = representation cw_receiver
    ∧ mark_end rec' = mark_end cw_receiver.
Proof.
  refine (proj2 (mark_end_noise_rollback
            (cw_timestamp_validate_internal (usecs 0))
            cw_timestamp_compare_internal
            (set_state RS_MARK (set_mark_start (usecs 1000000) cw_receiver))
            (Some (usecs 1005000)) (usecs 1005000) _ _ _ _)
            cw_receiver (Some (usecs 1000000)) _ _).
  - reflexivity.
  - reflexivity.
  - reflexivity.
  - vm_compute; discriminate.
  - split; [reflexivity | discriminate].
  - vm_compute; reflexivity.
Defined.

Lemma dot_receiver_buffered :
  cw_receive_buffer_dot (cw_timestamp_validate_internal (usecs 0))
                        cw_receiver (Some (usecs 0))
  = Some (dot_receiver, CW_SUCCESS tt).
Proof. vm_compute. reflexivity. Qed.

(** A poll 300 ms after the dot, at 12 WPM. *)
Lemma poll_representation_space_classification_witness :
  ∃ rec',
    cw_rec_poll_representation_internal
      (cw_timestamp_validate_internal (usecs 0)) cw_timestamp_compare_internal
      dot_receiver (Some (usecs 300000))
    = Some (rec',
            CW_SUCCESS
              {| out_representation := buffered_representation dot_receiver;
                 out_is_end_of_word := false;
                 out_is_error := false |})
    ∧ state rec' = RS_EOC_GAP.
Proof.
  assert (Hsync :
    cw_rec_sync_parameters_internal dot_receiver
    = Some (default dot_receiver
              (cw_rec_sync_parameters_internal dot_receiver)))
    by (vm_compute; reflexivity).
  refine (proj1 (proj2 (proj2
            (poll_representation_space_classification
               (cw_timestamp_validate_internal (usecs 0))
               cw_timestamp_compare_internal dot_receiver _
               (Some (usecs 300000)) (usecs 300000) _ Hsync _ _ _ _) _)) _ _).
  - reflexivity.
  - reflexivity.
  - vm_compute; split; discriminate.
  - vm_compute. repeat constructor; discriminate.
  - vm_compute; split; [discriminate | reflexivity].
  - reflexivity.
  - vm_compute; discriminate.
  - vm_compute; split; discriminate.
Defined.

(** C2 as stated fails in two places.  A poll during a mark fails with
    ERANGE, the error of a call in the wrong state, not with EAGAIN.  And a
    poll in the space state exactly [INT_MAX] microseconds after the end of
    the mark, far above [eoc_len_max], fails with EAGAIN and leaves the
    receiver in the space state. *)
Lemma poll_representation_counterexample :
  (∃ rec,
     cw_rec_mark_begin_internal
       (cw_timestamp_validate_internal (usecs 0))
       cw_timestamp_compare_internal cw_receiver (Some (usecs 0))
     = Some (rec, CW_SUCCESS tt)
     ∧ state rec = RS_MARK
     ∧ cw_rec_poll_representation_internal
         (cw_timestamp_validate_internal (usecs 0))
         cw_timestamp_compare_internal rec (Some (usecs 300000))
       = Some (rec, CW_FAILURE ERANGE))
  ∧ state dot_receiver = RS_SPACE
  ∧ mark_end dot_receiver = {| tv_sec := 0; tv_usec := 0 |}
  ∧ cw_timestamp_compare_internal
      (mark_end dot_receiver) {| tv_sec := 2147; tv_usec := 483647 |}
    = 2147483647
  ∧ (∃ rs,
       cw_rec_sync_parameters_internal dot_receiver = Some rs
       ∧ eoc_len_max rs = 350000)
  ∧ cw_rec_poll_representation_internal
      (cw_timestamp_validate_internal (usecs 0))
      cw_timestamp_compare_internal dot_receiver
      (Some {| tv_sec := 2147; tv_usec := 483647 |})
    = Some (dot_receiver, CW_FAILURE EAGAIN).
Proof.
  split.
  { eexists; split; [vm_compute; reflexivity |].
    split; vm_compute; reflexivity. }
  split; [reflexivity |].
  split; [reflexivity |].
  split; [reflexivity |].
  split; [eexists; split; vm_compute; reflexivity |].
  vm_compute; reflexivity.
Qed.

(** C7 as stated fails on the count: of 257 dots keyed at 12 WPM without a
    poll, the first 254 are accepted, the 255th fails with ENOMEM and
    leaves the receiver in the end-of-character error state with 255 marks
    buffered, and the 256th and the 257th fail with ERANGE. *)
Lemma overflow_at_255_counterexample :
  ∃ rec,
    receive_timings cw_receiver 0
      (concat (replicate 257 [100000; 100000]))
    = Some (rec,
            replicate 254 (CW_SUCCESS tt)
            ++ [CW_FAILURE ENOMEM; CW_FAILURE ERANGE; CW_FAILURE ERANGE])
    ∧ state rec = RS_EOC_GAP_ERR
    ∧ representation_ind rec = 255
    ∧ buffered_representation rec = replicate 255 CW_DOT_REPRESENTATION.
Proof.
  eexists; split; [vm_compute; reflexivity |].
  vm_compute; repeat split; reflexivity.
Qed.

(** ** The invariant of the parameters, statistics and averages *)

Lemma speed_round_trip (s : Z) :
  CW_SPEED_MIN ≤ s ≤ CW_SPEED_MAX →
  CW_DOT_CALIBRATION ÷ (CW_DOT_CALIBRATION ÷ s) = s.
Proof.
  unfold CW_SPEED_MIN, CW_SPEED_MAX, CW_DOT_CALIBRATION; intros Hs.
  assert (Hall :
    List.forallb (λ s, 1200000 ÷ (1200000 ÷ s) =? s)
                 (List.map Z.of_nat (List.seq 4 57)) = true)
    by (vm_compute; reflexivity).
  rewrite List.forallb_forall in Hall.
  apply Z.eqb_eq, Hall, List.in_map_iff.
  exists (Z.to_nat s); split; [lia |].
  apply List.in_seq; lia.
Qed.

Lemma sync_speed_invariant (rec : cw_rec_t) :
  speed_invariant rec →
  ∃ rec',
    cw_rec_sync_parameters_internal rec = Some rec' ∧ speed_invariant rec'.
Proof.
  intros [Hs Ht].
  destruct (parameters_in_sync rec) eqn:Hsync.
  { exists rec; split; [apply sync_in_sync; exact Hsync | split; assumption]. }
  assert (Hs0 : speed rec ≠ 0) by (unfold CW_SPEED_MIN in Hs; lia).
  destruct (is_adaptive_receive_mode rec) eqn:Had.
  - assert (Ht0 : adaptive_speed_threshold rec ÷ 2 ≠ 0).
    { intros H0; rewrite H0, Z.quot_0_r_ext in Ht by reflexivity.
      unfold CW_SPEED_MIN in Ht; lia. }
    destruct (sync_adaptive rec Hsync Had Hs0 Ht0)
      as (rec' & Heq & _ & Hs' & Ht' & _).
    exists rec'; split; [exact Heq |].
    split; [rewrite Hs'; exact Ht | rewrite Ht'; exact Ht].
  - destruct (sync_fixed rec Hsync Had Hs0)
      as (rec' & Heq & _ & Hs' & Ht' & _).
    exists rec'; split; [exact Heq |].
    split; [rewrite Hs'; exact Hs |].
    rewrite Ht', Z.mul_comm, Z.quot_mul by lia.
    rewrite speed_round_trip by exact Hs. exact Hs.
Qed.

Lemma statistics_record
    (stats : list cw_rec_statistics_t) (ind : nat) (s : cw_rec_statistics_t) :
  length stats = 256%nat → (ind < 256)%nat →
  Forall occupied (take ind stats) →
  Forall (λ s, type s = CW_REC_STAT_NONE) (drop ind stats)
  ∨ Forall occupied stats →
  occupied s →
  let ind' := ((ind + 1) `mod` 256)%nat in
  Forall occupied (take ind' (<[ind := s]> stats))
  ∧ (Forall (λ s, type s = CW_REC_STAT_NONE) (drop ind' (<[ind := s]> stats))
     ∨ Forall occupied (<[ind := s]> stats)).
Proof.
  intros Hlen Hind Htake Hrest Hs ind'.
  assert (Hprefix : Forall occupied (take (S ind) (<[ind := s]> stats))).
  { rewrite take_S_r with (x := s) by (apply list_lookup_insert_eq; lia).
    rewrite take_insert_ge by lia.
    apply Forall_app; split; [exact Htake | repeat constructor; exact Hs]. }
  destruct (decide (ind = 255%nat)) as [-> | Hne].
  - subst ind'; cbn [Nat.add]. change ((255 + 1) `mod` 256)%nat with 0%nat.
    split; [constructor | right].
    rewrite <- (take_ge (<[255%nat := s]> stats) 256)
      by (rewrite length_insert; lia).
    exact Hprefix.
  - assert (Hind' : ind' = S ind).
    { subst ind'. rewrite Nat.mod_small by lia. lia. }
    rewrite Hind'. split; [exact Hprefix |].
    destruct Hrest as [Hnone | Hall].
    + left. rewrite drop_insert_lt by lia.
      replace (S ind) with (ind + 1)%nat by lia.
      rewrite <- drop_drop. apply Forall_drop. exact Hnone.
    + right. apply Forall_insert; assumption.
Qed.

Lemma update_stats_result
    (rec rec1 : cw_rec_t) (type0 : stat_type_t) (len : Z) :
  cw_rec_sync_parameters_internal rec = Some rec1 →
  Z.of_nat (length (statistics rec)) = CW_REC_STATISTICS_CAPACITY →
  0 ≤ statistics_ind rec < CW_REC_STATISTICS_CAPACITY →
  ∃ delta0,
    cw_rec_update_stats_internal rec type0 len
    = Some (set_statistics_ind
              ((statistics_ind rec + 1) `mod` CW_REC_STATISTICS_CAPACITY)
              (set_statistics
                 (<[Z.to_nat (statistics_ind rec)
                    := {| type := type0; delta := delta0 |}]>
                    (statistics rec))
                 rec1)).
Proof.
  intros Hsync Hlen Hind.
  pose proof (sync_preserves _ _ Hsync)
    as (_ & _ & _ & _ & _ & _ & _ & _ & _ & Hstats & Hsi & _).
  unfold cw_rec_update_stats_internal.
  rewrite Hsync; cbn [mbind option_bind].
  unfold array_set. rewrite Hstats, Hsi.
  rewrite bool_decide_eq_true_2 by lia.
  cbn [mbind option_bind statistics_ind set_statistics].
  rewrite Hsi.
  unfold CW_REC_STATISTICS_CAPACITY in *.
  rewrite (int_add_id (statistics_ind rec) 1) by int_range.
  rewrite int_rem_pos by lia. cbn [mbind option_bind].
  rewrite Z.rem_mod_nonneg by lia.
  eexists; reflexivity.
Qed.

Lemma sync_frame_statistics_averaging (r r' : cw_rec_t) :
  sync_frame r r' →
  statistics_invariant r
  ∧ averaging_in_bounds (dot_averaging r)
  ∧ averaging_in_bounds (dash_averaging r) →
  statistics_invariant r'
  ∧ averaging_in_bounds (dot_averaging r')
  ∧ averaging_in_bounds (dash_averaging r').
Proof.
  intros (_ & _ & _ & _ & _ & _ & _ & _ & _ & Hstats & Hsi & Hdot & Hdash).
  unfold statistics_invariant.
  rewrite Hstats, Hsi, Hdot, Hdash. trivial.
Qed.

Lemma parameters_invariant_frame (r r' : cw_rec_t) :
  sync_frame r r' →
  speed_invariant r' →
  parameters_invariant r → parameters_invariant r'.
Proof.
  intros Hf Hspeed (_ & Hrest).
  split; [exact Hspeed |].
  exact (sync_frame_statistics_averaging r r' Hf Hrest).
Qed.

Lemma sync_parameters_invariant (rec : cw_rec_t) :
  parameters_invariant rec →
  ∃ rec',
    cw_rec_sync_parameters_internal rec = Some rec'
    ∧ parameters_invariant rec'.
Proof.
  intros Hinv.
  destruct (sync_speed_invariant rec) as (rec' & Heq & Hspeed);
    [apply Hinv |].
  exists rec'; split; [exact Heq |].
  eapply parameters_invariant_frame; [| exact Hspeed | exact Hinv].
  apply sync_preserves; exact Heq.
Qed.

Lemma sync_keeps_parameters_invariant (rec rec' : cw_rec_t) :
  cw_rec_sync_parameters_internal rec = Some rec' →
  parameters_invariant rec → parameters_invariant rec'.
Proof.
  intros Heq Hinv.
  destruct (sync_parameters_invariant rec Hinv) as (rec'' & Heq' & Hinv').
  congruence.
Qed.

Lemma update_stats_parameters_invariant
    (rec : cw_rec_t) (type0 : stat_type_t) (len : Z) :
  parameters_invariant rec →
  type0 ≠ CW_REC_STAT_NONE →
  ∃ rec',
    cw_rec_update_stats_internal rec type0 len = Some rec'
    ∧ parameters_invariant rec'.
Proof.
  intros Hinv Htype.
  destruct (sync_parameters_invariant rec Hinv) as (rec1 & Hsync & Hinv1).
  pose proof Hinv as (_ & (Hlen & Hind & Htake & Hrest) & _).
  destruct (update_stats_result rec rec1 type0 len Hsync Hlen Hind)
    as (delta0 & Heq).
  eexists; split; [exact Heq |].
  pose proof (sync_preserves _ _ Hsync)
    as (_ & _ & _ & _ & _ & _ & _ & _ & _ & Hstats & Hsi & _).
  destruct Hinv1 as (Hspeed1 & _ & Hdot1 & Hdash1).
  split; [exact Hspeed1 |].
  split; [| split; [exact Hdot1 | exact Hdash1]].
  unfold statistics_invariant.
  cbn [statistics statistics_ind set_statistics set_statistics_ind].
  unfold CW_REC_STATISTICS_CAPACITY in *.
  rewrite length_insert.
  split; [exact Hlen |].
  split; [apply Z.mod_pos_bound; lia |].
  destruct (statistics_record (statistics rec)
              (Z.to_nat (statistics_ind rec))
              {| type := type0; delta := delta0 |})
    as [H1 H2]; try assumption; try lia.
  replace (Z.to_nat ((statistics_ind rec + 1) `mod` 256))
    with ((Z.to_nat (statistics_ind rec) + 1) `mod` 256)%nat.
  { split; assumption. }
  rewrite Z2Nat.inj_mod by lia.
  rewrite Z2Nat.inj_add by lia. reflexivity.
Qed.

Lemma identify_mark_parameters_invariant (rec : cw_rec_t) (mark_len : Z) :
  parameters_invariant rec →
  ∃ rec' status,
    cw_rec_identify_mark_internal rec mark_len = Some (rec', status)
    ∧ parameters_invariant rec'.
Proof.
  intros Hinv.
  destruct (sync_parameters_invariant rec Hinv) as (rec1 & Hsync & Hinv1).
  unfold cw_rec_identify_mark_internal.
  rewrite Hsync; cbn [mbind option_bind].
  repeat match goal with
         | |- context [if ?b then _ else _] => destruct b
         end; eexists _, _; (split; [reflexivity |]); exact Hinv1.
Qed.

Lemma update_average_in_bounds (avg : cw_rec_averaging_t) (mark_len : Z) :
  averaging_in_bounds avg →
  ∃ avg',
    cw_rec_update_average_internal avg mark_len = Some avg'
    ∧ averaging_in_bounds avg'.
Proof.
  intros [Hlen Hcur]. unfold CW_REC_AVERAGING_ARRAY_LENGTH in *.
  destruct (lookup_lt_is_Some_2 (buffer avg) (Z.to_nat (cursor avg)))
    as [oldest Hold]; [lia |].
  unfold cw_rec_update_average_internal, array_get, array_set.
  rewrite (bool_decide_eq_true_2 (0 ≤ cursor avg)) by lia.
  rewrite Hold; cbn [mbind option_bind].
  unfold CW_REC_AVERAGING_ARRAY_LENGTH.
  rewrite int_div_pos by lia; cbn [mbind option_bind].
  rewrite bool_decide_eq_true_2 by lia; cbn [mbind option_bind].
  rewrite (int_add_id (cursor avg) 1) by int_range.
  rewrite int_rem_pos by lia; cbn [mbind option_bind].
  eexists; split; [reflexivity |].
  split; cbn [buffer cursor].
  - rewrite length_insert; exact Hlen.
  - unfold CW_REC_AVERAGING_ARRAY_LENGTH.
    rewrite Z.rem_mod_nonneg by lia. apply Z.mod_pos_bound; lia.
Qed.

Lemma reset_average_in_bounds (avg : cw_rec_averaging_t) (initial : Z) :
  averaging_in_bounds avg →
  ∃ avg',
    cw_rec_reset_average_internal avg initial = Some avg'
    ∧ averaging_in_bounds avg'.
Proof.
  intros [Hlen _]. unfold CW_REC_AVERAGING_ARRAY_LENGTH in *.
  destruct (buffer avg) as [| b0 [| b1 [| b2 [| b3 [| b4 l]]]]] eqn:Hb;
    cbn [length] in Hlen; try lia.
  unfold cw_rec_reset_average_internal, CW_REC_AVERAGING_ARRAY_LENGTH.
  rewrite Hb.
  change (fill_buffer (Z.to_nat 4) 0 initial [b0; b1; b2; b3])
    with (Some [initial; initial; initial; initial]).
  eexists; split; [reflexivity |].
  unfold averaging_in_bounds, CW_REC_AVERAGING_ARRAY_LENGTH.
  cbn [buffer cursor length]; lia.
Qed.

Lemma sync_adaptive_defined (rec r2 : cw_rec_t) :
  parameters_in_sync rec = false →
  is_adaptive_receive_mode rec = true →
  speed rec ≠ 0 →
  cw_rec_sync_parameters_internal rec = Some r2 →
  adaptive_speed_threshold rec ÷ 2 ≠ 0.
Proof.
  intros Hsync Had Hspeed Heq Hzero.
  unfold cw_rec_sync_parameters_internal in Heq.
  rewrite Hsync, Had in Heq.
  rewrite (int_div_defined CW_DOT_CALIBRATION (speed rec)) in Heq
    by (unfold CW_DOT_CALIBRATION, INT_MIN; lia).
  cbn [mbind option_bind] in Heq.
  rewrite (int_div_pos _ 2) in Heq by lia.
  cbn [mbind option_bind] in Heq.
  rewrite Hzero in Heq.
  discriminate Heq.
Qed.

Lemma update_averages_parameters_invariant
    (rec rec' : cw_rec_t) (mark_len : Z) (mark : ascii) :
  cw_rec_update_averages_internal rec mark_len mark = Some rec' →
  parameters_invariant rec → parameters_invariant rec'.
Proof.
  unfold cw_rec_update_averages_internal.
  destruct (is_adaptive_receive_mode rec) eqn:Had; cbn [negb];
    [| intros [= <-]; trivial].
  assert (Htail : ∀ r0,
    is_adaptive_receive_mode r0 = true →
    CW_SPEED_MIN ≤ speed r0 ≤ CW_SPEED_MAX →
    statistics_invariant r0 →
    averaging_in_bounds (dot_averaging r0) →
    averaging_in_bounds (dash_averaging r0) →
    (int_div (int_sub (average (dash_averaging r0))
                      (average (dot_averaging r0))) 2
     ≫= λ half,
       cw_rec_sync_parameters_internal
         (set_parameters_in_sync false
            (set_adaptive_speed_threshold
               (int_add half (average (dot_averaging r0))) r0))
       ≫= λ rec0,
         if bool_decide (speed rec0 < CW_SPEED_MIN)
            || bool_decide (speed rec0 > CW_SPEED_MAX)
         then
           cw_rec_sync_parameters_internal
             (set_parameters_in_sync false
                (set_is_adaptive_receive_mode false
                   (set_speed
                      (if bool_decide (speed rec0 < CW_SPEED_MIN)
                       then CW_SPEED_MIN else CW_SPEED_MAX) rec0)))
           ≫= λ rec1,
             cw_rec_sync_parameters_internal
               (set_parameters_in_sync false
                  (set_is_adaptive_receive_mode true rec1))
         else Some rec0) = Some rec' →
    parameters_invariant rec').
  { intros r0 Had0 Hs0 Hst0 Hd0 Hda0 H.
    rewrite int_div_pos in H by lia.
    cbn [mbind option_bind] in H.
    set (r1 := set_parameters_in_sync false _) in H.
    destruct (cw_rec_sync_parameters_internal r1) as [r2 |] eqn:H2;
      [| discriminate].
    cbn [mbind option_bind] in H.
    assert (Hspeed1 : speed r1 ≠ 0)
      by (subst r1; cbn; unfold CW_SPEED_MIN in Hs0; lia).
    pose proof (sync_adaptive_defined r1 r2 eq_refl Had0 Hspeed1 H2) as Hthr.
    destruct (sync_adaptive r1 eq_refl Had0 Hspeed1 Hthr)
      as (r2' & H2' & Hsync2 & Hs2 & Ht2 & _).
    rewrite H2 in H2'; injection H2' as <-.
    pose proof (sync_preserves _ _ H2) as Hf2.
    assert (Had2 : is_adaptive_receive_mode r2 = true).
    { destruct Hf2 as (_ & _ & _ & -> & _). exact Had0. }
    destruct (clamp_speed_resync r2 Had2 Hsync2)
      as (r3 & H3 & Hf3 & _ & Hin & Hout).
    rewrite H3 in H; injection H as <-.
    assert (Hrest3 :
      statistics_invariant r3
      ∧ averaging_in_bounds (dot_averaging r3)
      ∧ averaging_in_bounds (dash_averaging r3)).
    { apply (sync_frame_statistics_averaging r2 r3 Hf3).
      apply (sync_frame_statistics_averaging r1 r2 Hf2).
      subst r1; auto. }
    split; [| exact Hrest3].
    cbn [adaptive_speed_threshold set_parameters_in_sync
         set_adaptive_speed_threshold] in Hs2, Ht2.
    subst r1. cbn [adaptive_speed_threshold set_parameters_in_sync
         set_adaptive_speed_threshold] in Hs2, Ht2.
    destruct (decide (CW_SPEED_MIN ≤ speed r2 ≤ CW_SPEED_MAX)) as [Hr | Hr].
    - rewrite (Hin Hr). split; [exact Hr |].
      rewrite Ht2, <- Hs2. exact Hr.
    - assert (Hr' : speed r2 < CW_SPEED_MIN ∨ speed r2 > CW_SPEED_MAX) by lia.
      destruct (Hout Hr') as (Hsp & Hdi & Hthr3 & _).
      assert (Hc : CW_SPEED_MIN ≤ speed r3 ≤ CW_SPEED_MAX).
      { rewrite Hsp. unfold CW_SPEED_MIN, CW_SPEED_MAX.
        destruct (bool_decide _); lia. }
      split; [exact Hc |].
      rewrite Hthr3, Hdi, <- Hsp.
      rewrite Z.mul_comm, Z.quot_mul by lia.
      rewrite speed_round_trip by exact Hc. exact Hc. }
  intros Hrun (Hspeed & Hst & Hd & Hda).
  destruct (Ascii.eqb mark CW_DOT_REPRESENTATION).
  - destruct (update_average_in_bounds (dot_averaging rec) mark_len Hd)
      as (avg & Heq & Havg).
    rewrite Heq in Hrun; cbn [mbind option_bind] in Hrun.
    apply Htail in Hrun; try assumption; apply Hspeed.
  - destruct (Ascii.eqb mark CW_DASH_REPRESENTATION).
    + destruct (update_average_in_bounds (dash_averaging rec) mark_len Hda)
        as (avg & Heq & Havg).
      rewrite Heq in Hrun; cbn [mbind option_bind] in Hrun.
      apply Htail in Hrun; try assumption; apply Hspeed.
    + injection Hrun as <-. repeat split; try apply Hspeed;
        try apply Hst; try apply Hd; apply Hda.
Qed.

Lemma set_adaptive_parameters_invariant (rec : cw_rec_t) (adaptive : bool) :
  parameters_invariant rec →
  ∃ rec',
    cw_rec_set_adaptive_internal rec adaptive = Some rec'
    ∧ parameters_invariant rec'.
Proof.
  intros Hinv. unfold cw_rec_set_adaptive_internal.
  destruct (negb (eqb (is_adaptive_receive_mode rec) adaptive));
    [| exists rec; split; [reflexivity | exact Hinv]].
  destruct (sync_parameters_invariant
              (set_parameters_in_sync false
                 (set_is_adaptive_receive_mode adaptive rec)) Hinv)
    as (r1 & Hsync & Hinv1).
  rewrite Hsync; cbn [mbind option_bind].
  destruct (is_adaptive_receive_mode r1);
    [| exists r1; split; [reflexivity | exact Hinv1]].
  destruct Hinv1 as (Hspeed & Hst & Hd & Hda).
  destruct (reset_average_in_bounds (dot_averaging r1) (dot_len_ideal r1) Hd)
    as (dot_avg & Hdot & Hd').
  destruct (reset_average_in_bounds (dash_averaging r1) (dash_len_ideal r1)
                                    Hda)
    as (dash_avg & Hdash & Hda').
  rewrite Hdot; cbn [mbind option_bind dash_averaging set_dot_averaging
                     dash_len_ideal].
  rewrite Hdash; cbn [mbind option_bind].
  eexists; split; [reflexivity |].
  repeat split; try apply Hspeed; try apply Hst; try apply Hd';
    apply Hda'.
Qed.

Lemma setters_parameters_invariant (rec : cw_rec_t) (v : Z) :
  parameters_invariant rec →
  (∃ rec' status,
      cw_set_receive_speed rec v = Some (rec', status)
      ∧ parameters_invariant rec')
  ∧ (∃ rec' status,
        cw_set_tolerance rec v = Some (rec', status)
        ∧ parameters_invariant rec')
  ∧ (∃ rec' status,
        cw_rec_set_gap_internal rec v = Some (rec', status)
        ∧ parameters_invariant rec').
Proof.
  intros Hinv.
  split; [| split].
  - unfold cw_set_receive_speed.
    destruct (is_adaptive_receive_mode rec);
      [eexists _, _; split; [reflexivity | exact Hinv] |].
    destruct (bool_decide (v < CW_SPEED_MIN)) eqn:Hlo;
      [eexists _, _; split; [reflexivity | exact Hinv] |].
    destruct (bool_decide (v > CW_SPEED_MAX)) eqn:Hhi;
      [eexists _, _; split; [reflexivity | exact Hinv] |].
    apply bool_decide_eq_false in Hlo, Hhi. cbn [orb].
    case_bool_decide;
      [| eexists _, _; split; [reflexivity | exact Hinv]].
    destruct (sync_parameters_invariant
                (set_parameters_in_sync false (set_speed v rec)))
      as (r1 & Hsync & Hinv1).
    { destruct Hinv as ((_ & Hthr) & Hrest).
      split; [split; [cbn; lia | exact Hthr] | exact Hrest]. }
    rewrite Hsync.
    eexists _, _; split; [reflexivity | exact Hinv1].
  - unfold cw_set_tolerance.
    destruct (bool_decide (v < CW_TOLERANCE_MIN)
              || bool_decide (v > CW_TOLERANCE_MAX));
      [eexists _, _; split; [reflexivity | exact Hinv] |].
    case_bool_decide;
      [| eexists _, _; split; [reflexivity | exact Hinv]].
    destruct (sync_parameters_invariant
                (set_parameters_in_sync false (set_tolerance v rec)) Hinv)
      as (r1 & Hsync & Hinv1).
    rewrite Hsync.
    eexists _, _; split; [reflexivity | exact Hinv1].
  - unfold cw_rec_set_gap_internal.
    destruct (bool_decide (v < CW_GAP_MIN) || bool_decide (v > CW_GAP_MAX));
      [eexists _, _; split; [reflexivity | exact Hinv] |].
    case_bool_decide;
      [| eexists _, _; split; [reflexivity | exact Hinv]].
    destruct (sync_parameters_invariant
                (set_parameters_in_sync false (set_gap v rec)) Hinv)
      as (r1 & Hsync & Hinv1).
    rewrite Hsync.
    eexists _, _; split; [reflexivity | exact Hinv1].
Qed.

Lemma reset_parameters_invariant (rec : cw_rec_t) :
  parameters_invariant rec →
  parameters_invariant (cw_rec_reset_receive_parameters_internal rec)
  ∧ parameters_invariant (cw_reset_receive_statistics rec)
  ∧ parameters_invariant (cw_reset_receive rec)
  ∧ parameters_invariant (cw_clear_receive_buffer rec)
  ∧ ∀ v, parameters_invariant (cw_set_noise_spike_threshold rec v).1.
Proof.
  intros (Hspeed & Hst & Hd & Hda).
  assert (Hreset : statistics_invariant (cw_reset_receive_statistics rec)).
  { destruct Hst as (Hlen & _).
    unfold statistics_invariant, cw_reset_receive_statistics.
    cbn [statistics statistics_ind set_statistics set_statistics_ind].
    rewrite length_replicate.
    split; [exact Hlen |].
    split; [unfold CW_REC_STATISTICS_CAPACITY; lia |].
    split; [constructor | left].
    apply Forall_replicate; reflexivity. }
  split; [| split; [| split; [| split]]].
  - split; [| repeat split; try apply Hst; try apply Hd; apply Hda].
    split; [vm_compute; split; discriminate | apply Hspeed].
  - split; [exact Hspeed | split; [exact Hreset | split; assumption]].
  - split; [exact Hspeed | split; [exact Hreset | split; assumption]].
  - repeat split; try apply Hspeed; try apply Hst; try apply Hd; apply Hda.
  - intros v. unfold cw_set_noise_spike_threshold.
    case_bool_decide;
      repeat split; try apply Hspeed; try apply Hst; try apply Hd; apply Hda.
Qed.

(** ** The invariant of the timing parameters *)

Lemma timing_invariant_frame (r r' : cw_rec_t) :
  timing_frame r r' → timing_invariant r → timing_invariant r'.
Proof.
  intros (E1 & E2 & E3 & E4 & E5 & E6 & E7 & E8 & E9 & E10 & E11 & E12
          & E13 & E14 & E15 & E16 & E17 & E18 & E19).
  unfold timing_invariant, timings_of_unit.
  rewrite E1, E2, E3, E4, E5, E6, E7, E8, E9, E10, E11, E12, E13, E14, E15,
    E16, E17, E18, E19.
  trivial.
Qed.

Lemma timing_frame_refl (r : cw_rec_t) : timing_frame r r.
Proof. repeat split. Qed.

(** A synchronization establishes the timing invariant. *)
Lemma sync_timing_invariant (rec rec' : cw_rec_t) :
  cw_rec_sync_parameters_internal rec = Some rec' →
  CW_SPEED_MIN ≤ speed rec ≤ CW_SPEED_MAX →
  timing_invariant rec → timing_invariant rec'.
Proof.
  intros Heq Hspeed Hinv.
  destruct (parameters_in_sync rec) eqn:Hsync.
  { rewrite (sync_in_sync rec Hsync) in Heq. injection Heq as <-.
    exact Hinv. }
  destruct Hinv as (Htol & Hgap & _).
  pose proof (sync_preserves _ _ Heq) as (_ & Et & Eg & Ea & _).
  unfold timing_invariant. rewrite Et, Eg.
  split; [exact Htol |]. split; [exact Hgap |]. intros _.
  exists (CW_DOT_CALIBRATION ÷ speed rec).
  unfold CW_SPEED_MIN, CW_SPEED_MAX, CW_TOLERANCE_MIN, CW_TOLERANCE_MAX,
    CW_GAP_MIN, CW_GAP_MAX in *.
  assert (Hu : 20000 ≤ CW_DOT_CALIBRATION ÷ speed rec ≤ 300000).
  { unfold CW_DOT_CALIBRATION. rewrite Z.quot_div_nonneg by lia.
    split; [apply Z.div_le_lower_bound | apply Z.div_le_upper_bound]; lia. }
  split; [exact Hu |].
  unfold cw_rec_sync_parameters_internal in Heq.
  rewrite Hsync in Heq.
  rewrite (int_div_defined CW_DOT_CALIBRATION (speed rec)) in Heq
    by (unfold CW_DOT_CALIBRATION, INT_MIN; lia).
  cbn [mbind option_bind] in Heq.
  remember (CW_DOT_CALIBRATION ÷ speed rec) as u eqn:Eu.
  assert (Hgu : 0 ≤ gap rec * u ≤ 18000000) by nia.
  assert (Htu : 0 ≤ u * tolerance rec ≤ 27000000) by nia.
  assert (Htq : 0 ≤ (u * tolerance rec) ÷ 100 ≤ 270000).
  { rewrite Z.quot_div_nonneg by lia.
    split; [apply Z.div_le_lower_bound | apply Z.div_le_upper_bound]; lia. }
  assert (Haq : 0 ≤ (7 * (gap rec * u)) ÷ 3 ≤ 42000000).
  { rewrite Z.quot_div_nonneg by lia.
    split; [apply Z.div_le_lower_bound | apply Z.div_le_upper_bound]; lia. }
  destruct (is_adaptive_receive_mode rec) eqn:Had.
  - destruct (int_div (adaptive_speed_threshold rec) 2) as [half |];
      [| discriminate].
    cbn [mbind option_bind] in Heq.
    destruct (int_div CW_DOT_CALIBRATION half) as [new_speed |];
      [| discriminate].
    cbn [mbind option_bind] in Heq.
    cbn in Heq. rewrite Had in Heq.
    rewrite (int_mul_id (gap rec) u) in Heq by int_range.
    rewrite (int_mul_id 7 (gap rec * u)) in Heq by int_range.
    rewrite (int_div_pos _ 3) in Heq by lia.
    cbn [mbind option_bind] in Heq.
    rewrite (int_mul_id 2 u), (int_mul_id 3 u), (int_mul_id 5 u) in Heq
      by int_range.
    injection Heq as <-. unfold timings_of_unit. cbn. rewrite Had.
    split_and!; reflexivity.
  - cbn [mbind option_bind] in Heq.
    cbn in Heq. rewrite Had in Heq.
    rewrite (int_mul_id (gap rec) u) in Heq by int_range.
    rewrite (int_mul_id 7 (gap rec * u)) in Heq by int_range.
    rewrite (int_div_pos _ 3) in Heq by lia.
    cbn [mbind option_bind] in Heq.
    rewrite (int_mul_id u (tolerance rec)) in Heq by int_range.
    rewrite (int_div_pos _ 100) in Heq by lia.
    cbn [mbind option_bind] in Heq.
    rewrite (int_mul_id 3 u) in Heq by int_range.
    set (tol := (u * tolerance rec) ÷ 100) in *.
    set (add := gap rec * u) in *.
    set (adj := (7 * add) ÷ 3) in *.
    rewrite (int_sub_id u tol), (int_add_id u tol) in Heq by int_range.
    rewrite (int_sub_id (3 * u) tol), (int_add_id (3 * u) tol) in Heq
      by int_range.
    rewrite (int_add_id (3 * u + tol) add) in Heq by int_range.
    rewrite (int_add_id (3 * u + tol + add) adj) in Heq by int_range.
    injection Heq as <-. unfold timings_of_unit. cbn. rewrite Had.
    split_and!; first [reflexivity | exact Eu].
Qed.
Lemma update_stats_timing_invariant
    (rec rec' : cw_rec_t) (type0 : stat_type_t) (len : Z) :
  cw_rec_update_stats_internal rec type0 len = Some rec' →
  CW_SPEED_MIN ≤ speed rec ≤ CW_SPEED_MAX →
  timing_invariant rec → timing_invariant rec'.
Proof.
  unfold cw_rec_update_stats_internal; intros H Hspeed Hinv.
  destruct (cw_rec_sync_parameters_internal rec) as [r1 |] eqn:Hsync;
    [| discriminate].
  apply (sync_timing_invariant rec r1 Hsync Hspeed) in Hinv.
  cbn [mbind option_bind] in H.
  destruct (array_set _ _ _) as [stats |]; [| discriminate].
  cbn [mbind option_bind] in H.
  destruct (int_rem _ _) as [ind |]; [| discriminate].
  cbn [mbind option_bind] in H.
  injection H as <-.
  apply (timing_invariant_frame r1); [repeat split | exact Hinv].
Qed.

Lemma identify_mark_timing_invariant
    (rec rec' : cw_rec_t) (mark_len : Z) (status : cw_ret ascii) :
  cw_rec_identify_mark_internal rec mark_len = Some (rec', status) →
  CW_SPEED_MIN ≤ speed rec ≤ CW_SPEED_MAX →
  timing_invariant rec → timing_invariant rec'.
Proof.
  unfold cw_rec_identify_mark_internal; intros H Hspeed Hinv.
  destruct (cw_rec_sync_parameters_internal rec) as [r1 |] eqn:Hsync;
    [| discriminate].
  apply (sync_timing_invariant rec r1 Hsync Hspeed) in Hinv.
  cbn [mbind option_bind] in H.
  repeat match type of H with
         | (if ?b then _ else _) = _ => destruct b
         end; injection H as <- _;
    (apply (timing_invariant_frame r1); [repeat split | exact Hinv]).
Qed.

Lemma update_averages_timing_invariant
    (rec rec' : cw_rec_t) (mark_len : Z) (mark : ascii) :
  cw_rec_update_averages_internal rec mark_len mark = Some rec' →
  CW_SPEED_MIN ≤ speed rec ≤ CW_SPEED_MAX →
  timing_invariant rec → timing_invariant rec'.
Proof.
  unfold cw_rec_update_averages_internal.
  destruct (is_adaptive_receive_mode rec) eqn:Had; cbn [negb];
    [| intros [= <-]; trivial].
  assert (Htail : ∀ r0,
    CW_SPEED_MIN ≤ speed r0 ≤ CW_SPEED_MAX →
    CW_TOLERANCE_MIN ≤ tolerance r0 ≤ CW_TOLERANCE_MAX →
    CW_GAP_MIN ≤ gap r0 ≤ CW_GAP_MAX →
    (int_div (int_sub (average (dash_averaging r0))
                      (average (dot_averaging r0))) 2
     ≫= λ half,
       cw_rec_sync_parameters_internal
         (set_parameters_in_sync false
            (set_adaptive_speed_threshold
               (int_add half (average (dot_averaging r0))) r0))
       ≫= λ rec0,
         if bool_decide (speed rec0 < CW_SPEED_MIN)
            || bool_decide (speed rec0 > CW_SPEED_MAX)
         then
           cw_rec_sync_parameters_internal
             (set_parameters_in_sync false
                (set_is_adaptive_receive_mode false
                   (set_speed
                      (if bool_decide (speed rec0 < CW_SPEED_MIN)
                       then CW_SPEED_MIN else CW_SPEED_MAX) rec0)))
           ≫= λ rec1,
             cw_rec_sync_parameters_internal
               (set_parameters_in_sync false
                  (set_is_adaptive_receive_mode true rec1))
         else Some rec0) = Some rec' →
    timing_invariant rec').
  { intros r0 Hs0 Ht0 Hg0 H.
    destruct (int_div _ 2) as [half |]; [| discriminate].
    cbn [mbind option_bind] in H.
    destruct (cw_rec_sync_parameters_internal _) as [r1 |] eqn:H1;
      [| discriminate].
    cbn [mbind option_bind] in H.
    pose proof (sync_preserves _ _ H1) as (_ & Et1 & Eg1 & _).
    cbn in Et1, Eg1.
    apply sync_timing_invariant in H1;
      [| exact Hs0 | split; [exact Ht0 | split; [exact Hg0 | discriminate]]].
    destruct (bool_decide (speed r1 < CW_SPEED_MIN)
              || bool_decide (speed r1 > CW_SPEED_MAX));
      [| injection H as <-; exact H1].
    set (clamped := if bool_decide (speed r1 < CW_SPEED_MIN)
                    then CW_SPEED_MIN else CW_SPEED_MAX) in H.
    assert (Hc : CW_SPEED_MIN ≤ clamped ≤ CW_SPEED_MAX).
    { subst clamped. unfold CW_SPEED_MIN, CW_SPEED_MAX.
      destruct (bool_decide _); lia. }
    destruct (cw_rec_sync_parameters_internal _) as [r2 |] eqn:H2;
      [| discriminate].
    cbn [mbind option_bind] in H.
    pose proof (sync_preserves _ _ H2) as (_ & Et2 & Eg2 & _).
    cbn in Et2, Eg2.
    assert (Hs2 : speed r2 = clamped).
    { destruct (sync_fixed
                  (set_parameters_in_sync false
                     (set_is_adaptive_receive_mode false
                        (set_speed clamped r1))))
        as (r2' & H2' & _ & Hs2' & _);
        [reflexivity | reflexivity
         | cbn; unfold CW_SPEED_MIN in Hc; lia |].
      rewrite H2 in H2'; injection H2' as <-. exact Hs2'. }
    apply (sync_timing_invariant _ _ H).
    - cbn. rewrite Hs2. exact Hc.
    - split; [cbn; rewrite Et2, Et1; exact Ht0 |].
      split; [cbn; rewrite Eg2, Eg1; exact Hg0 | discriminate]. }
  intros Hrun Hspeed Hinv. pose proof Hinv as (Htol & Hgap & _).
  destruct (Ascii.eqb mark CW_DOT_REPRESENTATION).
  - destruct (cw_rec_update_average_internal _ _) as [avg |];
      [| discriminate].
    cbn [mbind option_bind] in Hrun.
    apply Htail in Hrun; assumption.
  - destruct (Ascii.eqb mark CW_DASH_REPRESENTATION).
    + destruct (cw_rec_update_average_internal _ _) as [avg |];
        [| discriminate].
      cbn [mbind option_bind] in Hrun.
      apply Htail in Hrun; assumption.
    + injection Hrun as <-. exact Hinv.
Qed.
Lemma set_adaptive_timing_invariant
    (rec rec' : cw_rec_t) (adaptive : bool) :
  cw_rec_set_adaptive_internal rec adaptive = Some rec' →
  CW_SPEED_MIN ≤ speed rec ≤ CW_SPEED_MAX →
  timing_invariant rec → timing_invariant rec'.
Proof.
  unfold cw_rec_set_adaptive_internal; intros H Hspeed Hinv.
  destruct (negb _); [| injection H as <-; exact Hinv].
  destruct (cw_rec_sync_parameters_internal _) as [r1 |] eqn:Hsync;
    [| discriminate].
  cbn [mbind option_bind] in H.
  apply sync_timing_invariant in Hsync;
    [| exact Hspeed
     | destruct Hinv as (Ht & Hg & _);
       split; [exact Ht | split; [exact Hg | discriminate]]].
  destruct (is_adaptive_receive_mode r1) eqn:Had1;
    [| injection H as <-; exact Hsync].
  destruct (cw_rec_reset_average_internal _ _) as [dot_avg |];
    [| discriminate].
  cbn [mbind option_bind] in H.
  destruct (cw_rec_reset_average_internal _ _) as [dash_avg |];
    [| discriminate].
  injection H as <-.
  apply (timing_invariant_frame r1); [repeat split | exact Hsync].
Qed.

Lemma setters_timing_invariant
    (rec rec' : cw_rec_t) (v : Z) (status : cw_ret unit) :
  cw_set_receive_speed rec v = Some (rec', status)
  ∨ cw_set_tolerance rec v = Some (rec', status)
  ∨ cw_rec_set_gap_internal rec v = Some (rec', status) →
  CW_SPEED_MIN ≤ speed rec ≤ CW_SPEED_MAX →
  timing_invariant rec → timing_invariant rec'.
Proof.
  intros H Hspeed Hinv. pose proof Hinv as (Ht & Hg & _).
  destruct H as [H | [H | H]].
  - unfold cw_set_receive_speed in H.
    destruct (is_adaptive_receive_mode rec); [injection H as <- _; trivial |].
    destruct (bool_decide (v < CW_SPEED_MIN)) eqn:Hlo;
      [injection H as <- _; trivial |].
    destruct (bool_decide (v > CW_SPEED_MAX)) eqn:Hhi;
      [injection H as <- _; trivial |].
    apply bool_decide_eq_false in Hlo, Hhi. cbn [orb] in H.
    destruct (bool_decide (v ≠ speed rec));
      [| injection H as <- _; trivial].
    destruct (cw_rec_sync_parameters_internal _) as [r1 |] eqn:Hsync;
      [| discriminate].
    injection H as <- _.
    apply (sync_timing_invariant _ _ Hsync); [cbn; lia |].
    split; [exact Ht | split; [exact Hg | discriminate]].
  - unfold cw_set_tolerance in H.
    destruct (bool_decide (v < CW_TOLERANCE_MIN)) eqn:Hlo;
      [injection H as <- _; trivial |].
    destruct (bool_decide (v > CW_TOLERANCE_MAX)) eqn:Hhi;
      [injection H as <- _; trivial |].
    apply bool_decide_eq_false in Hlo, Hhi. cbn [orb] in H.
    destruct (bool_decide (v ≠ tolerance rec));
      [| injection H as <- _; trivial].
    destruct (cw_rec_sync_parameters_internal _) as [r1 |] eqn:Hsync;
      [| discriminate].
    injection H as <- _.
    apply (sync_timing_invariant _ _ Hsync); [exact Hspeed |].
    split; [cbn; lia | split; [exact Hg | discriminate]].
  - unfold cw_rec_set_gap_internal in H.
    destruct (bool_decide (v < CW_GAP_MIN)) eqn:Hlo;
      [injection H as <- _; trivial |].
    destruct (bool_decide (v > CW_GAP_MAX)) eqn:Hhi;
      [injection H as <- _; trivial |].
    apply bool_decide_eq_false in Hlo, Hhi. cbn [orb] in H.
    destruct (bool_decide (v ≠ gap rec));
      [| injection H as <- _; trivial].
    destruct (cw_rec_sync_parameters_internal _) as [r1 |] eqn:Hsync;
      [| discriminate].
    injection H as <- _.
    apply (sync_timing_invariant _ _ Hsync); [exact Hspeed |].
    split; [exact Ht | split; [cbn; lia | discriminate]].
Qed.

Lemma reset_timing_invariant (rec : cw_rec_t) :
  timing_invariant rec →
  timing_invariant (cw_rec_reset_receive_parameters_internal rec)
  ∧ timing_invariant (cw_reset_receive_statistics rec)
  ∧ timing_invariant (cw_reset_receive rec)
  ∧ timing_invariant (cw_clear_receive_buffer rec)
  ∧ ∀ v, timing_invariant (cw_set_noise_spike_threshold rec v).1.
Proof.
  intros Hinv. pose proof Hinv as (Ht & Hg & _).
  split_and!.
  - split; [vm_compute; split; discriminate |].
    split; [exact Hg | discriminate].
  - apply (timing_invariant_frame rec); [repeat split | exact Hinv].
  - apply (timing_invariant_frame rec); [repeat split | exact Hinv].
  - apply (timing_invariant_frame rec); [repeat split | exact Hinv].
  - intros v. unfold cw_set_noise_spike_threshold.
    destruct (bool_decide (v < 0)); [exact Hinv |].
    apply (timing_invariant_frame rec); [repeat split | exact Hinv].
Qed.
Section ReceiverInvariant.

(** As before, the statements hold for every implementation of the two
    timestamp helpers. *)
Variable timestamp_validate : option timeval → cw_ret timeval.
Variable timestamp_compare : timeval → timeval → Z.

Local Abbreviation mark_begin :=
  (cw_rec_mark_begin_internal timestamp_validate timestamp_compare).
Local Abbreviation mark_end_ :=
  (cw_rec_mark_end_internal timestamp_validate timestamp_compare).
Local Abbreviation add_mark :=
  (cw_rec_add_mark_internal timestamp_validate).
Local Abbreviation poll :=
  (cw_rec_poll_representation_internal timestamp_validate
                                       timestamp_compare).

#[local] Ltac decide_states_in H :=
  repeat match type of H with
    | context [@bool_decide ?P ?d] =>
        let v := eval vm_compute in (@bool_decide P d) in
        match v with
        | true => idtac
        | false => idtac
        end;
        change (@bool_decide P d) with v in H
    end;
  cbn [orb andb negb] in H.

Lemma marks_invariant_same (r r' : cw_rec_t) :
  representation r' = representation r →
  representation_ind r' = representation_ind r →
  marks_invariant r → marks_invariant r'.
Proof.
  unfold marks_invariant, buffered_representation.
  intros -> ->; trivial.
Qed.

Lemma marks_invariant_insert (r r' : cw_rec_t) (mark : ascii) :
  representation r'
  = <[Z.to_nat (representation_ind r) := mark]> (representation r) →
  0 ≤ representation_ind r →
  representation_ind r' = representation_ind r
  ∨ representation_ind r' = representation_ind r + 1
    ∧ (Z.to_nat (representation_ind r) < length (representation r))%nat
    ∧ is_mark mark →
  marks_invariant r → marks_invariant r'.
Proof.
  unfold marks_invariant, buffered_representation.
  intros -> Hind [-> | (-> & Hlen & Hmark)] Hinv.
  - rewrite take_insert_ge by lia. exact Hinv.
  - replace (Z.to_nat (representation_ind r + 1))
      with (S (Z.to_nat (representation_ind r))) by lia.
    rewrite take_S_r with (x := mark)
      by (apply list_lookup_insert_eq; exact Hlen).
    rewrite take_insert_ge by lia.
    apply Forall_app; split; [exact Hinv |].
    constructor; [exact Hmark | constructor].
Qed.

Lemma marks_not_nul (r : cw_rec_t) :
  marks_invariant r → Forall (λ c, c ≠ zero) (buffered_representation r).
Proof.
  intros H; eapply Forall_impl; [exact H |].
  intros c [-> | ->]; discriminate.
Qed.

Lemma copy_representation_out_result (rec : cw_rec_t) :
  buffer_invariant rec →
  marks_invariant rec →
  copy_representation_out rec
  = Some (set_representation
            (<[Z.to_nat (representation_ind rec) := zero]>
               (representation rec)) rec,
          buffered_representation rec).
Proof.
  intros (Hlen & Hind & _) Hmarks.
  apply copy_representation_out_defined;
    [exact Hlen | unfold CW_REC_REPRESENTATION_CAPACITY in *; lia |].
  apply marks_not_nul; exact Hmarks.
Qed.
Lemma copy_representation_out_run (r0 r : cw_rec_t) :
  representation r = representation r0 →
  representation_ind r = representation_ind r0 →
  buffer_invariant r0 → marks_invariant r0 →
  copy_representation_out r
  = Some (set_representation
            (<[Z.to_nat (representation_ind r0) := zero]>
               (representation r0)) r,
          buffered_representation r0).
Proof.
  intros Hr Hi (Hlen & Hind & _) Hmarks.
  rewrite <- Hr, <- Hi.
  replace (buffered_representation r0) with (buffered_representation r)
    by (unfold buffered_representation; rewrite Hr, Hi; reflexivity).
  apply copy_representation_out_defined.
  - rewrite Hr; exact Hlen.
  - rewrite Hi; unfold CW_REC_REPRESENTATION_CAPACITY in *; lia.
  - apply marks_not_nul.
    apply (marks_invariant_same r0 r Hr Hi Hmarks).
Qed.

Lemma poll_eow_run (r : cw_rec_t) :
  state r ≠ RS_IDLE → state r ≠ RS_MARK →
  buffer_invariant r → marks_invariant r →
  let is_error :=
    bool_decide (state r = RS_EOC_GAP_ERR ∨ state r = RS_EOW_GAP_ERR) in
  ∃ r',
    cw_rec_poll_representation_eow_internal r
    = Some (r', {| out_representation := buffered_representation r;
                   out_is_end_of_word := true;
                   out_is_error := is_error |})
    ∧ state r' = (if is_error then RS_EOW_GAP_ERR else RS_EOW_GAP)
    ∧ representation r'
      = <[Z.to_nat (representation_ind r) := zero]> (representation r)
    ∧ representation_ind r' = representation_ind r
    ∧ mark_end r' = mark_end r
    ∧ (parameters_invariant r → parameters_invariant r').
Proof.
  intros Hidle Hmark Hbuf Hmarks is_error.
  unfold cw_rec_poll_representation_eow_internal.
  subst is_error.
  destruct (state r) eqn:Hs; try contradiction; decide_states;
    cbn [mbind option_bind].
  all: match goal with
       | |- context [copy_representation_out ?r1] =>
           rewrite (copy_representation_out_run r r1 eq_refl eq_refl
                      Hbuf Hmarks)
       end.
  all: cbn [mbind option_bind].
  all: eexists; split; [cbn; rewrite ?Hs; reflexivity |].
  all: cbn; rewrite ?Hs; auto 10.
Qed.

Lemma poll_eoc_run (r : cw_rec_t) (space_len : Z) :
  state r = RS_SPACE ∨ state r = RS_EOC_GAP ∨ state r = RS_EOC_GAP_ERR →
  buffer_invariant r → marks_invariant r → parameters_invariant r →
  parameters_in_sync r = true →
  let is_error := bool_decide (state r = RS_EOC_GAP_ERR) in
  ∃ r',
    cw_rec_poll_representation_eoc_internal r space_len
    = Some (r', {| out_representation := buffered_representation r;
                   out_is_end_of_word := false;
                   out_is_error := is_error |})
    ∧ state r' = (if is_error then RS_EOC_GAP_ERR else RS_EOC_GAP)
    ∧ representation r'
      = <[Z.to_nat (representation_ind r) := zero]> (representation r)
    ∧ representation_ind r' = representation_ind r
    ∧ mark_end r' = mark_end r
    ∧ parameters_invariant r'
    ∧ parameters_in_sync r' = true
    ∧ eoc_len_min r' = eoc_len_min r
    ∧ eoc_len_max r' = eoc_len_max r.
Proof.
  intros Hstate Hbuf Hmarks Hinv Hin is_error.
  unfold cw_rec_poll_representation_eoc_internal.
  subst is_error.
  destruct Hstate as [Hs | [Hs | Hs]]; rewrite Hs; decide_states.
  - destruct (update_stats_parameters_invariant
                r CW_REC_STAT_ICHAR_SPACE space_len Hinv)
      as (r1 & Hu & Hinv1); [discriminate |].
    rewrite Hu; cbn [mbind option_bind].
    assert (Hsame : parameters_in_sync r1 = true
                    ∧ eoc_len_min r1 = eoc_len_min r
                    ∧ eoc_len_max r1 = eoc_len_max r).
    { destruct (update_stats_result r r CW_REC_STAT_ICHAR_SPACE space_len)
        as (delta0 & Hu'); [apply sync_in_sync, Hin | apply Hinv.. |].
      rewrite Hu in Hu'; injection Hu' as ->. auto. }
    destruct Hsame as (Hin1 & Hmin1 & Hmax1).
    apply update_stats_buffer_frame in Hu
      as (Hs1 & Hr1 & Hi1 & _ & He1 & _).
    rewrite (copy_representation_out_run r (set_state RS_EOC_GAP r1))
      by assumption.
    cbn [mbind option_bind].
    eexists; split; [reflexivity |].
    cbn; auto 10.
  - cbn [mbind option_bind].
    rewrite (copy_representation_out_run r r eq_refl eq_refl Hbuf Hmarks).
    cbn [mbind option_bind].
    eexists; split; [rewrite Hs; reflexivity |].
    cbn; rewrite ?Hs; auto 10.
  - cbn [mbind option_bind].
    rewrite (copy_representation_out_run r r eq_refl eq_refl Hbuf Hmarks).
    cbn [mbind option_bind].
    eexists; split; [rewrite Hs; reflexivity |].
    cbn; rewrite ?Hs; auto 10.
Qed.
Lemma poll_run (rec : cw_rec_t) (timestamp : option timeval) :
  buffer_invariant rec → marks_invariant rec → parameters_invariant rec →
  ∃ rec' status,
    poll rec timestamp = Some (rec', status)
    ∧ parameters_invariant rec'
    ∧ marks_invariant rec'
    ∧ representation_ind rec' = representation_ind rec
    ∧ buffered_representation rec' = buffered_representation rec
    ∧ mark_end rec' = mark_end rec
    ∧ match status with
      | CW_SUCCESS out =>
          out_representation out = buffered_representation rec
          ∧ out_is_error out
            = bool_decide (state rec = RS_EOC_GAP_ERR
                           ∨ state rec = RS_EOW_GAP_ERR)
          ∧ state rec'
            = (if out_is_end_of_word out
               then if out_is_error out then RS_EOW_GAP_ERR else RS_EOW_GAP
               else if out_is_error out then RS_EOC_GAP_ERR else RS_EOC_GAP)
          ∧ representation rec'
            = <[Z.to_nat (representation_ind rec) := zero]>
                (representation rec)
          ∧ (out_is_end_of_word out = false →
             ∃ now,
               timestamp_validate timestamp = CW_SUCCESS now
               ∧ timestamp_compare (mark_end rec) now ≠ INT_MAX
               ∧ parameters_in_sync rec' = true
               ∧ eoc_len_min rec'
                 ≤ timestamp_compare (mark_end rec) now
                 ≤ eoc_len_max rec')
      | CW_FAILURE e =>
          state rec' = state rec ∧ representation rec' = representation rec
      end.
Proof.
  intros Hbuf Hmarks Hinv.
  assert (Hterm : ∀ r',
    representation r'
    = <[Z.to_nat (representation_ind rec) := zero]> (representation rec) →
    representation_ind r' = representation_ind rec →
    marks_invariant r'
    ∧ buffered_representation r' = buffered_representation rec).
  { intros r' Hr Hi. split.
    - apply (marks_invariant_insert rec r' zero Hr);
        [apply Hbuf | left; exact Hi | exact Hmarks].
    - unfold buffered_representation. rewrite Hr, Hi.
      apply take_insert_ge; lia. }
  unfold cw_rec_poll_representation_internal.
  destruct (bool_decide (state rec = RS_EOW_GAP)
            || bool_decide (state rec = RS_EOW_GAP_ERR)) eqn:Heow.
  { destruct (poll_eow_run rec) as (r' & Hrun & Hs & Hr & Hi & He & Hp);
      try assumption;
      try (intros Hx; rewrite Hx in Heow; discriminate Heow).
    rewrite Hrun; cbn [mbind option_bind].
    destruct (Hterm r' Hr Hi) as [Hm Hb].
    eexists _, _; split; [reflexivity |].
    cbn [out_representation out_is_error out_is_end_of_word].
    split_and!; auto; discriminate. }
  destruct (bool_decide (state rec = RS_IDLE)
            || bool_decide (state rec = RS_MARK)) eqn:Hidle.
  { eexists _, _; split; [reflexivity |]. auto 10. }
  assert (Hstate : state rec = RS_SPACE ∨ state rec = RS_EOC_GAP
                   ∨ state rec = RS_EOC_GAP_ERR).
  { destruct (state rec); auto; discriminate. }
  destruct (timestamp_validate timestamp) as [now | e].
  2: { eexists _, _; split; [reflexivity |]. auto 10. }
  destruct (bool_decide (timestamp_compare (mark_end rec) now = INT_MAX))
    eqn:Hmax.
  { eexists _, _; split; [reflexivity |]. auto 10. }
  apply bool_decide_eq_false in Hmax.
  destruct (sync_parameters_invariant rec Hinv) as (rs & Hsync & Hinvs).
  rewrite Hsync; cbn [mbind option_bind].
  pose proof (sync_result_in_sync _ _ Hsync) as Hins.
  pose proof (sync_preserves _ _ Hsync)
    as (Hss & _ & _ & _ & _ & _ & Hes & Hrs & His & _).
  assert (Hbufs : buffer_invariant rs)
    by (apply (buffer_invariant_frame rec rs Hbuf),
              sync_buffer_frame, Hsync).
  assert (Hmarkss : marks_invariant rs)
    by (apply (marks_invariant_same rec rs Hrs His Hmarks)).
  assert (Hbs : buffered_representation rs = buffered_representation rec)
    by (unfold buffered_representation; rewrite Hrs, His; reflexivity).
  destruct (bool_decide (timestamp_compare (mark_end rec) now
                         >= eoc_len_min rs)) eqn:Hge;
    [destruct (bool_decide (timestamp_compare (mark_end rec) now
                            ≤ eoc_len_max rs)) eqn:Hle |];
    cbn [andb].
  - apply bool_decide_eq_true in Hge, Hle.
    destruct (poll_eoc_run rs (timestamp_compare (mark_end rec) now))
      as (r' & Hrun & Hs & Hr & Hi & He & Hp & Hin' & Hmin' & Hmax');
      try assumption.
    { rewrite Hss; exact Hstate. }
    rewrite Hrun; cbn [mbind option_bind].
    rewrite Hrs, His in Hr. rewrite His in Hi.
    destruct (Hterm r' Hr Hi) as [Hm Hb].
    eexists _, _; split; [reflexivity |].
    cbn [out_representation out_is_error out_is_end_of_word].
    rewrite Hss in Hs. rewrite Hss, Hbs, He, Hes.
    split_and!; try assumption.
    all: try (destruct Hstate as [Hx | [Hx | Hx]]; rewrite Hx in *;
              first [reflexivity | exact Hs]).
    intros _. exists now. rewrite Hmin', Hmax'.
    split_and!; auto; lia.
  - assert (Hgt : bool_decide (timestamp_compare (mark_end rec) now
                               > eoc_len_max rs) = true).
    { apply bool_decide_eq_true. apply bool_decide_eq_false in Hle. lia. }
    rewrite Hgt.
    destruct (poll_eow_run rs) as (r' & Hrun & Hs & Hr & Hi & He & Hp);
      try assumption;
      try (rewrite Hss; destruct Hstate as [-> | [-> | ->]];
           discriminate).
    rewrite Hrun; cbn [mbind option_bind].
    rewrite Hrs, His in Hr. rewrite His in Hi.
    destruct (Hterm r' Hr Hi) as [Hm Hb].
    eexists _, _; split; [reflexivity |].
    cbn [out_representation out_is_error out_is_end_of_word].
    rewrite Hss in Hs. rewrite Hss, Hbs, He, Hes.
    split_and!; auto; discriminate.
  - destruct (bool_decide (timestamp_compare (mark_end rec) now
                           > eoc_len_max rs)).
    + destruct (poll_eow_run rs) as (r' & Hrun & Hs & Hr & Hi & He & Hp);
        try assumption;
        try (rewrite Hss; destruct Hstate as [-> | [-> | ->]];
             discriminate).
      rewrite Hrun; cbn [mbind option_bind].
      rewrite Hrs, His in Hr. rewrite His in Hi.
      destruct (Hterm r' Hr Hi) as [Hm Hb].
      eexists _, _; split; [reflexivity |].
      cbn [out_representation out_is_error out_is_end_of_word].
      rewrite Hss in Hs. rewrite Hss, Hbs, He, Hes.
      split_and!; auto; discriminate.
    + eexists _, _; split; [reflexivity |].
      rewrite Hbs. auto 10.
Qed.
Lemma mark_begin_run (rec : cw_rec_t) (timestamp : option timeval) :
  parameters_invariant rec →
  ∃ rec' status,
    mark_begin rec timestamp = Some (rec', status)
    ∧ parameters_invariant rec'
    ∧ representation rec' = representation rec
    ∧ representation_ind rec' = representation_ind rec.
Proof.
  intros Hinv. unfold cw_rec_mark_begin_internal.
  destruct (bool_decide (state rec ≠ RS_IDLE)
            && bool_decide (state rec ≠ RS_SPACE));
    [eexists _, _; split; [reflexivity | auto] |].
  destruct (timestamp_validate timestamp) as [t | e];
    [| eexists _, _; split; [reflexivity | auto]].
  cbn [state set_mark_start mark_end mark_start].
  destruct (bool_decide (state rec = RS_SPACE)).
  - destruct (update_stats_parameters_invariant
                (set_mark_start t rec) CW_REC_STAT_IMARK_SPACE
                (timestamp_compare (mark_end rec) t) Hinv)
      as (r1 & Hu & Hinv1); [discriminate |].
    rewrite Hu; cbn [mbind option_bind].
    apply update_stats_buffer_frame in Hu as (_ & Hr1 & Hi1 & _).
    eexists _, _; split; [reflexivity |].
    split_and!; [exact Hinv1 | exact Hr1 | exact Hi1].
  - cbn [mbind option_bind].
    eexists _, _; split; [reflexivity |].
    split_and!; [exact Hinv | reflexivity | reflexivity].
Qed.

Lemma add_mark_run
    (rec : cw_rec_t) (timestamp : option timeval) (mark : ascii) :
  buffer_invariant rec →
  ∃ rec' status,
    add_mark rec timestamp mark = Some (rec', status)
    ∧ (parameters_invariant rec → parameters_invariant rec')
    ∧ (is_mark mark → marks_invariant rec → marks_invariant rec').
Proof.
  intros Hbuf.
  pose proof Hbuf as (Hl & Hb & Hroom & _).
  destruct (bool_decide (state rec ≠ RS_IDLE)
            && bool_decide (state rec ≠ RS_SPACE)) eqn:Hst.
  { unfold cw_rec_add_mark_internal; rewrite Hst.
    eexists _, _; split; [reflexivity | auto]. }
  assert (Hstate : state rec = RS_IDLE ∨ state rec = RS_SPACE).
  { destruct (state rec); auto; discriminate. }
  destruct (timestamp_validate timestamp) as [t | e] eqn:Hvalid.
  2: { unfold cw_rec_add_mark_internal; rewrite Hst, Hvalid.
       eexists _, _; split; [reflexivity | auto]. }
  assert (Hi : 0 ≤ representation_ind rec < CW_REC_REPRESENTATION_CAPACITY).
  { unfold CW_REC_REPRESENTATION_CAPACITY in *.
    split; [lia |].
    assert (representation_ind rec < 256 - 1) by (apply Hroom; tauto). lia. }
  destruct (add_mark_step timestamp_validate rec timestamp t mark
              Hvalid Hl Hi Hstate)
    as (r1 & Hadd & _ & Hi1 & Hr1 & _).
  eexists _, _; split; [exact Hadd |].
  split.
  - pose proof Hadd as Hadd'.
    unfold cw_rec_add_mark_internal in Hadd'.
    rewrite Hst, Hvalid in Hadd'.
    destruct (array_set _ _ _) as [buf |]; [| discriminate].
    cbn [mbind option_bind] in Hadd'.
    destruct (bool_decide _) in Hadd'; injection Hadd' as <-; trivial.
  - intros Hmark Hmarks.
    apply (marks_invariant_insert rec r1 mark Hr1); [lia | | exact Hmarks].
    right. split; [exact Hi1 |]. split; [| exact Hmark].
    unfold CW_REC_REPRESENTATION_CAPACITY in *. lia.
Qed.
Lemma mark_end_keeps
    (rec rec' : cw_rec_t) (timestamp : option timeval)
    (status : cw_ret unit) :
  mark_end_ rec timestamp = Some (rec', status) →
  buffer_invariant rec → parameters_invariant rec → marks_invariant rec →
  parameters_invariant rec' ∧ marks_invariant rec'.
Proof.
  intros H Hbuf Hinv Hmarks.
  pose proof Hbuf as (Hl & Hb & Hroom & _).
  pose proof H as Hrun.
  unfold cw_rec_mark_end_internal in H.
  destruct (bool_decide (state rec ≠ RS_MARK)) eqn:Hst;
    [injection H as <-; auto |].
  assert (Hstate : state rec = RS_MARK).
  { destruct (state rec); auto; discriminate. }
  assert (Hi : 0 ≤ representation_ind rec < CW_REC_REPRESENTATION_CAPACITY).
  { unfold CW_REC_REPRESENTATION_CAPACITY in *.
    split; [lia |].
    assert (representation_ind rec < 256 - 1) by (apply Hroom; tauto). lia. }
  destruct (timestamp_validate timestamp) as [t | e] eqn:Hvalid;
    [| injection H as <-; auto].
  cbn [mark_start mark_end set_mark_end noise_spike_threshold
         representation_ind] in H.
  destruct (bool_decide (noise_spike_threshold rec > 0)
            && bool_decide (timestamp_compare (mark_start rec) t
                            ≤ noise_spike_threshold rec)) eqn:Hnoise.
  { injection H as <- _. auto. }
  destruct (identify_mark_parameters_invariant
              (set_mark_end t rec) (timestamp_compare (mark_start rec) t)
              Hinv)
    as (r1 & st1 & Hid & Hinv1).
  rewrite Hid in H; cbn [mbind option_bind] in H.
  destruct st1 as [mark | e].
  - assert (Hn : ¬ (noise_spike_threshold rec > 0
                    ∧ timestamp_compare (mark_start rec) t
                      ≤ noise_spike_threshold rec)).
    { intros [H1 H2]. apply andb_false_iff in Hnoise as [Hf | Hf];
        apply bool_decide_eq_false_1 in Hf; contradiction. }
    destruct (mark_end_step timestamp_validate timestamp_compare
                rec r1 rec' timestamp t mark status Hstate Hvalid
                Hn Hid Hi Hrun) as (_ & _ & Hi' & Hr' & _).
    pose proof (identify_mark_buffer_frame _ _ _ _ Hid) as [_ Hmark].
    split.
    + destruct (if is_adaptive_receive_mode r1
                then cw_rec_update_averages_internal
                       r1 (timestamp_compare (mark_start rec) t) mark
                else Some r1) as [r2 |] eqn:H2; [| discriminate].
      cbn [mbind option_bind] in H.
      assert (Hinv2 : parameters_invariant r2).
      { destruct (is_adaptive_receive_mode r1).
        - apply (update_averages_parameters_invariant _ _ _ _ H2 Hinv1).
        - injection H2 as <-; exact Hinv1. }
      assert (Hstats : ∃ r3,
        (if Ascii.eqb mark CW_DOT_REPRESENTATION
         then cw_rec_update_stats_internal
                r2 CW_REC_STAT_DOT (timestamp_compare (mark_start rec) t)
         else cw_rec_update_stats_internal
                r2 CW_REC_STAT_DASH (timestamp_compare (mark_start rec) t))
        = Some r3 ∧ parameters_invariant r3).
      { destruct (Ascii.eqb mark CW_DOT_REPRESENTATION);
          apply update_stats_parameters_invariant;
          solve [exact Hinv2 | discriminate]. }
      destruct Hstats as (r3 & H3 & Hinv3).
      rewrite H3 in H; cbn [mbind option_bind] in H.
      destruct (array_set _ _ _) as [buf |]; [| discriminate].
      cbn [mbind option_bind] in H.
      destruct (bool_decide _) in H; injection H as <- _; exact Hinv3.
    + apply (marks_invariant_insert rec rec' mark Hr');
        [lia | | exact Hmarks].
      right. split; [exact Hi' |]. split; [| exact Hmark].
      unfold CW_REC_REPRESENTATION_CAPACITY in *. lia.
  - injection H as <- _.
    split; [exact Hinv1 |].
    apply identify_mark_failure in Hid as (_ & Hr1 & Hi1 & _).
    apply (marks_invariant_same rec r1 Hr1 Hi1 Hmarks).
Qed.

Lemma mark_end_fixed_run (rec : cw_rec_t) (timestamp : option timeval) :
  buffer_invariant rec → parameters_invariant rec →
  is_adaptive_receive_mode rec = false →
  ∃ rec' status, mark_end_ rec timestamp = Some (rec', status).
Proof.
  intros Hbuf Hinv Hfixed.
  pose proof Hbuf as (Hl & Hb & Hroom & _).
  unfold cw_rec_mark_end_internal.
  destruct (bool_decide (state rec ≠ RS_MARK)) eqn:Hst;
    [eexists _, _; reflexivity |].
  assert (Hstate : state rec = RS_MARK).
  { destruct (state rec); auto; discriminate. }
  destruct (timestamp_validate timestamp) as [t | e];
    [| eexists _, _; reflexivity].
  cbn [mark_start mark_end set_mark_end noise_spike_threshold
         representation_ind].
  destruct (bool_decide (noise_spike_threshold rec > 0)
            && bool_decide (timestamp_compare (mark_start rec) t
                            ≤ noise_spike_threshold rec));
    [eexists _, _; reflexivity |].
  destruct (identify_mark_parameters_invariant
              (set_mark_end t rec) (timestamp_compare (mark_start rec) t)
              Hinv)
    as (r1 & st1 & Hid & Hinv1).
  rewrite Hid; cbn [mbind option_bind].
  destruct st1 as [mark | e]; [| eexists _, _; reflexivity].
  apply identify_mark_buffer_frame in Hid
    as [(_ & Hr1 & Hi1 & _ & _ & _ & Had1) _].
  cbn [representation representation_ind is_adaptive_receive_mode
       set_mark_end] in Hr1, Hi1, Had1.
  rewrite Had1, Hfixed; cbn [mbind option_bind].
  assert (Hstats : ∃ r3,
    (if Ascii.eqb mark CW_DOT_REPRESENTATION
     then cw_rec_update_stats_internal
            r1 CW_REC_STAT_DOT (timestamp_compare (mark_start rec) t)
     else cw_rec_update_stats_internal
            r1 CW_REC_STAT_DASH (timestamp_compare (mark_start rec) t))
    = Some r3
    ∧ representation r3 = representation rec
    ∧ representation_ind r3 = representation_ind rec).
  { destruct (Ascii.eqb mark CW_DOT_REPRESENTATION).
    - destruct (update_stats_parameters_invariant r1 CW_REC_STAT_DOT
                  (timestamp_compare (mark_start rec) t) Hinv1)
        as (r3 & H3 & _); [discriminate |].
      exists r3; split; [exact H3 |].
      apply update_stats_buffer_frame in H3 as (_ & Hr3 & Hi3 & _).
      rewrite Hr3, Hi3; auto.
    - destruct (update_stats_parameters_invariant r1 CW_REC_STAT_DASH
                  (timestamp_compare (mark_start rec) t) Hinv1)
        as (r3 & H3 & _); [discriminate |].
      exists r3; split; [exact H3 |].
      apply update_stats_buffer_frame in H3 as (_ & Hr3 & Hi3 & _).
      rewrite Hr3, Hi3; auto. }
  destruct Hstats as (r3 & H3 & Hr3 & Hi3).
  rewrite H3; cbn [mbind option_bind].
  unfold array_set. rewrite Hr3, Hi3.
  rewrite bool_decide_eq_true_2.
  2: { unfold CW_REC_REPRESENTATION_CAPACITY in *.
       assert (representation_ind rec < 256 - 1) by (apply Hroom; tauto).
       lia. }
  cbn [mbind option_bind].
  match goal with
  | |- context [if ?b then _ else _] => destruct b
  end; eexists _, _; reflexivity.
Qed.
Lemma set_adaptive_representation
    (rec rec' : cw_rec_t) (adaptive : bool) :
  cw_rec_set_adaptive_internal rec adaptive = Some rec' →
  representation rec' = representation rec
  ∧ representation_ind rec' = representation_ind rec.
Proof.
  unfold cw_rec_set_adaptive_internal; intros H.
  destruct (negb _); [| injection H as <-; auto].
  destruct (cw_rec_sync_parameters_internal _) as [r1 |] eqn:Hsync;
    [| discriminate].
  apply sync_preserves in Hsync
    as (_ & _ & _ & _ & _ & _ & _ & Hr1 & Hi1 & _).
  cbn in Hr1, Hi1. cbn [mbind option_bind] in H.
  destruct (is_adaptive_receive_mode r1); [| injection H as <-; auto].
  destruct (cw_rec_reset_average_internal _ _) as [dot_avg |];
    [| discriminate].
  cbn [mbind option_bind] in H.
  destruct (cw_rec_reset_average_internal _ _) as [dash_avg |];
    [| discriminate].
  injection H as <-. auto.
Qed.

Lemma initial_receiver_invariant : receiver_invariant cw_receiver.
Proof.
  split; [| split].
  - unfold buffer_invariant, state_matches_buffer; cbn.
    repeat split; try discriminate; try reflexivity.
  - split; [| split; [| split]].
    + split; vm_compute; split; discriminate.
    + unfold statistics_invariant. cbn [statistics statistics_ind cw_receiver].
      split; [reflexivity |]. split; [vm_compute; split; congruence |].
      split; [constructor | left].
      apply Forall_replicate; reflexivity.
    + split; [reflexivity | vm_compute; split; congruence].
    + split; [reflexivity | vm_compute; split; congruence].
  - constructor.
Qed.

Lemma step_receiver_invariant (rec rec' : cw_rec_t) :
  receiver_step timestamp_validate timestamp_compare rec rec' →
  buffer_invariant rec → parameters_invariant rec → marks_invariant rec →
  parameters_invariant rec' ∧ marks_invariant rec'.
Proof.
  intros Hstep Hbuf Hinv Hmarks.
  pose proof (setters_parameters_invariant rec) as Hset.
  destruct (reset_parameters_invariant rec Hinv)
    as (Hrp & Hrs & Hrr & Hcl & Hnt).
  destruct Hstep as [v r' st H | v r' st H | v r' st H | v | r' H | |
                     | a r' H | ts r' st H | ts r' st H | ts r' st H
                     | ts r' st H | ts r' st H | |].
  - destruct (Hset v Hinv) as ((r1 & st1 & H1 & Hinv1) & _).
    rewrite H in H1; injection H1 as <- <-.
    split; [exact Hinv1 |].
    assert (Hf : buffer_frame rec r') by (eapply setter_buffer_frame; eauto).
    destruct Hf as (_ & Hr & Hi & _).
    apply (marks_invariant_same rec r' Hr Hi Hmarks).
  - destruct (Hset v Hinv) as (_ & (r1 & st1 & H1 & Hinv1) & _).
    rewrite H in H1; injection H1 as <- <-.
    split; [exact Hinv1 |].
    assert (Hf : buffer_frame rec r') by (eapply setter_buffer_frame; eauto).
    destruct Hf as (_ & Hr & Hi & _).
    apply (marks_invariant_same rec r' Hr Hi Hmarks).
  - destruct (Hset v Hinv) as (_ & _ & (r1 & st1 & H1 & Hinv1)).
    rewrite H in H1; injection H1 as <- <-.
    split; [exact Hinv1 |].
    assert (Hf : buffer_frame rec r')
      by (eapply setter_buffer_frame; eauto 10).
    destruct Hf as (_ & Hr & Hi & _).
    apply (marks_invariant_same rec r' Hr Hi Hmarks).
  - split; [apply Hnt |].
    unfold cw_set_noise_spike_threshold.
    destruct (bool_decide _); exact Hmarks.
  - split; [apply (sync_keeps_parameters_invariant rec r' H Hinv) |].
    apply sync_preserves in H as (_ & _ & _ & _ & _ & _ & _ & Hr & Hi & _).
    apply (marks_invariant_same rec r' Hr Hi Hmarks).
  - split; [exact Hrp | exact Hmarks].
  - split; [exact Hrs | exact Hmarks].
  - destruct (set_adaptive_parameters_invariant rec a Hinv)
      as (r1 & H1 & Hinv1).
    rewrite H in H1; injection H1 as <-.
    split; [exact Hinv1 |].
    apply set_adaptive_representation in H as [Hr Hi].
    apply (marks_invariant_same rec r' Hr Hi Hmarks).
  - destruct (mark_begin_run rec ts Hinv) as (r1 & st1 & H1 & Hinv1 & Hr & Hi).
    unfold cw_start_receive_tone in H.
    rewrite H in H1; injection H1 as <- <-.
    split; [exact Hinv1 |].
    apply (marks_invariant_same rec r' Hr Hi Hmarks).
  - apply (mark_end_keeps rec r' ts st H Hbuf Hinv Hmarks).
  - destruct (add_mark_run rec ts CW_DOT_REPRESENTATION Hbuf)
      as (r1 & st1 & H1 & Hp & Hm).
    unfold cw_receive_buffer_dot in H.
    rewrite H in H1; injection H1 as <- <-.
    split; [auto | apply Hm; [left; reflexivity | exact Hmarks]].
  - destruct (add_mark_run rec ts CW_DASH_REPRESENTATION Hbuf)
      as (r1 & st1 & H1 & Hp & Hm).
    unfold cw_receive_buffer_dash in H.
    rewrite H in H1; injection H1 as <- <-.
    split; [auto | apply Hm; [right; reflexivity | exact Hmarks]].
  - destruct (poll_run rec ts Hbuf Hmarks Hinv)
      as (r1 & st1 & H1 & Hinv1 & Hm1 & _).
    unfold cw_receive_representation in H.
    rewrite H in H1; injection H1 as <- <-.
    auto.
  - split; [exact Hcl | constructor].
  - split; [exact Hrr | constructor].
Qed.

Lemma reachable_receiver_invariant (rec : cw_rec_t) :
  reachable timestamp_validate timestamp_compare rec →
  receiver_invariant rec.
Proof.
  intros Hreach. split.
  { exact (reachable_buffer_invariant timestamp_validate timestamp_compare
             rec Hreach). }
  revert rec Hreach.
  apply (rtc_ind_r (λ rec, parameters_invariant rec ∧ marks_invariant rec)
                   cw_receiver).
  - apply initial_receiver_invariant.
  - intros r r' Hreach Hstep [Hinv Hmarks].
    apply (step_receiver_invariant r r' Hstep); try assumption.
    exact (reachable_buffer_invariant timestamp_validate timestamp_compare
             r Hreach).
Qed.

(** ** The timing parameters of reachable receivers *)

Lemma mark_begin_timing_invariant
    (rec rec' : cw_rec_t) (timestamp : option timeval)
    (status : cw_ret unit) :
  mark_begin rec timestamp = Some (rec', status) →
  CW_SPEED_MIN ≤ speed rec ≤ CW_SPEED_MAX →
  timing_invariant rec → timing_invariant rec'.
Proof.
  unfold cw_rec_mark_begin_internal; intros H Hspeed Hinv.
  destruct (_ && _); [injection H as <- _; exact Hinv |].
  destruct (timestamp_validate timestamp) as [t | e];
    [| injection H as <- _; exact Hinv].
  cbn [state set_mark_start] in H.
  destruct (bool_decide (state rec = RS_SPACE)).
  - destruct (cw_rec_update_stats_internal _ _ _) as [r1 |] eqn:Hu;
      [| discriminate].
    cbn [mbind option_bind] in H. injection H as <- _.
    apply update_stats_timing_invariant in Hu;
      [| exact Hspeed
       | apply (timing_invariant_frame rec); [repeat split | exact Hinv]].
    apply (timing_invariant_frame r1); [repeat split | exact Hu].
  - cbn [mbind option_bind] in H. injection H as <- _.
    apply (timing_invariant_frame rec); [repeat split | exact Hinv].
Qed.

Lemma add_mark_timing_invariant
    (rec rec' : cw_rec_t) (timestamp : option timeval) (mark : ascii)
    (status : cw_ret unit) :
  add_mark rec timestamp mark = Some (rec', status) →
  timing_invariant rec → timing_invariant rec'.
Proof.
  unfold cw_rec_add_mark_internal; intros H Hinv.
  destruct (_ && _); [injection H as <- _; exact Hinv |].
  destruct (timestamp_validate timestamp) as [t | e];
    [| injection H as <- _; exact Hinv].
  destruct (array_set _ _ _) as [buf |]; [| discriminate].
  cbn [mbind option_bind] in H.
  match type of H with
  | (if ?b then _ else _) = _ => destruct b
  end; injection H as <- _;
    (apply (timing_invariant_frame rec); [repeat split | exact Hinv]).
Qed.

Lemma mark_end_timing_invariant
    (rec rec' : cw_rec_t) (timestamp : option timeval)
    (status : cw_ret unit) :
  mark_end_ rec timestamp = Some (rec', status) →
  parameters_invariant rec →
  timing_invariant rec → timing_invariant rec'.
Proof.
  unfold cw_rec_mark_end_internal; intros H Hpar Hinv.
  destruct (bool_decide (state rec ≠ RS_MARK));
    [injection H as <- _; exact Hinv |].
  destruct (timestamp_validate timestamp) as [t | e];
    [| injection H as <- _; exact Hinv].
  cbn [mark_start mark_end set_mark_end noise_spike_threshold
         representation_ind] in H.
  destruct (_ && _).
  { injection H as <- _.
    apply (timing_invariant_frame rec); [repeat split | exact Hinv]. }
  destruct (identify_mark_parameters_invariant
              (set_mark_end t rec) (timestamp_compare (mark_start rec) t)
              Hpar)
    as (r1 & st1 & Hid & Hpar1).
  rewrite Hid in H; cbn [mbind option_bind] in H.
  apply identify_mark_timing_invariant in Hid;
    [| apply Hpar
     | apply (timing_invariant_frame rec); [repeat split | exact Hinv]].
  destruct st1 as [mark | e]; [| injection H as <- _; exact Hid].
  destruct (if is_adaptive_receive_mode r1
            then cw_rec_update_averages_internal
                   r1 (timestamp_compare (mark_start rec) t) mark
            else Some r1) as [r2 |] eqn:H2; [| discriminate].
  cbn [mbind option_bind] in H.
  assert (Hinv2 : parameters_invariant r2 ∧ timing_invariant r2).
  { destruct (is_adaptive_receive_mode r1).
    - split.
      + apply (update_averages_parameters_invariant _ _ _ _ H2 Hpar1).
      + apply (update_averages_timing_invariant _ _ _ _ H2);
          [apply Hpar1 | exact Hid].
    - injection H2 as <-; auto. }
  destruct Hinv2 as [Hpar2 Hinv2].
  destruct (if Ascii.eqb mark CW_DOT_REPRESENTATION
            then cw_rec_update_stats_internal
                   r2 CW_REC_STAT_DOT (timestamp_compare (mark_start rec) t)
            else cw_rec_update_stats_internal
                   r2 CW_REC_STAT_DASH
                   (timestamp_compare (mark_start rec) t))
    as [r3 |] eqn:H3; [| discriminate].
  cbn [mbind option_bind] in H.
  assert (Hinv3 : timing_invariant r3).
  { destruct (Ascii.eqb mark CW_DOT_REPRESENTATION);
      apply (update_stats_timing_invariant _ _ _ _ H3);
      solve [apply Hpar2 | exact Hinv2]. }
  destruct (array_set _ _ _) as [buf |]; [| discriminate].
  cbn [mbind option_bind] in H.
  match type of H with
  | (if ?b then _ else _) = _ => destruct b
  end; injection H as <- _;
    (apply (timing_invariant_frame r3); [repeat split | exact Hinv3]).
Qed.

Lemma poll_timing_invariant
    (rec rec' : cw_rec_t) (timestamp : option timeval)
    (status : cw_ret poll_result) :
  poll rec timestamp = Some (rec', status) →
  parameters_invariant rec →
  timing_invariant rec → timing_invariant rec'.
Proof.
  intros H Hpar Hinv.
  assert (Hspeed : CW_SPEED_MIN ≤ speed rec ≤ CW_SPEED_MAX) by apply Hpar.
  assert (Hcopy : ∀ r r' out,
    copy_representation_out r = Some (r', out) → timing_frame r r').
  { intros r r' out Hc. unfold copy_representation_out in Hc.
    destruct (array_set _ _ _) as [buf |]; [| discriminate].
    injection Hc as <- _. repeat split. }
  assert (Heow : ∀ r r' out,
    cw_rec_poll_representation_eow_internal r = Some (r', out) →
    timing_invariant r → timing_invariant r').
  { intros r r' out He Hr.
    unfold cw_rec_poll_representation_eow_internal in He.
    destruct (state r) eqn:Hs; decide_states_in He; cbn in He;
      try discriminate.
    all: destruct (copy_representation_out _) as [[r2 o] |] eqn:Hc;
      [| discriminate]; cbn in He; injection He as <- _.
    all: apply Hcopy in Hc.
    all: apply (timing_invariant_frame _ _ Hc).
    all: try exact Hr.
    all: apply (timing_invariant_frame r); [repeat split | exact Hr]. }
  assert (Heoc : ∀ r r' out S,
    cw_rec_poll_representation_eoc_internal r S = Some (r', out) →
    CW_SPEED_MIN ≤ speed r ≤ CW_SPEED_MAX →
    timing_invariant r → timing_invariant r').
  { intros r r' out S He Hsr Hr.
    unfold cw_rec_poll_representation_eoc_internal in He.
    destruct (state r) eqn:Hs; decide_states_in He; cbn in He;
      try discriminate.
    - destruct (cw_rec_update_stats_internal _ _ _) as [r1 |] eqn:Hu;
        [| discriminate].
      cbn in He.
      apply update_stats_timing_invariant in Hu; [| exact Hsr | exact Hr].
      destruct (copy_representation_out _) as [[r2 o] |] eqn:Hc;
        [| discriminate]; cbn in He; injection He as <- _.
      apply Hcopy in Hc.
      apply (timing_invariant_frame _ _ Hc).
      apply (timing_invariant_frame r1); [repeat split | exact Hu].
    - destruct (copy_representation_out _) as [[r2 o] |] eqn:Hc;
        [| discriminate]; cbn in He; injection He as <- _.
      apply Hcopy in Hc.
      apply (timing_invariant_frame _ _ Hc). exact Hr.
    - destruct (copy_representation_out _) as [[r2 o] |] eqn:Hc;
        [| discriminate]; cbn in He; injection He as <- _.
      apply Hcopy in Hc.
      apply (timing_invariant_frame _ _ Hc). exact Hr. }
  unfold cw_rec_poll_representation_internal in H.
  destruct (bool_decide (state rec = RS_EOW_GAP)
            || bool_decide (state rec = RS_EOW_GAP_ERR)).
  { destruct (cw_rec_poll_representation_eow_internal rec)
      as [[r1 o] |] eqn:He; [| discriminate].
    cbn in H; injection H as <- _.
    apply (Heow _ _ _ He Hinv). }
  destruct (bool_decide (state rec = RS_IDLE)
            || bool_decide (state rec = RS_MARK));
    [injection H as <- _; exact Hinv |].
  destruct (timestamp_validate timestamp) as [now | e];
    [| injection H as <- _; exact Hinv].
  destruct (bool_decide (_ = INT_MAX)); [injection H as <- _; exact Hinv |].
  destruct (cw_rec_sync_parameters_internal rec) as [rs |] eqn:Hsync;
    [| discriminate].
  cbn [mbind option_bind] in H.
  pose proof (sync_keeps_parameters_invariant rec rs Hsync Hpar) as Hpars.
  assert (Hsrs : timing_invariant rs)
    by (apply (sync_timing_invariant rec rs Hsync Hspeed Hinv)).
  destruct (_ && _).
  - destruct (cw_rec_poll_representation_eoc_internal rs _)
      as [[r1 o] |] eqn:He; [| discriminate].
    cbn in H; injection H as <- _.
    apply (Heoc _ _ _ _ He); [apply Hpars | exact Hsrs].
  - destruct (bool_decide (_ > _)).
    + destruct (cw_rec_poll_representation_eow_internal rs)
        as [[r1 o] |] eqn:He; [| discriminate].
      cbn in H; injection H as <- _.
      apply (Heow _ _ _ He Hsrs).
    + injection H as <- _; exact Hsrs.
Qed.

Lemma reachable_timing_invariant (rec : cw_rec_t) :
  reachable timestamp_validate timestamp_compare rec →
  timing_invariant rec.
Proof.
  unfold reachable; revert rec.
  apply (rtc_ind_r timing_invariant cw_receiver).
  - split; [vm_compute; split; discriminate |].
    split; [vm_compute; split; discriminate | discriminate].
  - intros r r' Hreach Hstep Hinv.
    destruct (reachable_receiver_invariant r Hreach) as (_ & Hpar & _).
    assert (Hspeed : CW_SPEED_MIN ≤ speed r ≤ CW_SPEED_MAX) by apply Hpar.
    destruct (reset_timing_invariant r Hinv)
      as (Hrp & Hrs & Hrr & Hcl & Hnt).
    destruct Hstep as [v r' st H | v r' st H | v r' st H | v | r' H | |
                       | a r' H | ts r' st H | ts r' st H | ts r' st H
                       | ts r' st H | ts r' st H | |].
    + eapply setters_timing_invariant; eauto.
    + eapply setters_timing_invariant; eauto.
    + eapply setters_timing_invariant; eauto 10.
    + apply Hnt.
    + apply (sync_timing_invariant r r' H Hspeed Hinv).
    + exact Hrp.
    + exact Hrs.
    + apply (set_adaptive_timing_invariant r r' a H Hspeed Hinv).
    + apply (mark_begin_timing_invariant r r' ts st H Hspeed Hinv).
    + apply (mark_end_timing_invariant r r' ts st H Hpar Hinv).
    + apply (add_mark_timing_invariant r r' ts _ st H Hinv).
    + apply (add_mark_timing_invariant r r' ts _ st H Hinv).
    + apply (poll_timing_invariant r r' ts st H Hpar Hinv).
    + exact Hcl.
    + exact Hrr.
Qed.

(** ** Properties of every reachable receiver *)

(** X1: in every receiver that calls of the interface lead to, the
    representation buffer has its declared size and holds nothing but dots
    and dashes; the number of buffered marks stays below the capacity, is
    zero in the idle state and positive in the inter-mark space, and
    leaves room for one more mark wherever a mark can be added. *)
Theorem reachable_buffer_in_order (rec : cw_rec_t) :
  reachable timestamp_validate timestamp_compare rec →
  Z.of_nat (length (representation rec)) = CW_REC_REPRESENTATION_CAPACITY + 1
  ∧ 0 ≤ cw_get_receive_buffer_length rec < cw_get_receive_buffer_capacity
  ∧ (state rec = RS_IDLE → cw_get_receive_buffer_length rec = 0)
  ∧ (state rec = RS_SPACE → 0 < cw_get_receive_buffer_length rec)
  ∧ (state rec = RS_IDLE ∨ state rec = RS_MARK ∨ state rec = RS_SPACE →
     cw_get_receive_buffer_length rec < cw_get_receive_buffer_capacity - 1)
  ∧ Forall is_mark (buffered_representation rec).
Proof.
  intros Hreach.
  destruct (reachable_receiver_invariant rec Hreach)
    as ((Hl & Hb & Hroom & Hidle & Hspace) & _ & Hmarks).
  unfold cw_get_receive_buffer_length, cw_get_receive_buffer_capacity.
  unfold CW_REC_REPRESENTATION_CAPACITY in *.
  split_and!; try assumption; try lia.
  intros Hs; specialize (Hspace Hs); lia.
Qed.

(** X2: the receive speed of every reachable receiver lies between
    [CW_SPEED_MIN] and [CW_SPEED_MAX], also while the adaptive mode tracks
    the speed of the sender. *)
Theorem reachable_speed_in_range (rec : cw_rec_t) :
  reachable timestamp_validate timestamp_compare rec →
  CW_SPEED_MIN ≤ cw_get_receive_speed rec ≤ CW_SPEED_MAX.
Proof.
  intros Hreach.
  destruct (reachable_receiver_invariant rec Hreach) as (_ & (Hs & _) & _).
  apply Hs.
Qed.

(** X3: on a reachable receiver the functions that set or read parameters
    have a defined result for every argument: the synchronization of the
    timing parameters never divides by zero and the averaging buffers are
    reset within their bounds. *)
Theorem parameter_calls_defined
    (rec : cw_rec_t) (v : Z) (adaptive : bool) :
  reachable timestamp_validate timestamp_compare rec →
  (∃ rec' status, cw_set_receive_speed rec v = Some (rec', status))
  ∧ (∃ rec' status, cw_set_tolerance rec v = Some (rec', status))
  ∧ (∃ rec' status, cw_rec_set_gap_internal rec v = Some (rec', status))
  ∧ (∃ rec', cw_rec_set_adaptive_internal rec adaptive = Some rec')
  ∧ (∃ rec' parameters,
        cw_get_receive_parameters rec = Some (rec', parameters)
        ∧ parameters_in_sync rec' = true).
Proof.
  intros Hreach.
  destruct (reachable_receiver_invariant rec Hreach) as (_ & Hinv & _).
  destruct (setters_parameters_invariant rec v Hinv)
    as ((r1 & s1 & H1 & _) & (r2 & s2 & H2 & _) & (r3 & s3 & H3 & _)).
  destruct (set_adaptive_parameters_invariant rec adaptive Hinv)
    as (r4 & H4 & _).
  destruct (sync_parameters_invariant rec Hinv) as (r5 & H5 & _).
  split_and!; eauto.
  unfold cw_get_receive_parameters. rewrite H5; cbn [mbind option_bind].
  eexists _, _; split; [reflexivity |].
  apply (sync_result_in_sync rec r5 H5).
Qed.

(** X4: on a reachable receiver the functions that take marks and the
    poll have a defined result for every timestamp: no access goes
    outside the representation buffer or the statistics buffer.  So has
    [cw_end_receive_tone] in fixed speed mode. *)
Theorem keying_calls_defined (rec : cw_rec_t) (timestamp : option timeval) :
  reachable timestamp_validate timestamp_compare rec →
  (∃ rec' status,
      cw_start_receive_tone timestamp_validate timestamp_compare
                            rec timestamp = Some (rec', status))
  ∧ (∃ rec' status,
        cw_receive_buffer_dot timestamp_validate rec timestamp
        = Some (rec', status))
  ∧ (∃ rec' status,
        cw_receive_buffer_dash timestamp_validate rec timestamp
        = Some (rec', status))
  ∧ (∃ rec' status,
        cw_receive_representation timestamp_validate timestamp_compare
                                  rec timestamp = Some (rec', status))
  ∧ (is_adaptive_receive_mode rec = false →
     ∃ rec' status,
       cw_end_receive_tone timestamp_validate timestamp_compare
                           rec timestamp = Some (rec', status)).
Proof.
  intros Hreach.
  destruct (reachable_receiver_invariant rec Hreach)
    as (Hbuf & Hinv & Hmarks).
  destruct (mark_begin_run rec timestamp Hinv) as (r1 & s1 & H1 & _).
  destruct (add_mark_run rec timestamp CW_DOT_REPRESENTATION Hbuf)
    as (r2 & s2 & H2 & _).
  destruct (add_mark_run rec timestamp CW_DASH_REPRESENTATION Hbuf)
    as (r3 & s3 & H3 & _).
  destruct (poll_run rec timestamp Hbuf Hmarks Hinv) as (r4 & s4 & H4 & _).
  split_and!; eauto.
  intros Hfixed.
  apply (mark_end_fixed_run rec timestamp Hbuf Hinv Hfixed).
Qed.

(** X5: a successful poll of a reachable receiver hands out exactly the
    marks that the buffer holds, as many dots and dashes as
    [cw_get_receive_buffer_length] tells; [is_error] tells whether the
    receiver was in an error state, the two flags tell the state that the
    receiver is left in, and the marks stay in the buffer. *)
Theorem poll_reports_buffer
    (rec rec' : cw_rec_t) (timestamp : option timeval) (out : poll_result) :
  reachable timestamp_validate timestamp_compare rec →
  cw_receive_representation timestamp_validate timestamp_compare
                            rec timestamp = Some (rec', CW_SUCCESS out) →
  out_representation out = buffered_representation rec
  ∧ Z.of_nat (length (out_representation out))
    = cw_get_receive_buffer_length rec
  ∧ Forall is_mark (out_representation out)
  ∧ out_is_error out
    = bool_decide (state rec = RS_EOC_GAP_ERR ∨ state rec = RS_EOW_GAP_ERR)
  ∧ state rec'
    = (if out_is_end_of_word out
       then if out_is_error out then RS_EOW_GAP_ERR else RS_EOW_GAP
       else if out_is_error out then RS_EOC_GAP_ERR else RS_EOC_GAP)
  ∧ buffered_representation rec' = buffered_representation rec
  ∧ cw_get_receive_buffer_length rec' = cw_get_receive_buffer_length rec.
Proof.
  intros Hreach Hpoll.
  destruct (reachable_receiver_invariant rec Hreach)
    as (Hbuf & Hinv & Hmarks).
  destruct (poll_run rec timestamp Hbuf Hmarks Hinv)
    as (r1 & s1 & H1 & _ & _ & Hi & Hb & _ & Hout).
  unfold cw_receive_representation in Hpoll.
  rewrite Hpoll in H1; injection H1 as <- <-.
  destruct Hout as (Hrep & Herr & Hstate & _).
  destruct Hbuf as (Hl & Hind & _).
  split; [exact Hrep |].
  split.
  { rewrite Hrep. unfold buffered_representation, cw_get_receive_buffer_length.
    rewrite length_take. unfold CW_REC_REPRESENTATION_CAPACITY in *. lia. }
  split; [rewrite Hrep; exact Hmarks |].
  auto.
Qed.



(** X7: polling moves a reachable receiver forward only, from the
    inter-mark space to the end of character and from there to the end
    of word, and it neither sets nor clears the error of the gap.  At the
    end of a word the poll succeeds whatever the timestamp is, valid or
    not, with the buffered representation and [is_end_of_word] set. *)
Theorem poll_moves_forward
    (rec : cw_rec_t) (timestamp : option timeval) :
  reachable timestamp_validate timestamp_compare rec →
  (∀ rec' status,
      cw_receive_representation timestamp_validate timestamp_compare
                                rec timestamp = Some (rec', status) →
      state rec' = state rec
      ∨ state rec = RS_SPACE
        ∧ (state rec' = RS_EOC_GAP ∨ state rec' = RS_EOW_GAP)
      ∨ state rec = RS_EOC_GAP ∧ state rec' = RS_EOW_GAP
      ∨ state rec = RS_EOC_GAP_ERR ∧ state rec' = RS_EOW_GAP_ERR)
  ∧ (state rec = RS_EOW_GAP ∨ state rec = RS_EOW_GAP_ERR →
     ∃ rec',
       cw_receive_representation timestamp_validate timestamp_compare
                                 rec timestamp
       = Some (rec',
               CW_SUCCESS
                 {| out_representation := buffered_representation rec;
                    out_is_end_of_word := true;
                    out_is_error := bool_decide (state rec = RS_EOW_GAP_ERR)
                 |})
       ∧ state rec' = state rec
       ∧ buffered_representation rec' = buffered_representation rec).
Proof.
  intros Hreach.
  destruct (reachable_receiver_invariant rec Hreach)
    as (Hbuf & Hinv & Hmarks).
  assert (Heow : state rec = RS_EOW_GAP ∨ state rec = RS_EOW_GAP_ERR →
    ∃ rec',
      poll rec timestamp
      = Some (rec',
              CW_SUCCESS
                {| out_representation := buffered_representation rec;
                   out_is_end_of_word := true;
                   out_is_error := bool_decide (state rec = RS_EOW_GAP_ERR)
                |})
      ∧ state rec' = state rec
      ∧ buffered_representation rec' = buffered_representation rec).
  { intros Hs.
    destruct (poll_eow_run rec) as (r' & Hrun & Hs' & Hr & Hi & _);
      try assumption;
      try (destruct Hs as [Hs | Hs]; rewrite Hs; discriminate).
    exists r'.
    unfold cw_rec_poll_representation_internal.
    rewrite Hrun.
    destruct Hs as [Hs | Hs]; rewrite Hs in *; decide_states;
      cbn [mbind option_bind].
    all: split; [reflexivity |]; split; [exact Hs' |].
    all: unfold buffered_representation; rewrite Hr, Hi.
    all: apply take_insert_ge; lia. }
  split; [| exact Heow].
  intros rec' status Hpoll.
  unfold cw_receive_representation in Hpoll.
  destruct (decide (state rec = RS_EOW_GAP ∨ state rec = RS_EOW_GAP_ERR))
    as [Hs | Hs].
  { destruct (Heow Hs) as (r' & Hrun & Hs' & _).
    rewrite Hpoll in Hrun; injection Hrun as <- _. left; exact Hs'. }
  destruct (poll_run rec timestamp Hbuf Hmarks Hinv)
    as (r1 & s1 & H1 & _ & _ & _ & _ & _ & Hout).
  rewrite Hpoll in H1; injection H1 as <- <-.
  destruct status as [out | e]; [| left; apply Hout].
  destruct Hout as (_ & Herr & Hstate & _).
  rewrite Hstate, Herr.
  unfold cw_rec_poll_representation_internal in Hpoll.
  destruct (state rec) eqn:Hst; decide_states; decide_states_in Hpoll;
    try discriminate Hpoll;
    destruct (out_is_end_of_word out); auto 10.
  all: exfalso; apply Hs; auto.
Qed.
(** The outcomes of [cw_rec_mark_end_internal] for a valid timestamp. *)
Lemma mark_end_outcomes
    (rec rec' : cw_rec_t) (timestamp : option timeval) (t : timeval)
    (status : cw_ret unit) :
  reachable timestamp_validate timestamp_compare rec →
  timestamp_validate timestamp = CW_SUCCESS t →
  cw_end_receive_tone timestamp_validate timestamp_compare rec timestamp
  = Some (rec', status) →
  let mark_len := timestamp_compare (mark_start rec) t in
  match status with
  | CW_SUCCESS _ =>
      state rec = RS_MARK ∧ state rec' = RS_SPACE
      ∧ cw_get_receive_buffer_length rec'
        = cw_get_receive_buffer_length rec + 1
      ∧ mark_end rec' = t
  | CW_FAILURE ERANGE => state rec ≠ RS_MARK ∧ rec' = rec
  | CW_FAILURE EAGAIN =>
      state rec = RS_MARK
      ∧ 0 < noise_spike_threshold rec
      ∧ mark_len ≤ noise_spike_threshold rec
      ∧ cw_get_receive_buffer_length rec' = cw_get_receive_buffer_length rec
      ∧ state rec'
        = (if bool_decide (cw_get_receive_buffer_length rec = 0)
           then RS_IDLE else RS_SPACE)
      ∧ mark_end rec' = mark_end rec
  | CW_FAILURE ENOENT =>
      state rec = RS_MARK
      ∧ (state rec' = RS_EOC_GAP_ERR ∨ state rec' = RS_EOW_GAP_ERR)
      ∧ cw_get_receive_buffer_length rec' = cw_get_receive_buffer_length rec
  | CW_FAILURE ENOMEM =>
      state rec = RS_MARK ∧ state rec' = RS_EOC_GAP_ERR
      ∧ cw_get_receive_buffer_length rec'
        = cw_get_receive_buffer_length rec + 1
      ∧ cw_get_receive_buffer_length rec'
        = cw_get_receive_buffer_capacity - 1
  | CW_FAILURE _ => False
  end.
Proof.
  intros Hreach Hvalid Hrun mark_len.
  destruct (reachable_receiver_invariant rec Hreach)
    as (Hbuf & Hinv & Hmarks).
  pose proof Hbuf as (Hl & Hb & Hroom & _).
  unfold cw_end_receive_tone in Hrun.
  unfold cw_get_receive_buffer_length, cw_get_receive_buffer_capacity.
  pose proof Hrun as H.
  unfold cw_rec_mark_end_internal in H.
  destruct (bool_decide (state rec ≠ RS_MARK)) eqn:Hst.
  { apply bool_decide_eq_true in Hst. injection H as <- <-. auto. }
  assert (Hstate : state rec = RS_MARK).
  { destruct (state rec); auto; discriminate. }
  assert (Hi : 0 ≤ representation_ind rec < CW_REC_REPRESENTATION_CAPACITY).
  { unfold CW_REC_REPRESENTATION_CAPACITY in *.
    split; [lia |].
    assert (representation_ind rec < 256 - 1) by (apply Hroom; tauto). lia. }
  rewrite Hvalid in H.
  cbn [mark_start mark_end set_mark_end noise_spike_threshold
         representation_ind] in H.
  fold mark_len in H.
  destruct (bool_decide (noise_spike_threshold rec > 0)) eqn:Hthr;
    [destruct (bool_decide (mark_len ≤ noise_spike_threshold rec)) eqn:Hlen |];
    cbn [andb] in H.
  { apply bool_decide_eq_true in Hthr, Hlen.
    injection H as <- <-. cbn. split_and!; auto; lia. }
  all: assert (Hn : ¬ (noise_spike_threshold rec > 0
                       ∧ mark_len ≤ noise_spike_threshold rec))
         by (first [apply bool_decide_eq_false in Hlen
                   | apply bool_decide_eq_false in Hthr]; tauto).
  all: destruct (cw_rec_identify_mark_internal _ _)
         as [[r1 [mark | e]] |] eqn:Hid;
         cbn [mbind option_bind] in H; [| | discriminate].
  all: try (injection H as <- <-;
            apply identify_mark_failure in Hid as (Hs1 & _ & Hi1 & ->);
            split_and!; auto).
  all: destruct (mark_end_step timestamp_validate timestamp_compare
                   rec r1 rec' timestamp t mark status Hstate Hvalid
                   Hn Hid Hi Hrun) as (-> & Hst' & Hi' & _ & He').
  all: rewrite Hst', Hi'.
  all: destruct (bool_decide (representation_ind rec + 1
                              = CW_REC_REPRESENTATION_CAPACITY - 1))
         eqn:Hfull;
         [apply bool_decide_eq_true in Hfull |].
  all: unfold CW_REC_REPRESENTATION_CAPACITY in *.
  all: split_and!; auto; lia.
Qed.

(** X9: a receiver that is neither idle nor in the inter-mark space
    refuses marks: [cw_start_receive_tone], [cw_receive_buffer_dot] and
    [cw_receive_buffer_dash] fail with ERANGE and change nothing,
    whatever the timestamp.  [cw_clear_receive_buffer] makes a reachable
    receiver take marks again from any state: the next tone starts with
    success on an empty buffer, and a dot added then is the only mark
    buffered. *)
Theorem marks_refused_until_cleared
    (rec : cw_rec_t) (timestamp : option timeval) (t : timeval) :
  reachable timestamp_validate timestamp_compare rec →
  timestamp_validate timestamp = CW_SUCCESS t →
  (state rec ≠ RS_IDLE → state rec ≠ RS_SPACE →
   cw_start_receive_tone timestamp_validate timestamp_compare rec timestamp
   = Some (rec, CW_FAILURE ERANGE)
   ∧ cw_receive_buffer_dot timestamp_validate rec timestamp
     = Some (rec, CW_FAILURE ERANGE)
   ∧ cw_receive_buffer_dash timestamp_validate rec timestamp
     = Some (rec, CW_FAILURE ERANGE))
  ∧ (∃ rec',
        cw_start_receive_tone timestamp_validate timestamp_compare
                              (cw_clear_receive_buffer rec) timestamp
        = Some (rec', CW_SUCCESS tt)
        ∧ state rec' = RS_MARK
        ∧ cw_get_receive_buffer_length rec' = 0
        ∧ mark_start rec' = t)
  ∧ (∃ rec',
        cw_receive_buffer_dot timestamp_validate
                              (cw_clear_receive_buffer rec) timestamp
        = Some (rec', CW_SUCCESS tt)
        ∧ state rec' = RS_SPACE
        ∧ buffered_representation rec' = [CW_DOT_REPRESENTATION]).
Proof.
  intros Hreach Hvalid.
  destruct (reachable_receiver_invariant rec Hreach) as ((Hl & _) & _ & _).
  split; [| split].
  - intros Hidle Hspace.
    unfold cw_start_receive_tone, cw_receive_buffer_dot,
      cw_receive_buffer_dash, cw_rec_mark_begin_internal,
      cw_rec_add_mark_internal.
    rewrite (bool_decide_eq_true_2 _ Hidle),
            (bool_decide_eq_true_2 _ Hspace).
    auto.
  - unfold cw_start_receive_tone, cw_rec_mark_begin_internal.
    cbn [state cw_clear_receive_buffer set_state set_representation_ind
         set_mark_start].
    decide_states. rewrite Hvalid. cbn [mbind option_bind].
    eexists; split; [reflexivity |]. auto.
  - destruct (add_mark_step timestamp_validate (cw_clear_receive_buffer rec)
                timestamp t CW_DOT_REPRESENTATION Hvalid)
      as (r1 & Hadd & Hs1 & Hi1 & Hr1 & _);
      [exact Hl | cbn; unfold CW_REC_REPRESENTATION_CAPACITY; lia
       | left; reflexivity |].
    cbn in Hadd, Hs1, Hi1, Hr1.
    exists r1. split; [exact Hadd |]. split; [exact Hs1 |].
    unfold buffered_representation. rewrite Hi1, Hr1.
    destruct (representation rec) as [| c0 l]; [discriminate Hl |].
    reflexivity.
Qed.

(** X10: [cw_set_tolerance] and [cw_rec_set_gap_internal] fail with
    EINVAL on a value outside their range and change nothing; on a
    reachable receiver, fixed speed or adaptive, a value in the range is
    stored with success, and neither the state nor the buffered marks
    change. *)
Theorem set_tolerance_and_gap (rec : cw_rec_t) (v : Z) :
  reachable timestamp_validate timestamp_compare rec →
  (v < CW_TOLERANCE_MIN ∨ v > CW_TOLERANCE_MAX →
   cw_set_tolerance rec v = Some (rec, CW_FAILURE EINVAL))
  ∧ (CW_TOLERANCE_MIN ≤ v ≤ CW_TOLERANCE_MAX →
     ∃ rec',
       cw_set_tolerance rec v = Some (rec', CW_SUCCESS tt)
       ∧ cw_get_tolerance rec' = v
       ∧ buffer_frame rec rec')
  ∧ (v < CW_GAP_MIN ∨ v > CW_GAP_MAX →
     cw_rec_set_gap_internal rec v = Some (rec, CW_FAILURE EINVAL))
  ∧ (CW_GAP_MIN ≤ v ≤ CW_GAP_MAX →
     ∃ rec',
       cw_rec_set_gap_internal rec v = Some (rec', CW_SUCCESS tt)
       ∧ gap rec' = v
       ∧ buffer_frame rec rec').
Proof.
  intros Hreach.
  destruct (reachable_receiver_invariant rec Hreach) as (_ & Hinv & _).
  split_and!.
  - intros Hv. unfold cw_set_tolerance.
    destruct (decide (v < CW_TOLERANCE_MIN)) as [Hlo | Hlo].
    + rewrite (bool_decide_eq_true_2 _ Hlo); reflexivity.
    + rewrite (bool_decide_eq_false_2 _ Hlo).
      rewrite (bool_decide_eq_true_2 (v > CW_TOLERANCE_MAX)) by lia.
      reflexivity.
  - intros Hv. unfold cw_set_tolerance, cw_get_tolerance.
    rewrite (bool_decide_eq_false_2 (v < CW_TOLERANCE_MIN)) by lia.
    rewrite (bool_decide_eq_false_2 (v > CW_TOLERANCE_MAX)) by lia.
    cbn [orb].
    destruct (decide (v = tolerance rec)) as [-> | Hne].
    + rewrite (bool_decide_eq_false_2 (tolerance rec ≠ tolerance rec))
        by tauto.
      eexists; split; [reflexivity |].
      split; [reflexivity | apply buffer_frame_refl].
    + rewrite (bool_decide_eq_true_2 _ Hne).
      destruct (sync_parameters_invariant
                  (set_parameters_in_sync false (set_tolerance v rec)) Hinv)
        as (r1 & Hsync & _).
      rewrite Hsync; cbn [mbind option_bind].
      eexists; split; [reflexivity |].
      pose proof (sync_preserves _ _ Hsync) as (_ & Ht & _).
      split; [exact Ht |].
      apply sync_buffer_frame in Hsync. exact Hsync.
  - intros Hv. unfold cw_rec_set_gap_internal.
    destruct (decide (v < CW_GAP_MIN)) as [Hlo | Hlo].
    + rewrite (bool_decide_eq_true_2 _ Hlo); reflexivity.
    + rewrite (bool_decide_eq_false_2 _ Hlo).
      rewrite (bool_decide_eq_true_2 (v > CW_GAP_MAX)) by lia.
      reflexivity.
  - intros Hv. unfold cw_rec_set_gap_internal.
    rewrite (bool_decide_eq_false_2 (v < CW_GAP_MIN)) by lia.
    rewrite (bool_decide_eq_false_2 (v > CW_GAP_MAX)) by lia.
    cbn [orb].
    destruct (decide (v = gap rec)) as [-> | Hne].
    + rewrite (bool_decide_eq_false_2 (gap rec ≠ gap rec)) by tauto.
      eexists; split; [reflexivity |].
      split; [reflexivity | apply buffer_frame_refl].
    + rewrite (bool_decide_eq_true_2 _ Hne).
      destruct (sync_parameters_invariant
                  (set_parameters_in_sync false (set_gap v rec)) Hinv)
        as (r1 & Hsync & _).
      rewrite Hsync; cbn [mbind option_bind].
      eexists; split; [reflexivity |].
      pose proof (sync_preserves _ _ Hsync) as (_ & _ & Hg & _).
      split; [exact Hg |].
      apply sync_buffer_frame in Hsync. exact Hsync.
Qed.

(** X11: [cw_set_noise_spike_threshold] refuses a negative threshold with
    EINVAL and stores any other; with the threshold set to zero the noise
    filter is off: on a reachable receiver [cw_end_receive_tone], given a
    valid timestamp, never fails with EAGAIN, however short the mark. *)
Theorem noise_spike_threshold_zero (rec : cw_rec_t) (v : Z) :
  reachable timestamp_validate timestamp_compare rec →
  (v < 0 → cw_set_noise_spike_threshold rec v = (rec, CW_FAILURE EINVAL))
  ∧ (0 ≤ v →
     (cw_set_noise_spike_threshold rec v).2 = CW_SUCCESS tt
     ∧ cw_get_noise_spike_threshold (cw_set_noise_spike_threshold rec v).1
       = v)
  ∧ (∀ (timestamp : option timeval) (t : timeval) (rec' : cw_rec_t)
       (status : cw_ret unit),
        timestamp_validate timestamp = CW_SUCCESS t →
        cw_end_receive_tone timestamp_validate timestamp_compare
                            (cw_set_noise_spike_threshold rec 0).1 timestamp
        = Some (rec', status) →
        status ≠ CW_FAILURE EAGAIN).
Proof.
  intros Hreach.
  split_and!.
  - intros Hv. unfold cw_set_noise_spike_threshold.
    rewrite (bool_decide_eq_true_2 _ Hv); reflexivity.
  - intros Hv. unfold cw_set_noise_spike_threshold.
    rewrite (bool_decide_eq_false_2 (v < 0)) by lia. auto.
  - intros timestamp t rec' status Hvalid Hrun.
    assert (Hreach0 :
      reachable timestamp_validate timestamp_compare
                (cw_set_noise_spike_threshold rec 0).1).
    { eapply rtc_r; [exact Hreach |]. apply step_set_noise_spike_threshold. }
    pose proof (mark_end_outcomes _ _ _ _ _ Hreach0 Hvalid Hrun) as Hout.
    intros ->. destruct Hout as (_ & Hpos & _).
    change (noise_spike_threshold (cw_set_noise_spike_threshold rec 0).1)
      with 0 in Hpos.
    lia.
Qed.
Lemma deltas_of_app (type0 : stat_type_t)
    (l1 l2 : list cw_rec_statistics_t) :
  deltas_of type0 (l1 ++ l2) = deltas_of type0 l1 ++ deltas_of type0 l2.
Proof. unfold deltas_of. rewrite filter_app, fmap_app. reflexivity. Qed.

Lemma deltas_of_free (type0 : stat_type_t)
    (free : list cw_rec_statistics_t) :
  type0 ≠ CW_REC_STAT_NONE →
  Forall (λ s, type s = CW_REC_STAT_NONE) free →
  deltas_of type0 free = [].
Proof.
  intros Htype Hfree. unfold deltas_of.
  induction Hfree as [| s free Hs _ IH]; [reflexivity |].
  rewrite filter_cons_False by congruence. exact IH.
Qed.

Lemma deltas_of_cons (type0 : stat_type_t)
    (s : cw_rec_statistics_t) (l : list cw_rec_statistics_t) :
  deltas_of type0 (s :: l)
  = if decide (type s = type0) then delta s :: deltas_of type0 l
    else deltas_of type0 l.
Proof.
  unfold deltas_of. cbn [filter list_filter].
  destruct (decide (type s = type0)); reflexivity.
Qed.

(** The loop of [cw_rec_get_stats_internal] over a buffer whose occupied
    slots come first: it sees every record of the type. *)
Lemma get_stats_loop_occupied
    (type0 : stat_type_t) (occ free pre : list cw_rec_statistics_t)
    (sum_of_squares : PrimFloat.float) (count : Z) :
  type0 ≠ CW_REC_STAT_NONE →
  Forall occupied occ →
  Forall (λ s, type s = CW_REC_STAT_NONE) free →
  0 ≤ count → count + Z.of_nat (length occ) ≤ INT_MAX →
  get_stats_loop (length (occ ++ free)) (Z.of_nat (length pre))
                 (pre ++ occ ++ free) type0 sum_of_squares count
  = Some (foldl add_square sum_of_squares (deltas_of type0 occ),
          count + Z.of_nat (length (deltas_of type0 occ))).
Proof.
  intros Htype Hocc Hfree.
  revert pre sum_of_squares count.
  induction Hocc as [| s occ Hs Hocc IH]; intros pre sum_of_squares count
    Hc Hmax.
  - cbn [app deltas_of]. rewrite Z.add_0_r.
    destruct Hfree as [| s free Hs Hfree]; [reflexivity |].
    cbn [length get_stats_loop]. unfold array_get.
    rewrite bool_decide_eq_true_2 by lia.
    rewrite Nat2Z.id, lookup_app_r, Nat.sub_diag by lia.
    cbn [lookup list_lookup mbind option_bind].
    rewrite (bool_decide_eq_false_2 (type s = type0)) by congruence.
    rewrite (bool_decide_eq_true_2 _ Hs). reflexivity.
  - cbn [app length get_stats_loop]. unfold array_get.
    rewrite bool_decide_eq_true_2 by lia.
    rewrite Nat2Z.id, lookup_app_r, Nat.sub_diag by lia.
    cbn [lookup list_lookup mbind option_bind].
    cbn [length] in Hmax.
    replace (Z.of_nat (length pre) + 1) with (Z.of_nat (length (pre ++ [s])))
      by (rewrite length_app; cbn [length]; lia).
    replace (pre ++ s :: occ ++ free) with ((pre ++ [s]) ++ occ ++ free)
      by (rewrite <- app_assoc; reflexivity).
    rewrite deltas_of_cons.
    destruct (decide (type s = type0)) as [Heq | Hne].
    + rewrite (bool_decide_eq_true_2 _ Heq).
      rewrite (int_add_id count 1) by int_range.
      rewrite IH by lia.
      cbn [foldl length]. do 2 f_equal. lia.
    + rewrite (bool_decide_eq_false_2 _ Hne).
      rewrite (bool_decide_eq_false_2 (type s = CW_REC_STAT_NONE))
        by exact Hs.
      rewrite IH by lia.
      reflexivity.
Qed.

Lemma get_stats_result (rec : cw_rec_t) (type0 : stat_type_t) :
  statistics_invariant rec →
  type0 ≠ CW_REC_STAT_NONE →
  cw_rec_get_stats_internal rec type0
  = Some (standard_deviation (deltas_of type0 (statistics rec))).
Proof.
  intros (Hlen & Hind & Htake & Hrest) Htype.
  unfold CW_REC_STATISTICS_CAPACITY in *.
  assert (Hsplit : ∃ occ free,
    statistics rec = occ ++ free
    ∧ Forall occupied occ
    ∧ Forall (λ s, type s = CW_REC_STAT_NONE) free).
  { destruct Hrest as [Hfree | Hall].
    - exists (take (Z.to_nat (statistics_ind rec)) (statistics rec)),
             (drop (Z.to_nat (statistics_ind rec)) (statistics rec)).
      rewrite take_drop. auto.
    - exists (statistics rec), []. rewrite app_nil_r. auto. }
  destruct Hsplit as (occ & free & Hstats & Hocc & Hfree).
  assert (Hlocc : Z.of_nat (length occ) ≤ 256).
  { rewrite Hstats, length_app in Hlen. lia. }
  unfold cw_rec_get_stats_internal, CW_REC_STATISTICS_CAPACITY.
  replace (Z.to_nat 256) with (length (occ ++ free))
    by (rewrite <- Hstats; lia).
  rewrite Hstats.
  pose proof (get_stats_loop_occupied type0 occ free [] PrimFloat.zero 0
                Htype Hocc Hfree) as Hloop.
  cbn [length app] in Hloop. change (Z.of_nat 0) with 0 in Hloop.
  rewrite Hloop by int_range.
  cbn [mbind option_bind].
  rewrite deltas_of_app, (deltas_of_free type0 free Htype Hfree), app_nil_r.
  unfold standard_deviation.
  destruct (deltas_of type0 occ) as [| d0 ds]; [reflexivity |].
  rewrite bool_decide_eq_true_2 by (cbn [length]; lia).
  reflexivity.
Qed.

(** X12: the stop on the first unoccupied slot loses nothing: on a
    reachable receiver the standard deviation that
    [cw_rec_get_stats_internal] computes for a type of mark or space
    covers every record of that type in the statistics buffer, so
    [cw_get_receive_statistics] has a defined result and reports them
    all. *)
Theorem receive_statistics_cover_the_buffer (rec : cw_rec_t) :
  reachable timestamp_validate timestamp_compare rec →
  (∀ type0,
      type0 ≠ CW_REC_STAT_NONE →
      cw_rec_get_stats_internal rec type0
      = Some (standard_deviation (deltas_of type0 (statistics rec))))
  ∧ cw_get_receive_statistics rec
    = Some {| dot_sd :=
                standard_deviation
                  (deltas_of CW_REC_STAT_DOT (statistics rec));
              dash_sd :=
                standard_deviation
                  (deltas_of CW_REC_STAT_DASH (statistics rec));
              element_end_sd :=
                standard_deviation
                  (deltas_of CW_REC_STAT_IMARK_SPACE (statistics rec));
              character_end_sd :=
                standard_deviation
                  (deltas_of CW_REC_STAT_ICHAR_SPACE (statistics rec)) |}.
Proof.
  intros Hreach.
  destruct (reachable_receiver_invariant rec Hreach)
    as (_ & (_ & Hstat & _) & _).
  split; [intros type0; apply get_stats_result; exact Hstat |].
  unfold cw_get_receive_statistics.
  rewrite !get_stats_result by (exact Hstat || discriminate).
  reflexivity.
Qed.

(** The lookup [cw_representation_to_character_internal] of libcw_data.c:
    the statements hold for every such function. *)
Variable representation_to_character : list ascii → ascii.


(** C7 (amended): marks added without polling fill the representation
    buffer up to 255 marks, [CW_REC_REPRESENTATION_CAPACITY - 1].  From an
    empty buffer 254 marks are added with success, and the add that brings
    the number of buffered marks to 255 stores its mark, fails with ENOMEM
    and moves the receiver to the end-of-character error state.  On every
    receiver that calls of the interface lead to, an add that brings the
    number of buffered marks to 255 does so, and every other add moves to
    the space state with success: in [cw_rec_add_mark_internal] always; in
    [cw_rec_mark_end_internal], for a mark that is not noise and that
    [cw_rec_identify_mark_internal] accepts as a dot or a dash, always in
    fixed speed mode, and in adaptive mode whenever the call returns.  A
    poll of such a receiver in the end-of-character error state, made
    [eoc_len_min] or more after the last mark, delivers the buffered
    representation with [is_error] true. *)
Theorem representation_buffer_overflow :
  (∀ (rec : cw_rec_t) (marks : list (option timeval * ascii))
     (timestamp : option timeval) (t : timeval) (mark : ascii),
      state rec = RS_IDLE →
      representation_ind rec = 0 →
      Z.of_nat (length (representation rec))
      = CW_REC_REPRESENTATION_CAPACITY + 1 →
      Forall (λ m, ∃ t, timestamp_validate m.1 = CW_SUCCESS t) marks →
      length marks = 254%nat →
      timestamp_validate timestamp = CW_SUCCESS t →
      ∃ rec254 rec255,
        add_marks timestamp_validate rec marks
        = Some (rec254, replicate 254 (CW_SUCCESS tt))
        ∧ add_mark rec254 timestamp mark
          = Some (rec255, CW_FAILURE ENOMEM)
        ∧ state rec255 = RS_EOC_GAP_ERR
        ∧ representation_ind rec255 = 255
        ∧ buffered_representation rec255 = marks.*2 ++ [mark])
  ∧ (∀ (rec : cw_rec_t) (timestamp : option timeval) (t : timeval)
       (mark : ascii),
        reachable timestamp_validate timestamp_compare rec →
        timestamp_validate timestamp = CW_SUCCESS t →
        state rec = RS_IDLE ∨ state rec = RS_SPACE →
        let full :=
          bool_decide (representation_ind rec + 1
                       = CW_REC_REPRESENTATION_CAPACITY - 1) in
        ∃ rec',
          add_mark rec timestamp mark
          = Some (rec', if full then CW_FAILURE ENOMEM else CW_SUCCESS tt)
          ∧ state rec' = (if full then RS_EOC_GAP_ERR else RS_SPACE)
          ∧ representation_ind rec' = representation_ind rec + 1
          ∧ representation rec'
            = <[Z.to_nat (representation_ind rec) := mark]>
                (representation rec))
  ∧ (∀ (rec r1 : cw_rec_t) (timestamp : option timeval) (t : timeval)
       (mark : ascii),
        reachable timestamp_validate timestamp_compare rec →
        is_adaptive_receive_mode rec = false →
        state rec = RS_MARK →
        timestamp_validate timestamp = CW_SUCCESS t →
        let mark_len := timestamp_compare (mark_start rec) t in
        ¬ (noise_spike_threshold rec > 0
           ∧ mark_len ≤ noise_spike_threshold rec) →
        cw_rec_identify_mark_internal (set_mark_end t rec) mark_len
        = Some (r1, CW_SUCCESS mark) →
        let full :=
          bool_decide (representation_ind rec + 1
                       = CW_REC_REPRESENTATION_CAPACITY - 1) in
        ∃ rec',
          mark_end_ rec timestamp
          = Some (rec', if full then CW_FAILURE ENOMEM else CW_SUCCESS tt)
          ∧ state rec' = (if full then RS_EOC_GAP_ERR else RS_SPACE)
          ∧ representation_ind rec' = representation_ind rec + 1
          ∧ representation rec'
            = <[Z.to_nat (representation_ind rec) := mark]>
                (representation rec))
  ∧ (∀ (rec r1 rec' : cw_rec_t) (timestamp : option timeval) (t : timeval)
       (mark : ascii) (status : cw_ret unit),
        reachable timestamp_validate timestamp_compare rec →
        state rec = RS_MARK →
        timestamp_validate timestamp = CW_SUCCESS t →
        let mark_len := timestamp_compare (mark_start rec) t in
        ¬ (noise_spike_threshold rec > 0
           ∧ mark_len ≤ noise_spike_threshold rec) →
        cw_rec_identify_mark_internal (set_mark_end t rec) mark_len
        = Some (r1, CW_SUCCESS mark) →
        mark_end_ rec timestamp = Some (rec', status) →
        let full :=
          bool_decide (representation_ind rec + 1
                       = CW_REC_REPRESENTATION_CAPACITY - 1) in
        status = (if full then CW_FAILURE ENOMEM else CW_SUCCESS tt)
        ∧ state rec' = (if full then RS_EOC_GAP_ERR else RS_SPACE)
        ∧ representation_ind rec' = representation_ind rec + 1
        ∧ representation rec'
          = <[Z.to_nat (representation_ind rec) := mark]>
              (representation rec))
  ∧ (∀ (rec : cw_rec_t) (timestamp : option timeval) (now : timeval),
        reachable timestamp_validate timestamp_compare rec →
        state rec = RS_EOC_GAP_ERR →
        timestamp_validate timestamp = CW_SUCCESS now →
        ∃ rs,
          cw_rec_sync_parameters_internal rec = Some rs
          ∧ let S := timestamp_compare (mark_end rec) now in
            (S ≠ INT_MAX →
             eoc_len_min rs ≤ S ∨ eoc_len_max rs < S →
             ∃ rec',
               poll rec timestamp
               = Some (rec',
                       CW_SUCCESS
                         {| out_representation := buffered_representation rec;
                            out_is_end_of_word :=
                              bool_decide (S > eoc_len_max rs);
                            out_is_error := true |})
               ∧ state rec' = (if bool_decide (S > eoc_len_max rs)
                               then RS_EOW_GAP_ERR else RS_EOC_GAP_ERR))).
Proof.
  assert (Hroom : ∀ rec,
    reachable timestamp_validate timestamp_compare rec →
    state rec = RS_IDLE ∨ state rec = RS_MARK ∨ state rec = RS_SPACE →
    0 ≤ representation_ind rec < CW_REC_REPRESENTATION_CAPACITY).
  { intros rec Hreach Hstate.
    destruct (reachable_receiver_invariant rec Hreach)
      as ((_ & Hb & Hr & _) & _).
    specialize (Hr Hstate).
    unfold CW_REC_REPRESENTATION_CAPACITY in *. lia. }
  split_and!.
  - intros rec marks timestamp t mark Hstate Hind Hlen Hvalid Hn Ht.
    destruct (add_marks_below_capacity timestamp_validate marks rec
                Hvalid Hlen)
      as (r254 & Hrun & Hst & Hri & Hlen' & Hbuf).
    { left; exact Hstate. }
    { lia. }
    { rewrite Hind, Hn. reflexivity. }
    rewrite Hind, Hn in Hri. rewrite Hn in Hrun.
    change (0 + Z.of_nat 254) with 254 in Hri.
    destruct (add_mark_step timestamp_validate r254 timestamp t mark Ht Hlen')
      as (r255 & Hadd & Hst' & Hri' & Hrep' & _).
    { rewrite Hri. split; [discriminate | reflexivity]. }
    { exact Hst. }
    rewrite Hri in Hadd, Hst', Hri', Hrep'.
    change (bool_decide (254 + 1 = CW_REC_REPRESENTATION_CAPACITY - 1))
      with true in Hadd, Hst'.
    exists r254, r255.
    split; [exact Hrun |].
    split; [exact Hadd |].
    split; [exact Hst' |].
    split; [rewrite Hri'; reflexivity |].
    unfold buffered_representation in *.
    rewrite Hri', Hrep'. rewrite Hind in Hbuf. rewrite Hri in Hbuf.
    change (Z.to_nat (254 + 1)) with (S 254).
    change (Z.to_nat 254) with 254%nat in *.
    change (Z.to_nat 0) with 0%nat in Hbuf.
    rewrite take_0 in Hbuf. cbn [app] in Hbuf.
    unfold CW_REC_REPRESENTATION_CAPACITY in Hlen'.
    rewrite take_S_r with (x := mark)
      by (apply list_lookup_insert_eq; lia).
    rewrite take_insert_ge by lia.
    rewrite Hbuf. reflexivity.
  - intros rec timestamp t mark Hreach Hvalid Hstate full.
    destruct (reachable_receiver_invariant rec Hreach)
      as ((Hlen & _) & _).
    destruct (add_mark_step timestamp_validate rec timestamp t mark
                Hvalid Hlen)
      as (rec' & H1 & H2 & H3 & H4 & _).
    { apply Hroom; [exact Hreach | tauto]. }
    { exact Hstate. }
    exists rec'; auto.
  - intros rec r1 timestamp t mark Hreach Had Hstate Hvalid mark_len Hnoise
           Hid full.
    destruct (reachable_receiver_invariant rec Hreach)
      as (Hbuf & Hinv & _).
    destruct (mark_end_fixed_run rec timestamp Hbuf Hinv Had)
      as (rec' & status & Hrun).
    destruct (mark_end_step timestamp_validate timestamp_compare
                rec r1 rec' timestamp t mark status Hstate
                Hvalid Hnoise Hid)
      as (Hs & Hst & Hri & Hrep & _).
    { apply Hroom; [exact Hreach | tauto]. }
    { exact Hrun. }
    exists rec'. rewrite Hrun, Hs. auto.
  - intros rec r1 rec' timestamp t mark status Hreach Hstate Hvalid mark_len
           Hnoise Hid Hrun full.
    destruct (mark_end_step timestamp_validate timestamp_compare
                rec r1 rec' timestamp t mark status Hstate
                Hvalid Hnoise Hid)
      as (Hs & Hst & Hri & Hrep & _).
    { apply Hroom; [exact Hreach | tauto]. }
    { exact Hrun. }
    auto.
  - intros rec timestamp now Hreach Hstate Hvalid.
    destruct (reachable_receiver_invariant rec Hreach)
      as (Hbuf & Hinv & Hmarks).
    destruct (sync_parameters_invariant rec Hinv) as (rs & Hsync & _).
    exists rs; split; [exact Hsync |].
    intros S HS Hgap.
    pose proof Hbuf as (Hlen & Hb & _).
    destruct (poll_after_overflow timestamp_validate timestamp_compare
                rec rs timestamp now Hstate Hvalid Hsync Hlen)
      as [Hpoll _].
    { unfold CW_REC_REPRESENTATION_CAPACITY in *. lia. }
    { apply marks_not_nul; exact Hmarks. }
    { exact HS. }
    exact (Hpoll Hgap).
Qed.

Lemma timing_windows (rec : cw_rec_t) :
  timing_invariant rec →
  CW_SPEED_MIN ≤ speed rec ≤ CW_SPEED_MAX →
  parameters_in_sync rec = true →
  CW_DOT_CALIBRATION ÷ CW_SPEED_MAX ≤ dot_len_ideal rec
  ≤ CW_DOT_CALIBRATION ÷ CW_SPEED_MIN
  ∧ dash_len_ideal rec = 3 * dot_len_ideal rec
  ∧ 0 ≤ dot_len_min rec ≤ dot_len_ideal rec
  ∧ dot_len_ideal rec ≤ dot_len_max rec ≤ dash_len_min rec
  ∧ dash_len_min rec ≤ dash_len_ideal rec ≤ dash_len_max rec
  ∧ dash_len_max rec ≤ INT_MAX
  ∧ (is_adaptive_receive_mode rec = false →
     dot_len_max rec < dash_len_min rec)
  ∧ eom_len_min rec = dot_len_min rec ∧ eom_len_max rec = dot_len_max rec
  ∧ eoc_len_min rec = dash_len_min rec
  ∧ eoc_len_min rec ≤ eoc_len_max rec ≤ INT_MAX.
Proof.
  intros (Ht & Hg & Hsync) Hspeed Hin.
  destruct (Hsync Hin) as (u & Hu & Htim).
  unfold timings_of_unit in Htim.
  destruct Htim as (Hdi & Hai & _ & _ & _ & _ & Hem1 & Hem2 & Hmode).
  unfold CW_DOT_CALIBRATION, CW_SPEED_MAX, CW_SPEED_MIN, CW_TOLERANCE_MIN,
    CW_TOLERANCE_MAX, CW_GAP_MIN, CW_GAP_MAX, INT_MAX in *.
  change (1200000 ÷ 60) with 20000 in *.
  change (1200000 ÷ 4) with 300000 in *.
  destruct (is_adaptive_receive_mode rec).
  - destruct Hmode as (H1 & H2 & H3 & H4 & H5 & H6).
    rewrite Hdi, Hai, Hem1, Hem2, H1, H2, H3, H4, H5, H6.
    split_and!; try lia; discriminate.
  - cbn zeta in Hmode.
    destruct Hmode as (_ & H1 & H2 & H3 & H4 & H5 & H6).
    assert (Htol : 0 ≤ (u * tolerance rec) ÷ 100 ≤ 9 * u / 10).
    { rewrite Z.quot_div_nonneg by nia.
      split; [apply Z.div_pos; nia |].
      apply Z.div_le_lower_bound; [lia |].
      assert (10 * (u * tolerance rec / 100) ≤ (u * tolerance rec) / 10).
      { apply Z.div_le_lower_bound; [lia |].
        pose proof (Z.mul_div_le (u * tolerance rec) 100). lia. }
      assert ((u * tolerance rec) / 10 ≤ 9 * u).
      { apply Z.div_le_upper_bound; nia. }
      lia. }
    assert (H9 : 9 * u / 10 < u).
    { apply Z.div_lt_upper_bound; lia. }
    assert (Hgu : 0 ≤ gap rec * u ≤ 60 * 300000).
    { split; [apply Z.mul_nonneg_nonneg; lia |].
      apply Z.mul_le_mono_nonneg; lia. }
    assert (Hadj : 0 ≤ (7 * (gap rec * u)) ÷ 3 ≤ 7 * (gap rec * u)).
    { rewrite Z.quot_div_nonneg by lia.
      split; [apply Z.div_pos; lia |].
      apply Z.div_le_upper_bound; lia. }
    rewrite Hdi, Hai, Hem1, Hem2, H1, H2, H3, H4, H5, H6.
    split_and!; try lia.
Qed.

(** X14: the timing windows of a reachable receiver whose parameters are
    synchronized are in order, in fixed speed and in adaptive mode: the dot
    length is that of a speed between [CW_SPEED_MAX] and [CW_SPEED_MIN] and
    the dash three times as long; each window holds its ideal length; the
    window of the dot ends where or before the window of the dash begins,
    in fixed speed mode strictly before, so that no length is both; the
    end-of-character window begins with the dash window and is not empty;
    no bound overflows an [int]. *)
Theorem reachable_timing_windows (rec : cw_rec_t) :
  reachable timestamp_validate timestamp_compare rec →
  parameters_in_sync rec = true →
  CW_DOT_CALIBRATION ÷ CW_SPEED_MAX ≤ dot_len_ideal rec
  ≤ CW_DOT_CALIBRATION ÷ CW_SPEED_MIN
  ∧ dash_len_ideal rec = 3 * dot_len_ideal rec
  ∧ 0 ≤ dot_len_min rec ≤ dot_len_ideal rec
  ∧ dot_len_ideal rec ≤ dot_len_max rec ≤ dash_len_min rec
  ∧ dash_len_min rec ≤ dash_len_ideal rec ≤ dash_len_max rec
  ∧ dash_len_max rec ≤ INT_MAX
  ∧ (is_adaptive_receive_mode rec = false →
     dot_len_max rec < dash_len_min rec)
  ∧ eom_len_min rec = dot_len_min rec ∧ eom_len_max rec = dot_len_max rec
  ∧ eoc_len_min rec = dash_len_min rec
  ∧ eoc_len_min rec ≤ eoc_len_max rec ≤ INT_MAX.
Proof.
  intros Hreach.
  apply timing_windows.
  - exact (reachable_timing_invariant rec Hreach).
  - destruct (reachable_receiver_invariant rec Hreach) as (_ & Hinv & _).
    apply Hinv.
Qed.

(** X15: the circular buffer of statistics and the two averaging buffers of
    a reachable receiver are in order: the statistics buffer has its 256
    slots and its index is inside; the slots below the index hold records,
    and the slots from the index on are all free, or else the buffer has
    wrapped around and every slot holds a record; each averaging buffer
    has its 4 entries and its cursor inside. *)
Theorem reachable_statistics_in_order (rec : cw_rec_t) :
  reachable timestamp_validate timestamp_compare rec →
  Z.of_nat (length (statistics rec)) = CW_REC_STATISTICS_CAPACITY
  ∧ 0 ≤ statistics_ind rec < CW_REC_STATISTICS_CAPACITY
  ∧ Forall occupied (take (Z.to_nat (statistics_ind rec)) (statistics rec))
  ∧ (Forall (λ s, type s = CW_REC_STAT_NONE)
            (drop (Z.to_nat (statistics_ind rec)) (statistics rec))
     ∨ Forall occupied (statistics rec))
  ∧ averaging_in_bounds (dot_averaging rec)
  ∧ averaging_in_bounds (dash_averaging rec).
Proof.
  intros Hreach.
  destruct (reachable_receiver_invariant rec Hreach)
    as (_ & (_ & (H1 & H2 & H3 & H4) & Hdot & Hdash) & _).
  exact (conj H1 (conj H2 (conj H3 (conj H4 (conj Hdot Hdash))))).
Qed.
End ReceiverInvariant.

(** * Runs of the receiver of the library *)

(** What [receive_timings] returns is reachable: a timestamp that is given
    is validated without reading the clock. *)
Lemma receive_timings_reachable (d : list Z) :
  ∀ (rec rec' : cw_rec_t) (now : Z) (statuses : list (cw_ret unit)),
    reachable (cw_timestamp_validate_internal (usecs 0))
              cw_timestamp_compare_internal rec →
    receive_timings rec now d = Some (rec', statuses) →
    reachable (cw_timestamp_validate_internal (usecs 0))
              cw_timestamp_compare_internal rec'.
Proof.
  remember (length d) as n eqn:Hn.
  revert d Hn.
  induction n as [n IH] using lt_wf_ind.
  intros d Hn rec rec' now statuses Hreach Hrun.
  destruct d as [| mark_len [| space_len d']];
    try (injection Hrun as <- _; exact Hreach).
  cbn [receive_timings] in Hrun.
  destruct (cw_start_receive_tone _ _ rec _) as [[r1 s1] |] eqn:H1;
    [| discriminate].
  cbn [mbind option_bind] in Hrun.
  destruct (cw_end_receive_tone _ _ r1 _) as [[r2 s2] |] eqn:H2;
    [| discriminate].
  cbn [mbind option_bind] in Hrun.
  destruct (receive_timings r2 _ d') as [[r3 s3] |] eqn:H3;
    [| discriminate].
  injection Hrun as <- _.
  apply (IH (length d')) with (d := d') (rec := r2)
                              (now := now + mark_len + space_len)
                              (statuses := s3).
  - subst n. cbn [length]. lia.
  - reflexivity.
  - eapply rtc_r; [eapply rtc_r; [exact Hreach |] |].
    + apply (step_start_receive_tone _ _ rec (Some (usecs now)) r1 s1).
      exact H1.
    + apply (step_end_receive_tone _ _ r1 (Some (usecs (now + mark_len)))
               r2 s2).
      exact H2.
  - exact H3.
Qed.

(** [keyed_receiver] is reachable. *)
Lemma keyed_receiver_reachable :
  reachable (cw_timestamp_validate_internal (usecs 0))
            cw_timestamp_compare_internal keyed_receiver.
Proof.
  assert (H :
    ('(rec, _) ← receive_timings cw_receiver 0
                   (concat (replicate 254 [100000; 100000]));
     cw_start_receive_tone (cw_timestamp_validate_internal (usecs 0))
       cw_timestamp_compare_internal rec (Some (usecs 50800000)))
    = Some (keyed_receiver, CW_SUCCESS tt))
    by (vm_compute; reflexivity).
  destruct (receive_timings cw_receiver 0 _) as [[rec statuses] |] eqn:Hrun;
    [| discriminate].
  cbn [mbind option_bind] in H.
  eapply rtc_r.
  - eapply receive_timings_reachable; [apply rtc_refl | exact Hrun].
  - eapply step_start_receive_tone. exact H.
Qed.

(** The end of the 255th dot, keyed at 100 ms per dot without a poll. *)
Lemma representation_buffer_overflow_witness :
  ∃ rec',
    cw_rec_mark_end_internal
      (cw_timestamp_validate_internal (usecs 0))
      cw_timestamp_compare_internal
      keyed_receiver (Some (usecs 50900000))
    = Some (rec', CW_FAILURE ENOMEM)
    ∧ state rec' = RS_EOC_GAP_ERR
    ∧ representation_ind rec' = 254 + 1
    ∧ representation rec'
      = <[254%nat := CW_DOT_REPRESENTATION]> (representation keyed_receiver).
Proof.
  refine (proj1 (proj2 (proj2
            (representation_buffer_overflow
               (cw_timestamp_validate_internal (usecs 0))
               cw_timestamp_compare_internal)))
            keyed_receiver _ (Some (usecs 50900000))
            (usecs 50900000) CW_DOT_REPRESENTATION _ _ _ _ _ _).
  - exact keyed_receiver_reachable.
  - reflexivity.
  - reflexivity.
  - reflexivity.
  - vm_compute. intros [_ H]. apply H. reflexivity.
  - vm_compute. reflexivity.
Defined.

(** In adaptive mode with the noise filter off, four key-downs of no
    length bring the averaged dot length and the threshold to 0, and the
    speed that [cw_rec_sync_parameters_internal] derives from them is a
    division by zero: the fourth [cw_end_receive_tone] has no result. *)
Lemma adaptive_end_receive_tone_undefined :
  (∃ rec,
     receive_timings (cw_set_noise_spike_threshold adaptive_receiver 0).1 0
       [0; 100000; 0; 100000; 0; 100000]
     = Some (rec, [CW_SUCCESS tt; CW_SUCCESS tt; CW_SUCCESS tt]))
  ∧ receive_timings (cw_set_noise_spike_threshold adaptive_receiver 0).1 0
      [0; 100000; 0; 100000; 0; 100000; 0; 100000]
    = None.
Proof.
  split; [eexists |]; vm_compute; reflexivity.
Qed.

(** [dot_receiver] and [adaptive_receiver] are reachable. *)
Lemma dot_receiver_reachable :
  reachable (cw_timestamp_validate_internal (usecs 0))
            cw_timestamp_compare_internal dot_receiver.
Proof.
  apply rtc_once.
  apply (step_receive_buffer_dot _ _ cw_receiver (Some (usecs 0))
           dot_receiver (CW_SUCCESS tt)).
  vm_compute; reflexivity.
Qed.

Lemma adaptive_receiver_reachable :
  reachable (cw_timestamp_validate_internal (usecs 0))
            cw_timestamp_compare_internal adaptive_receiver.
Proof.
  apply rtc_once.
  apply (step_set_adaptive _ _ cw_receiver true adaptive_receiver).
  vm_compute; reflexivity.
Qed.

(** ** Runs that the theorems above apply to *)

(** The buffer after 254 dots, the key down. *)
Lemma reachable_buffer_in_order_witness :
  cw_get_receive_buffer_length keyed_receiver
  < cw_get_receive_buffer_capacity - 1
  ∧ Forall is_mark (buffered_representation keyed_receiver).
Proof.
  destruct (reachable_buffer_in_order _ _ keyed_receiver
              keyed_receiver_reachable)
    as (_ & _ & _ & _ & Hroom & Hmarks).
  split; [apply Hroom; right; left; reflexivity | exact Hmarks].
Defined.

(** The speed of the receiver in adaptive mode. *)
Lemma reachable_speed_in_range_witness :
  CW_SPEED_MIN ≤ cw_get_receive_speed adaptive_receiver ≤ CW_SPEED_MAX.
Proof.
  exact (reachable_speed_in_range _ _ adaptive_receiver
           adaptive_receiver_reachable).
Defined.

(** Tolerance set and adaptive mode left on the adaptive receiver. *)
Lemma parameter_calls_defined_witness :
  (∃ rec' status, cw_set_tolerance adaptive_receiver 30 = Some (rec', status))
  ∧ (∃ rec', cw_rec_set_adaptive_internal adaptive_receiver false = Some rec').
Proof.
  destruct (parameter_calls_defined _ _ adaptive_receiver 30 false
              adaptive_receiver_reachable)
    as (_ & Htol & _ & Had & _).
  split; [exact Htol | exact Had].
Defined.

(** The end of a tone at the time of the clock. *)
Lemma keying_calls_defined_witness :
  ∃ rec' status,
    cw_end_receive_tone (cw_timestamp_validate_internal (usecs 0))
      cw_timestamp_compare_internal keyed_receiver None
    = Some (rec', status).
Proof.
  destruct (keying_calls_defined _ _ keyed_receiver None
              keyed_receiver_reachable)
    as (_ & _ & _ & _ & Hend).
  apply Hend. reflexivity.
Defined.

(** A poll 300 ms after a dot at 12 WPM. *)
Lemma poll_reports_buffer_witness :
  ∃ rec' out,
    cw_receive_representation (cw_timestamp_validate_internal (usecs 0))
      cw_timestamp_compare_internal dot_receiver (Some (usecs 300000))
    = Some (rec', CW_SUCCESS out)
    ∧ out_representation out = buffered_representation dot_receiver
    ∧ Z.of_nat (length (out_representation out))
      = cw_get_receive_buffer_length dot_receiver
    ∧ buffered_representation rec' = buffered_representation dot_receiver.
Proof.
  assert (H : ∃ rec' out,
    cw_receive_representation (cw_timestamp_validate_internal (usecs 0))
      cw_timestamp_compare_internal dot_receiver (Some (usecs 300000))
    = Some (rec', CW_SUCCESS out))
    by (eexists _, _; vm_compute; reflexivity).
  destruct H as (rec' & out & Hrun).
  exists rec', out. split; [exact Hrun |].
  destruct (poll_reports_buffer _ _ dot_receiver rec' _ out
              dot_receiver_reachable Hrun)
    as (H1 & H2 & _ & _ & _ & H3 & _).
  split; [exact H1 | split; [exact H2 | exact H3]].
Defined.


(** A poll 5 s after a dot. *)
Lemma poll_moves_forward_witness :
  ∃ rec' status,
    cw_receive_representation (cw_timestamp_validate_internal (usecs 0))
      cw_timestamp_compare_internal dot_receiver (Some (usecs 5000000))
    = Some (rec', status)
    ∧ (state rec' = state dot_receiver
       ∨ state dot_receiver = RS_SPACE
         ∧ (state rec' = RS_EOC_GAP ∨ state rec' = RS_EOW_GAP)
       ∨ state dot_receiver = RS_EOC_GAP ∧ state rec' = RS_EOW_GAP
       ∨ state dot_receiver = RS_EOC_GAP_ERR ∧ state rec' = RS_EOW_GAP_ERR).
Proof.
  assert (H : ∃ rec' status,
    cw_receive_representation (cw_timestamp_validate_internal (usecs 0))
      cw_timestamp_compare_internal dot_receiver (Some (usecs 5000000))
    = Some (rec', status))
    by (eexists _, _; vm_compute; reflexivity).
  destruct H as (rec' & status & Hrun).
  exists rec', status. split; [exact Hrun |].
  exact (proj1 (poll_moves_forward _ _ dot_receiver _
                  dot_receiver_reachable) rec' status Hrun).
Defined.


(** A dot added while the key is down, and after the buffer is cleared. *)
Lemma marks_refused_until_cleared_witness :
  cw_receive_buffer_dot (cw_timestamp_validate_internal (usecs 0))
    keyed_receiver (Some (usecs 50900000))
  = Some (keyed_receiver, CW_FAILURE ERANGE)
  ∧ ∃ rec',
      cw_receive_buffer_dot (cw_timestamp_validate_internal (usecs 0))
        (cw_clear_receive_buffer keyed_receiver) (Some (usecs 50900000))
      = Some (rec', CW_SUCCESS tt)
      ∧ state rec' = RS_SPACE
      ∧ buffered_representation rec' = [CW_DOT_REPRESENTATION].
Proof.
  destruct (marks_refused_until_cleared _ _ keyed_receiver
              (Some (usecs 50900000)) (usecs 50900000)
              keyed_receiver_reachable eq_refl)
    as (Hrefused & _ & Hdot).
  split; [| exact Hdot].
  apply Hrefused; discriminate.
Defined.

(** The tolerance set to 30 in adaptive mode. *)
Lemma set_tolerance_and_gap_witness :
  ∃ rec',
    cw_set_tolerance adaptive_receiver 30 = Some (rec', CW_SUCCESS tt)
    ∧ cw_get_tolerance rec' = 30
    ∧ buffer_frame adaptive_receiver rec'.
Proof.
  destruct (set_tolerance_and_gap _ _ adaptive_receiver 30
              adaptive_receiver_reachable)
    as (_ & Htol & _).
  apply Htol. split; discriminate.
Defined.

(** A tone of no length with the noise filter off. *)
Lemma noise_spike_threshold_zero_witness :
  ∃ rec' status,
    cw_end_receive_tone (cw_timestamp_validate_internal (usecs 0))
      cw_timestamp_compare_internal
      (cw_set_noise_spike_threshold keyed_receiver 0).1
      (Some (usecs 50800000))
    = Some (rec', status)
    ∧ status ≠ CW_FAILURE EAGAIN.
Proof.
  assert (H : ∃ rec' status,
    cw_end_receive_tone (cw_timestamp_validate_internal (usecs 0))
      cw_timestamp_compare_internal
      (cw_set_noise_spike_threshold keyed_receiver 0).1
      (Some (usecs 50800000))
    = Some (rec', status))
    by (eexists _, _; vm_compute; reflexivity).
  destruct H as (rec' & status & Hrun).
  exists rec', status. split; [exact Hrun |].
  destruct (noise_spike_threshold_zero _ _ keyed_receiver 0
              keyed_receiver_reachable)
    as (_ & _ & Hoff).
  exact (Hoff (Some (usecs 50800000)) (usecs 50800000) rec' status
           eq_refl Hrun).
Defined.

(** The standard deviation of 254 dots. *)
Lemma receive_statistics_cover_the_buffer_witness :
  cw_rec_get_stats_internal keyed_receiver CW_REC_STAT_DOT
  = Some (standard_deviation
            (deltas_of CW_REC_STAT_DOT (statistics keyed_receiver))).
Proof.
  destruct (receive_statistics_cover_the_buffer _ _ keyed_receiver
              keyed_receiver_reachable)
    as (Hsd & _).
  apply Hsd. discriminate.
Defined.


(** The windows of 12 WPM. *)
Lemma reachable_timing_windows_witness :
  dot_len_max keyed_receiver < dash_len_min keyed_receiver
  ∧ eoc_len_min keyed_receiver ≤ eoc_len_max keyed_receiver ≤ INT_MAX.
Proof.
  destruct (reachable_timing_windows _ _ keyed_receiver
              keyed_receiver_reachable eq_refl)
    as (_ & _ & _ & _ & _ & _ & Hstrict & _ & _ & _ & Heoc).
  split; [apply Hstrict; reflexivity | exact Heoc].
Defined.

(** The statistics after 254 dots. *)
Lemma reachable_statistics_in_order_witness :
  0 ≤ statistics_ind keyed_receiver < CW_REC_STATISTICS_CAPACITY
  ∧ Forall occupied (take (Z.to_nat (statistics_ind keyed_receiver))
                          (statistics keyed_receiver)).
Proof.
  destruct (reachable_statistics_in_order _ _ keyed_receiver
              keyed_receiver_reachable)
    as (_ & Hind & Hocc & _).
  split; [exact Hind | exact Hocc].
Defined.
